(** * AstaClient/asta: the retrying fetch, the form validator and the
      players-online poller

    A shallow embedding of [src/js/utils.js] and [src/js/stats.js].

    Conventions of the embedding.
    - A JavaScript string is the sequence of its code units; this
      development covers the strings whose code units are below 256, one
      [ascii] each.  The Cyrillic messages of the source are constants that
      are only stored and compared; they are written as they stand in the
      source.
    - A thrown exception is an explicit result: [None] where only the fact
      matters, [RejectedWith e] where the error value is used.
    - What the browser provides and the source only calls (the regular
      expression engine behind the [pattern] attribute, the comparison of a
      number with a string) is a field of the class [Host]; the theorems
      hold for every host. *)

From Stdlib Require Import Ascii String List ZArith NArith Bool Lia.
From stdpp Require Import base option list strings gmap pretty.

Set Warnings "-register-all".

Open Scope Z_scope.
Open Scope nat_scope.

(** ** JavaScript strings and numbers *)

Module JS.

(** [\s] of a regular expression and the characters [trim] strips: tab, line
    feed, vertical tab, form feed, carriage return, space and no-break
    space (the others lie above code unit 255). *)
Definition is_whitespace (c : ascii) : bool :=
  let n := N_of_ascii c in
  ((9 <=? n) && (n <=? 13) || (n =? 32) || (n =? 160))%N.

Definition chars (s : string) : list ascii := list_ascii_of_string s.

Fixpoint drop_whitespace (l : list ascii) : list ascii :=
  match l with
  | c :: l' => if is_whitespace c then drop_whitespace l' else l
  | [] => []
  end.

(** [String.prototype.trim] *)
Definition trim (s : string) : string :=
  string_of_list_ascii
    (rev (drop_whitespace (rev (drop_whitespace (chars s))))).

(** The value of a digit in a radix up to 36, as [parseInt] reads it. *)
Definition digit_value (c : ascii) : option N :=
  let n := N_of_ascii c in
  if ((48 <=? n) && (n <=? 57))%N then Some (n - 48)%N
  else if ((97 <=? n) && (n <=? 122))%N then Some (n - 87)%N
  else if ((65 <=? n) && (n <=? 90))%N then Some (n - 55)%N
  else None.

(** The longest prefix of digits of the radix, folded into a number;
    [None] when there is no digit at all. *)
Fixpoint digits_prefix (radix : N) (l : list ascii) (acc : option N) : option N :=
  match l with
  | c :: l' =>
      match digit_value c with
      | Some d =>
          if (d <? radix)%N
          then digits_prefix radix l' (Some (from_option id 0%N acc * radix + d)%N)
          else acc
      | None => acc
      end
  | [] => acc
  end.

(** [parseInt(s)] with no radix argument; [None] is [NaN]. *)
Definition parseInt (s : string) : option Z :=
  let l := drop_whitespace (chars s) in
  let '(negative, l) :=
    match l with
    | "-"%char :: l' => (true, l')
    | "+"%char :: l' => (false, l')
    | _ => (false, l)
    end in
  let '(radix, l) :=
    match l with
    | "0"%char :: "x"%char :: l' | "0"%char :: "X"%char :: l' => (16%N, l')
    | _ => (10%N, l)
    end in
  match digits_prefix radix l None with
  | Some n => Some (if negative then - Z.of_N n else Z.of_N n)%Z
  | None => None
  end.

(** [n < m] and [n > m] for a length [n] and a number [m] that may be [NaN]:
    a comparison with [NaN] is false. *)
Definition length_lt (n : nat) (m : option Z) : bool :=
  match m with Some z => (Z.of_nat n <? z)%Z | None => false end.
Definition length_gt (n : nat) (m : option Z) : bool :=
  match m with Some z => (z <? Z.of_nat n)%Z | None => false end.

(** A number inside a template literal.  The integers [parseInt] returns
    print in decimal (below 10^21, where JavaScript switches to the
    exponent form). *)
Definition number_to_string (m : option Z) : string :=
  match m with Some z => pretty z | None => "NaN" end.

End JS.

(** ** Regular expressions *)

Module Regex.

Inductive regex : Type :=
| Void
| Eps
| Class (p : ascii -> bool)
| Cat (r1 r2 : regex)
| Alt (r1 r2 : regex)
| Star (r : regex).

(** [r+] *)
Definition Plus (r : regex) : regex := Cat r (Star r).

Fixpoint nullable (r : regex) : bool :=
  match r with
  | Void => false
  | Eps => true
  | Class _ => false
  | Cat r1 r2 => nullable r1 && nullable r2
  | Alt r1 r2 => nullable r1 || nullable r2
  | Star _ => true
  end.

Fixpoint deriv (c : ascii) (r : regex) : regex :=
  match r with
  | Void => Void
  | Eps => Void
  | Class p => if p c then Eps else Void
  | Cat r1 r2 =>
      if nullable r1 then Alt (Cat (deriv c r1) r2) (deriv c r2)
      else Cat (deriv c r1) r2
  | Alt r1 r2 => Alt (deriv c r1) (deriv c r2)
  | Star r' => Cat (deriv c r') (Star r')
  end.

(** Whether the whole of [s] matches [r]: the test of [/^r$/]. *)
Fixpoint matches (r : regex) (s : list ascii) : bool :=
  match s with
  | [] => nullable r
  | c :: s' => matches (deriv c r) s'
  end.

(** The language of a regular expression. *)
Inductive lang : regex -> list ascii -> Prop :=
| lang_eps : lang Eps []
| lang_class p c : p c = true -> lang (Class p) [c]
| lang_cat r1 r2 s1 s2 : lang r1 s1 -> lang r2 s2 -> lang (Cat r1 r2) (s1 ++ s2)
| lang_alt_l r1 r2 s : lang r1 s -> lang (Alt r1 r2) s
| lang_alt_r r1 r2 s : lang r2 s -> lang (Alt r1 r2) s
| lang_star_nil r : lang (Star r) []
| lang_star_cons r s1 s2 : lang r s1 -> lang (Star r) s2 -> lang (Star r) (s1 ++ s2).

End Regex.


(** ** [src/js/utils.js] *)

Module Utils.

(** *** The retrying fetch *)

(** An error value: the two properties the source reads or writes. *)
Record Error := { error_name : string; error_message : string }.

(** How a promise settles. *)
Inductive Settled (A : Type) : Type :=
| Fulfilled (a : A)
| RejectedWith (e : Error).
Arguments Fulfilled {A} a.
Arguments RejectedWith {A} e.

(** The response [fetch] resolves to: [ok], [status], [statusText], and what
    [response.json()] settles to. *)
Record Response (Payload : Type) := {
  ok : bool;
  status : nat;
  statusText : string;
  json : Settled Payload }.
Arguments ok {Payload} _.
Arguments status {Payload} _.
Arguments statusText {Payload} _.
Arguments json {Payload} _.

(** The environment of one call: what the [k]-th [fetch] settles to (a
    rejection named [AbortError] when the abort timer fired first), and
    [navigator.onLine]. *)
Record World (Payload : Type) := {
  network : nat -> Settled (Response Payload);
  onLine : bool }.
Arguments network {Payload} _ _.
Arguments onLine {Payload} _.

(** What a call does besides returning, in order.  A [FetchCall] carries
    the number of the attempt that makes it; [options] is passed through to
    [fetch] and plays no other part. *)
Inductive Event : Type :=
| SetAbortTimer (ms : N)
| ClearAbortTimer
| FetchCall (url : string) (attempt : nat)
| Delay (ms : N)
| Toast (message type : string)
| ConsoleError (label : string) (e : Error).

(** [delay(ms)] *)
Definition delay (ms : N) : list Event := [Delay ms].

Definition showToast (message type : string) : list Event := [Toast message type].
Definition showErrorToast (message : string) : list Event := showToast message "error".

Definition timeout_message : string := "Превышено время ожидания. Проверьте соединение".
Definition offline_message : string := "Нет подключения к интернету".
Definition connection_message : string := "Ошибка соединения. Попробуйте позже".

Definition handleNetworkError {Payload} (w : World Payload) (error : Error) : list Event :=
  (if bool_decide (error_name error = "AbortError") then showErrorToast timeout_message
   else if negb (onLine w) then showErrorToast offline_message
   else showErrorToast connection_message)
  ++ [ConsoleError "Network Error:" error].

(** [new Error(`HTTP ${response.status}: ${response.statusText}`)] *)
Definition http_error {Payload} (response : Response Payload) : Error :=
  {| error_name := "Error";
     error_message := "HTTP " +:+ pretty (status response) +:+ ": " +:+ statusText response |}.

(** The body of [try] for one attempt: the value it returns or the error it
    throws, and its events. *)
Definition attempt_body {Payload} (w : World Payload) (url : string) (attempt : nat)
  : Settled Payload * list Event :=
  let started := [SetAbortTimer 10000%N; FetchCall url attempt] in
  match network w attempt with
  | RejectedWith e => (RejectedWith e, started)
  | Fulfilled response =>
      if negb (ok response)
      then (RejectedWith (http_error response), started ++ [ClearAbortTimer])
      else (json response, started ++ [ClearAbortTimer])
  end.

(** The [for] loop from [attempt] on, with [remaining] iterations to go
    before [attempt <= maxRetries] fails ([maxRetries + 1 - attempt] of
    them).  A loop that ends without returning makes the function return
    [undefined], here [Fulfilled None]. *)
Fixpoint retry_loop {Payload} (maxRetries : nat) (retryDelay : N) (w : World Payload)
    (url : string) (remaining attempt : nat) : Settled (option Payload) * list Event :=
  match remaining with
  | 0 => (Fulfilled None, [])
  | S remaining' =>
      match attempt_body w url attempt with
      | (Fulfilled data, evs) => (Fulfilled (Some data), evs)
      | (RejectedWith error, evs) =>
          if attempt =? maxRetries
          then (RejectedWith error, evs ++ handleNetworkError w error)
          else
            let '(r, evs') := retry_loop maxRetries retryDelay w url remaining' (S attempt) in
            (r, evs ++ delay (retryDelay * N.of_nat attempt) ++ evs')
      end
  end.

(** The function for any two constants. *)
Definition fetch_with {Payload} (maxRetries : nat) (retryDelay : N) (w : World Payload)
    (url : string) : Settled (option Payload) * list Event :=
  retry_loop maxRetries retryDelay w url maxRetries 1.

Definition fetchWithErrorHandling {Payload} (w : World Payload) (url : string)
  : Settled (option Payload) * list Event :=
  fetch_with 3 1000%N w url.

(** Readings of a trace. *)
Definition fetch_calls (tr : list Event) : list nat :=
  omap (fun e => match e with FetchCall _ k => Some k | _ => None end) tr.
Definition delays (tr : list Event) : list N :=
  omap (fun e => match e with Delay ms => Some ms | _ => None end) tr.
Definition toasts (tr : list Event) : list (string * string) :=
  omap (fun e => match e with Toast m t => Some (m, t) | _ => None end) tr.
Definition console_errors (tr : list Event) : list Error :=
  omap (fun e => match e with ConsoleError _ err => Some err | _ => None end) tr.
(** The fetches and the delays alone, in order. *)
Definition schedule (tr : list Event) : list Event :=
  List.filter (fun e => match e with FetchCall _ _ | Delay _ => true | _ => false end) tr.

End Utils.


(** ** The browser's part in validation *)

(** [RegExp p] is [new RegExp(p)]: [None] when the constructor throws on
    [p], else the [test] method of the expression.  [length_lt_string n s]
    is [n < s] for a number [n] and a string [s], which converts [s] to a
    number first. *)
Class Host := {
  RegExp : string -> option (string -> bool);
  length_lt_string : nat -> string -> bool }.

(** ** [class FormValidator] of [src/js/utils.js] *)

Module FormValidator.

Import Regex.

(** *** The form *)

Inductive Tag : Type := input | textarea | select | other.

(** A control of the form: its element name, its attributes as written in
    the page, its [type] property, and the values it contributes to
    [new FormData(form)] (none when it is disabled or an unchecked box,
    several for a multiple select).  The values are strings: a file input,
    whose value is a [File], is outside the model. *)
Record Field := {
  tagName : Tag;
  attributes : gmap string string;
  type : string;
  entries : list string }.

Definition hasAttribute (field : Field) (a : string) : bool :=
  bool_decide (is_Some (attributes field !! a)).
Definition getAttribute (field : Field) (a : string) : option string :=
  attributes field !! a.
(** [field.name]: the [name] attribute, the empty string without one. *)
Definition name (field : Field) : string := default "" (getAttribute field "name").
(** [field.placeholder]; a [select] has no such property. *)
Definition placeholder (field : Field) : string :=
  match tagName field with
  | input | textarea => default "" (getAttribute field "placeholder")
  | _ => ""
  end.

(** The controls of a form, in tree order. *)
Definition Form := list Field.

(** [new FormData(form)]: the entry list.  A control with an empty name
    contributes nothing. *)
Definition FormData (form : Form) : list (string * string) :=
  flat_map (fun field =>
    if bool_decide (name field = "") then []
    else map (pair (name field)) (entries field)) form.

(** [formData.get(n)]: the value of the first entry named [n], or [null]. *)
Definition FormData_get (formData : list (string * string)) (n : string) : option string :=
  snd <$> List.find (fun e => bool_decide (fst e = n)) formData.

(** [form.querySelectorAll('input[required], textarea[required], select[required]')] *)
Definition is_required_control (field : Field) : bool :=
  match tagName field with
  | input | textarea | select => hasAttribute field "required"
  | other => false
  end.
Definition querySelectorAll_required (form : Form) : list Field :=
  List.filter is_required_control form.

(** *** The [errors] object: its own properties in insertion order *)

(** The keys are field names; a name that JavaScript orders or treats in a
    way of its own (an array index, [__proto__]) is outside the model. *)

Definition Errors := list (string * string).

(** [errors[k] = v] *)
Fixpoint set_property (k v : string) (errors : Errors) : Errors :=
  match errors with
  | [] => [(k, v)]
  | (k', v') :: rest =>
      if bool_decide (k' = k) then (k, v) :: rest
      else (k', v') :: set_property k v rest
  end.
(** [errors[k]] *)
Definition get_property (errors : Errors) (k : string) : option string :=
  snd <$> List.find (fun e => bool_decide (fst e = k)) errors.
Definition Object_keys (errors : Errors) : list string := map fst errors.

Record ValidationResult := { valid : bool; errors : Errors }.

(** *** [validateEmail] *)

(** [[^\s@]] *)
Definition not_space_or_at (c : ascii) : bool :=
  negb (JS.is_whitespace c || bool_decide (c = "@"%char)).
Definition is_char (a : ascii) (c : ascii) : bool := bool_decide (c = a).

(** [/^[^\s@]+@[^\s@]+\.[^\s@]+$/] *)
Definition emailRegex : regex :=
  Cat (Plus (Class not_space_or_at))
 (Cat (Class (is_char "@"))
 (Cat (Plus (Class not_space_or_at))
 (Cat (Class (is_char "."))
      (Plus (Class not_space_or_at))))).

Definition validateEmail (email : string) : bool :=
  matches emailRegex (JS.chars email).

(** *** The messages *)

Definition quote : string := String "034"%char EmptyString.
Definition or_else (s fallback : string) : string :=
  if bool_decide (s = "") then fallback else s.

(** [`Поле "${field.placeholder || fieldName}" обязательно для заполнения`] *)
Definition required_message (field : Field) : string :=
  "Поле " +:+ quote +:+ or_else (placeholder field) (name field) +:+ quote
  +:+ " обязательно для заполнения".
Definition email_message : string := "Введите корректный email адрес".
Definition password_message (minLength : string) : string :=
  "Пароль должен содержать минимум " +:+ minLength +:+ " символов".
Definition minlength_message (minLength : option Z) : string :=
  "Минимальная длина: " +:+ JS.number_to_string minLength +:+ " символов".
Definition maxlength_message (maxLength : option Z) : string :=
  "Максимальная длина: " +:+ JS.number_to_string maxLength +:+ " символов".
Definition format_message : string := "Неверный формат".

(** *** [validate] *)

Section Validate.
Context `{Host}.

(** [!fieldValue || fieldValue.trim() === ''] *)
Definition is_blank (fieldValue : option string) : bool :=
  match fieldValue with
  | None => true
  | Some v => bool_decide (v = "") || bool_decide (JS.trim v = "")
  end.

(** The rules after the emptiness check, each one statement of the source
    on the [errors] object. *)
Definition check_email (field : Field) (fieldValue : string) (errors : Errors) : Errors :=
  if bool_decide (type field = "email") then
    if negb (validateEmail fieldValue)
    then set_property (name field) email_message errors
    else errors
  else errors.

(** [field.getAttribute('minlength') || 8]: the attribute's string, or the
    number 8 when it is missing or empty. *)
Definition password_minLength (field : Field) : string + nat :=
  match getAttribute field "minlength" with
  | Some s => if bool_decide (s = "") then inr 8 else inl s
  | None => inr 8
  end.
Definition too_short_for_password (field : Field) (fieldValue : string) : bool :=
  match password_minLength field with
  | inl s => length_lt_string (String.length fieldValue) s
  | inr n => String.length fieldValue <? n
  end.
Definition check_password (field : Field) (fieldValue : string) (errors : Errors) : Errors :=
  if bool_decide (type field = "password") then
    if too_short_for_password field fieldValue
    then set_property (name field)
           (password_message
              match password_minLength field with inl s => s | inr n => pretty n end) errors
    else errors
  else errors.

Definition check_minlength (field : Field) (fieldValue : string) (errors : Errors) : Errors :=
  if hasAttribute field "minlength" then
    let minLength := JS.parseInt (default "" (getAttribute field "minlength")) in
    if JS.length_lt (String.length fieldValue) minLength
    then set_property (name field) (minlength_message minLength) errors
    else errors
  else errors.

Definition check_maxlength (field : Field) (fieldValue : string) (errors : Errors) : Errors :=
  if hasAttribute field "maxlength" then
    let maxLength := JS.parseInt (default "" (getAttribute field "maxlength")) in
    if JS.length_gt (String.length fieldValue) maxLength
    then set_property (name field) (maxlength_message maxLength) errors
    else errors
  else errors.

(** [None] when [new RegExp] throws. *)
Definition check_pattern (field : Field) (fieldValue : string) (errors : Errors)
  : option Errors :=
  if hasAttribute field "pattern" then
    match RegExp (default "" (getAttribute field "pattern")) with
    | None => None
    | Some pattern_test =>
        if pattern_test fieldValue then Some errors
        else
          Some (set_property (name field)
                  (or_else (default "" (getAttribute field "title")) format_message) errors)
    end
  else Some errors.

(** The callback of [fields.forEach]. *)
Definition validate_field (formData : list (string * string)) (errors : Errors)
    (field : Field) : option Errors :=
  let fieldName := name field in
  let fieldValue := FormData_get formData fieldName in
  if is_blank fieldValue then Some (set_property fieldName (required_message field) errors)
  else
    let v := default "" fieldValue in
    check_pattern field v
      (check_maxlength field v
        (check_minlength field v
          (check_password field v
            (check_email field v errors)))).

(** [fields.forEach(...)]; an exception ends it. *)
Fixpoint forEach_field (formData : list (string * string)) (fields : list Field)
    (errors : Errors) : option Errors :=
  match fields with
  | [] => Some errors
  | field :: rest =>
      match validate_field formData errors field with
      | Some errors' => forEach_field formData rest errors'
      | None => None
      end
  end.

(** The body of [validate] for a given list of fields. *)
Definition validate_fields (form : Form) (fields : list Field) : option ValidationResult :=
  match forEach_field (FormData form) fields [] with
  | Some errors =>
      Some {| valid := length (Object_keys errors) =? 0; errors := errors |}
  | None => None
  end.

Definition validate (form : Form) : option ValidationResult :=
  validate_fields form (querySelectorAll_required form).

End Validate.

(** *** The page, for [displayErrors] and [clearErrors] *)

(** An element: what the two methods read or write. *)
Record Element := {
  localName : string;
  id : option string;
  name_attribute : option string;
  classList : list string;
  style_display : string }.

(** A node with its children in order; the text of an element is the text
    of its descendants. *)
Inductive Node : Type :=
| TextNode (data : string)
| ElementNode (e : Element) (childNodes : list Node).

(** The nodes under the root of the page. *)
Definition Document := list Node.

Fixpoint textContent (n : Node) : string :=
  match n with
  | TextNode data => data
  | ElementNode _ childNodes =>
      fold_right (fun c acc => textContent c +:+ acc) "" childNodes
  end.

(** The children [element.textContent = s] leaves. *)
Definition text_children (s : string) : list Node :=
  if bool_decide (s = "") then [] else [TextNode s].

Definition has_class (c : string) (e : Element) : bool := bool_decide (c ∈ classList e).
Definition classList_add (c : string) (e : Element) : Element :=
  {| localName := localName e; id := id e; name_attribute := name_attribute e;
     classList := if has_class c e then classList e else classList e ++ [c];
     style_display := style_display e |}.
Definition classList_remove (c : string) (e : Element) : Element :=
  {| localName := localName e; id := id e; name_attribute := name_attribute e;
     classList := List.filter (fun c' => negb (bool_decide (c' = c))) (classList e);
     style_display := style_display e |}.
Definition set_display (d : string) (e : Element) : Element :=
  {| localName := localName e; id := id e; name_attribute := name_attribute e;
     classList := classList e; style_display := d |}.

(** The elements of the page, in tree order. *)
Fixpoint elements_of (n : Node) : list (Element * list Node) :=
  match n with
  | TextNode _ => []
  | ElementNode e childNodes => (e, childNodes) :: flat_map elements_of childNodes
  end.
Definition elements (doc : Document) : list (Element * list Node) :=
  flat_map elements_of doc.

(** Replaces the first element in tree order that satisfies [p] by the
    nodes [f] makes of it; [None] when no element does. *)
Fixpoint replace_first_in (p : Element -> bool) (f : Element -> list Node -> list Node)
    (n : Node) : option (list Node) :=
  match n with
  | TextNode _ => None
  | ElementNode e childNodes =>
      if p e then Some (f e childNodes)
      else
        (fun cs => [ElementNode e cs]) <$>
        (fix among (l : list Node) : option (list Node) :=
           match l with
           | [] => None
           | c :: l' =>
               match replace_first_in p f c with
               | Some r => Some (r ++ l')
               | None => cons c <$> among l'
               end
           end) childNodes
  end.
Fixpoint replace_first (p : Element -> bool) (f : Element -> list Node -> list Node)
    (doc : Document) : option Document :=
  match doc with
  | [] => None
  | c :: l' =>
      match replace_first_in p f c with
      | Some r => Some (r ++ l')
      | None => cons c <$> replace_first p f l'
      end
  end.

(** [[name="fieldName"]] and [#id], for names without a quote or a
    backslash. *)
Definition named (fieldName : string) (e : Element) : bool :=
  bool_decide (name_attribute e = Some fieldName).
Definition with_id (i : string) (e : Element) : bool :=
  bool_decide (id e = Some i).

(** Every element of the page through [f], children first rewritten by
    [f] too. *)
Fixpoint map_elements (f : Element -> Element) (n : Node) : Node :=
  match n with
  | TextNode data => TextNode data
  | ElementNode e childNodes => ElementNode (f e) (map (map_elements f) childNodes)
  end.

(** [element.textContent = ''; element.style.display = 'none'] on every
    element of class [error-message]: its children leave the page. *)
Fixpoint hide_messages (n : Node) : Node :=
  match n with
  | TextNode data => TextNode data
  | ElementNode e childNodes =>
      if has_class "error-message" e
      then ElementNode (set_display "none" e) (text_children "")
      else ElementNode e (map hide_messages childNodes)
  end.

Definition clearErrors (doc : Document) : Document :=
  let doc := map (map_elements (classList_remove "error")) doc in
  map hide_messages doc.

(** The [span] that [displayErrors] creates. *)
Definition new_error_element (fieldName : string) : Element :=
  {| localName := "span"; id := Some (fieldName +:+ "-error"); name_attribute := None;
     classList := ["error-message"]; style_display := "" |}.

(** The callback of [Object.keys(errors).forEach]. *)
Definition display_error (doc : Document) (entry : string * string) : Document :=
  let '(fieldName, errorMessage) := entry in
  let shown e := ElementNode (set_display "block" e) (text_children errorMessage) in
  match replace_first (named fieldName)
          (fun e cs => [ElementNode (classList_add "error" e) cs]) doc with
  | None => doc
  | Some doc =>
      match replace_first (with_id (fieldName +:+ "-error")) (fun e _ => [shown e]) doc with
      | Some doc' => doc'
      | None =>
          default doc
            (replace_first (named fieldName)
               (fun e cs => [ElementNode e cs; shown (new_error_element fieldName)]) doc)
      end
  end.

Definition displayErrors (errors : Errors) (doc : Document) : Document :=
  fold_left display_error errors (clearErrors doc).

End FormValidator.

(** ** [src/js/stats.js] *)

(** JavaScript numbers, as far as the module uses them: the literal [0] and
    whether a number is falsy ([0], [-0] or [NaN]). *)
Class Numbers := {
  number : Type;
  zero : number;
  number_is_falsy : number -> bool }.

Module Stats.

Import Utils.

Section StatsModule.
Context `{Numbers}.

(** What [response.json()] decodes to.  An object is the list of its own
    properties, each key once. *)
Inductive Json : Type :=
| JNull
| JBool (b : bool)
| JNumber (n : number)
| JString (s : string)
| JArray (items : list Json)
| JObject (members : list (string * Json)).

(** The truthiness of [data]; [None] is [undefined]. *)
Definition truthy (data : option Json) : bool :=
  match data with
  | None | Some JNull => false
  | Some (JBool b) => b
  | Some (JNumber n) => negb (number_is_falsy n)
  | Some (JString s) => negb (bool_decide (s = ""))
  | Some (JArray _) | Some (JObject _) => true
  end.

(** [data.onlinePlayers] for a [data] that is not [null] or [undefined];
    [None] is [undefined]. *)
Definition get_onlinePlayers (data : Json) : option Json :=
  match data with
  | JObject members =>
      snd <$> List.find (fun m => bool_decide (fst m = "onlinePlayers")) members
  | _ => None
  end.

(** [data && typeof data.onlinePlayers === 'number'], with the number. *)
Definition numeric_onlinePlayers (data : option Json) : option number :=
  if truthy data then
    match data with
    | Some d => match get_onlinePlayers d with Some (JNumber n) => Some n | _ => None end
    | None => None
    end
  else None.

(** The fields of a [StatsModule]; [null] is [None]. *)
Record StatsModule := {
  apiEndpoint : string;
  updateInterval : option nat;
  lastKnownCount : option number;
  isUpdating : bool }.

Definition constructor (apiEndpoint : string) : StatsModule :=
  {| apiEndpoint := apiEndpoint; updateInterval := None;
     lastKnownCount := None; isUpdating := false |}.
Definition default_endpoint : string := "/api/server/stats".

(** What the module does to the outside, in order: the fetch it begins,
    its lines on the console ([LogStart interval] is the line of
    [startAutoUpdate], which prints the interval in seconds), and the
    interval timers it sets and clears. *)
Inductive Effect : Type :=
| FetchBegan (url : string)
| LogStart (interval : N)
| LogInfo (text : string)
| LogError (label : string) (e : Error)
| SetInterval (timer : nat) (ms : N)
| ClearInterval (timer : nat).

(** The page is any type; the two rendering methods read
    [this.lastKnownCount] and the page and write the page only, and either
    may throw. *)
Context {Page : Type}.
Context (render_stats : option number -> number -> Page -> Settled unit * Page).
Context (render_unavailable : option number -> Page -> Settled unit * Page).

(** The module at run time: the object, the page, the update cycles
    suspended at their [await] (each with the URL it fetches), the timers
    handed out so far, and the effects so far. *)
Record System := {
  this : StatsModule;
  page : Page;
  awaiting : list string;
  timers : nat;
  effects : list Effect }.

Definition with_this (m : StatsModule) (s : System) : System :=
  {| this := m; page := page s; awaiting := awaiting s; timers := timers s;
     effects := effects s |}.
Definition with_page (p : Page) (s : System) : System :=
  {| this := this s; page := p; awaiting := awaiting s; timers := timers s;
     effects := effects s |}.
Definition with_awaiting (a : list string) (s : System) : System :=
  {| this := this s; page := page s; awaiting := a; timers := timers s;
     effects := effects s |}.
Definition with_timers (t : nat) (s : System) : System :=
  {| this := this s; page := page s; awaiting := awaiting s; timers := t;
     effects := effects s |}.
Definition emit (e : Effect) (s : System) : System :=
  {| this := this s; page := page s; awaiting := awaiting s; timers := timers s;
     effects := effects s ++ [e] |}.

Definition set_lastKnownCount (c : option number) (m : StatsModule) : StatsModule :=
  {| apiEndpoint := apiEndpoint m; updateInterval := updateInterval m;
     lastKnownCount := c; isUpdating := isUpdating m |}.
Definition set_isUpdating (b : bool) (m : StatsModule) : StatsModule :=
  {| apiEndpoint := apiEndpoint m; updateInterval := updateInterval m;
     lastKnownCount := lastKnownCount m; isUpdating := b |}.
Definition set_updateInterval (t : option nat) (m : StatsModule) : StatsModule :=
  {| apiEndpoint := apiEndpoint m; updateInterval := t;
     lastKnownCount := lastKnownCount m; isUpdating := isUpdating m |}.
Definition set_apiEndpoint (e : string) (m : StatsModule) : StatsModule :=
  {| apiEndpoint := e; updateInterval := updateInterval m;
     lastKnownCount := lastKnownCount m; isUpdating := isUpdating m |}.

(** *** Code that runs on the system and may throw *)

Definition M (A : Type) : Type := System -> Settled A * System.

Definition ret {A} (a : A) : M A := fun s => (Fulfilled a, s).
Definition bind {A B} (m : M A) (k : A -> M B) : M B :=
  fun s => match m s with
           | (Fulfilled a, s') => k a s'
           | (RejectedWith e, s') => (RejectedWith e, s')
           end.
(** [await p] for a promise that has settled. *)
Definition await {A} (p : Settled A) : M A := fun s => (p, s).
Definition try_catch {A} (body : M A) (handler : Error -> M A) : M A :=
  fun s => match body s with
           | (Fulfilled a, s') => (Fulfilled a, s')
           | (RejectedWith e, s') => handler e s'
           end.
(** [try { body } finally { final }] for a [final] that does not throw. *)
Definition try_finally {A} (body : M A) (final : System -> System) : M A :=
  fun s => let '(r, s') := body s in (r, final s').
Definition update (f : System -> System) : M unit := fun s => (Fulfilled tt, f s).
Definition read {A} (f : System -> A) : M A := fun s => (Fulfilled (f s), s).

#[local] Instance M_ret : MRet M := @ret.
#[local] Instance M_bind : MBind M := fun A B k m => bind m k.

Definition displayStats (count : number) : M unit :=
  fun s => let '(r, p) := render_stats (lastKnownCount (this s)) count (page s) in
           (r, with_page p s).
Definition displayStatsUnavailable : M unit :=
  fun s => let '(r, p) := render_unavailable (lastKnownCount (this s)) (page s) in
           (r, with_page p s).

(** *** [getOnlinePlayersCount] *)

(** The method from its [await] on, [fetched] being what
    [fetchWithErrorHandling(this.apiEndpoint)] settled to.  The result is a
    number or [null]. *)
Definition getOnlinePlayersCount (fetched : Settled (option Json)) : M (option number) :=
  try_catch
    (data ← await fetched;
     match numeric_onlinePlayers data with
     | Some n =>
         update (fun s => with_this (set_lastKnownCount (Some n) (this s)) s);;
         mret (Some n)
     | None =>
         last ← read (fun s => lastKnownCount (this s));
         mret (Some (default zero last))
     end)
    (fun error =>
       update (emit (LogError "Ошибка при получении статистики игроков:" error));;
       read (fun s => lastKnownCount (this s))).

(** *** [updateStats] *)

(** Up to the [await]: the guard, the flag, and the fetch that
    [getOnlinePlayersCount] starts at once. *)
Definition updateStats_begin (s : System) : System :=
  if isUpdating (this s) then s
  else
    let s := with_this (set_isUpdating true (this s)) s in
    with_awaiting (awaiting s ++ [apiEndpoint (this s)])
      (emit (FetchBegan (apiEndpoint (this s))) s).

(** From the [await] on. *)
Definition updateStats_resume (fetched : Settled (option Json)) : M unit :=
  try_finally
    (try_catch
       (count ← getOnlinePlayersCount fetched;
        match count with
        | Some c => displayStats c
        | None => displayStatsUnavailable
        end)
       (fun error =>
          update (emit (LogError "Ошибка при обновлении статистики:" error));;
          displayStatsUnavailable))
    (fun s => with_this (set_isUpdating false (this s)) s).

(** *** The other methods *)

Definition stopAutoUpdate (s : System) : System :=
  match updateInterval (this s) with
  | Some timer =>
      emit (LogInfo "Автоматическое обновление статистики остановлено")
        (with_this (set_updateInterval None (this s)) (emit (ClearInterval timer) s))
  | None => s
  end.

(** Timer handles are positive, hence truthy. *)
Definition startAutoUpdate (interval : N) (s : System) : System :=
  let s := stopAutoUpdate s in
  let s := emit (LogStart interval) s in
  let s := updateStats_begin s in
  let timer := S (timers s) in
  with_this (set_updateInterval (Some timer) (this s))
    (with_timers timer (emit (SetInterval timer interval) s)).

Definition setApiEndpoint (endpoint : string) (s : System) : System :=
  with_this (set_apiEndpoint endpoint (this s)) s.

(** *** The life of the module *)

(** What can happen next: a call of a method (a tick of the interval timer
    is a call of [updateStats]), or the fetch of the oldest suspended cycle
    settling in a world [w].  The effects of the system are those of the
    module; what [fetchWithErrorHandling] does on the way is in its own
    trace. *)
Inductive Label : Type :=
| CallUpdateStats
| CallStartAutoUpdate (interval : N)
| CallStopAutoUpdate
| CallSetApiEndpoint (endpoint : string)
| FetchSettles (w : World Json).

Inductive step : System -> Label -> System -> Prop :=
| step_update s :
    step s CallUpdateStats (updateStats_begin s)
| step_start s interval :
    step s (CallStartAutoUpdate interval) (startAutoUpdate interval s)
| step_stop s :
    step s CallStopAutoUpdate (stopAutoUpdate s)
| step_endpoint s endpoint :
    step s (CallSetApiEndpoint endpoint) (setApiEndpoint endpoint s)
| step_settle s url rest w :
    awaiting s = url :: rest ->
    step s (FetchSettles w)
      (snd (updateStats_resume (fst (fetchWithErrorHandling w url))
              (with_awaiting rest s))).

(** The states the module passes through from [s]. *)
Inductive reaches (s : System) : System -> Prop :=
| reaches_refl : reaches s s
| reaches_step s1 l s2 : reaches s s1 -> step s1 l s2 -> reaches s s2.

(** The page right after [new StatsModule(apiEndpoint)]. *)
Definition initial (apiEndpoint : string) (p : Page) : System :=
  {| this := constructor apiEndpoint; page := p; awaiting := []; timers := 0;
     effects := [] |}.

End StatsModule.

End Stats.


(** ** The vocabulary of the properties *)

(** *** The e-mail shape in words *)

(** A nonempty run of characters that are neither whitespace nor [@]. *)
Definition email_part (s : string) : Prop :=
  s <> "" /\ Forall (fun c => JS.is_whitespace c = false /\ c <> "@"%char) (JS.chars s).

(** Such a run, [@], such a run, a dot, such a run. *)
Definition email_shape (email : string) : Prop :=
  exists l d t,
    email = l +:+ "@" +:+ d +:+ "." +:+ t /\ email_part l /\ email_part d /\ email_part t.

(** *** The retrying fetch in words *)

Section FetchVocabulary.
Import Utils.
Context {Payload : Type}.

(** What attempt [k] comes to: the decoded payload, or the error thrown by
    the transport, by the status check or by the decoding. *)
Definition attempt_outcome (w : World Payload) (url : string) (k : nat) : Settled Payload :=
  fst (attempt_body w url k).

Definition attempt_fails (w : World Payload) (url : string) (k : nat) : Prop :=
  exists e, attempt_outcome w url k = RejectedWith e.

(** The terminal classification of a failure. *)
Inductive Classification : Type := Timeout | Offline | ConnectionError.

Definition classify (w : World Payload) (e : Error) : Classification :=
  if bool_decide (error_name e = "AbortError") then Timeout
  else if onLine w then ConnectionError
  else Offline.

(** The notification of a classification: an error toast with its text. *)
Definition notification (c : Classification) : string * string :=
  (match c with
   | Timeout => timeout_message
   | Offline => offline_message
   | ConnectionError => connection_message
   end, "error").

(** Attempts [first] to [k] with, after each but the last, a wait of
    [retryDelay] times its number. *)
Definition backoff_schedule (url : string) (retryDelay : N) (first k : nat) : list Event :=
  flat_map (fun i => [FetchCall url i; Delay (retryDelay * N.of_nat i)]) (seq first (k - first))
  ++ [FetchCall url k].

End FetchVocabulary.

(** *** Worlds for the examples *)

Section FetchExamples.
Import Utils.

Definition network_error : Error :=
  {| error_name := "TypeError"; error_message := "Failed to fetch" |}.
Definition abort_error : Error :=
  {| error_name := "AbortError"; error_message := "The user aborted a request." |}.

(** Two network failures, then a timeout, the browser being online. *)
Definition unreachable_world : World nat :=
  {| network := fun k => RejectedWith (if k <? 3 then network_error else abort_error);
     onLine := true |}.

(** A status 503, then a body that is no JSON, then the payload 7. *)
Definition flaky_world : World nat :=
  {| network := fun k =>
       Fulfilled
         (if k =? 1 then
            {| ok := false; status := 503; statusText := "Service Unavailable";
               json := Fulfilled 0 |}
          else if k =? 2 then
            {| ok := true; status := 200; statusText := "OK";
               json := RejectedWith {| error_name := "SyntaxError";
                                       error_message := "Unexpected token" |} |}
          else
            {| ok := true; status := 200; statusText := "OK"; json := Fulfilled 7 |});
     onLine := true |}.

End FetchExamples.

(** *** The validator in words *)

Section ValidatorVocabulary.
Import FormValidator.
Context `{Host}.

(** The value of a field: the first value it submits, if any. *)
Definition value (field : Field) : option string := head (entries field).

(** A value that is missing, empty, or made of whitespace only. *)
Definition blank (v : option string) : Prop :=
  match v with
  | None => True
  | Some s => Forall (fun c => JS.is_whitespace c = true) (JS.chars s)
  end.


(** A step that writes [errors[k]] or nothing. *)
Definition writes_at (k : string) (errors errors' : Errors) : Prop :=
  errors' = errors \/ exists v, errors' = set_property k v errors.


(** The fields the validator would evaluate were it to take, besides the
    required ones, every field with a length or pattern constraint. *)
Definition carries_constraint (field : Field) : bool :=
  hasAttribute field "minlength" || hasAttribute field "maxlength"
  || hasAttribute field "pattern".
Definition required_or_constrained (form : Form) : list Field :=
  List.filter (fun field =>
    match tagName field with
    | other => false
    | _ => hasAttribute field "required" || carries_constraint field
    end) form.

End ValidatorVocabulary.

(** *** Forms for the examples *)

Section ValidatorExamples.
Import FormValidator.

(** A host that accepts no pattern and finds no length below a string.  The
    forms below have no [pattern] attribute and no password field, so what
    the host answers plays no part in them. *)
Definition plain_host : Host :=
  {| RegExp := fun _ => None; length_lt_string := fun _ _ => false |}.

(** [<input type="email" name="email" required minlength="8">] holding
    [abcde]. *)
Definition short_email_field : Field :=
  {| tagName := input;
     attributes := list_to_map [("name", "email"); ("required", ""); ("minlength", "8")];
     type := "email";
     entries := ["abcde"] |}.

(** [<input type="text" name="username" required placeholder="Имя">], left
    empty. *)
Definition empty_username_field : Field :=
  {| tagName := input;
     attributes := list_to_map [("name", "username"); ("required", ""); ("placeholder", "Имя")];
     type := "text";
     entries := [""] |}.

(** [<input type="email" name="email" required>] holding [a@b.co]. *)
Definition good_email_field : Field :=
  {| tagName := input;
     attributes := list_to_map [("name", "email"); ("required", "")];
     type := "email";
     entries := ["a@b.co"] |}.

(** [<input type="text" name="nick" minlength="8">], not required, holding
    [abc]. *)
Definition optional_nick_field : Field :=
  {| tagName := input;
     attributes := list_to_map [("name", "nick"); ("minlength", "8")];
     type := "text";
     entries := ["abc"] |}.



End ValidatorExamples.

(** *** The page in words *)

Section PageVocabulary.
Import FormValidator.








(** A page for the examples: a form with two inputs, the second followed
    by its message element. *)
Definition example_input (n : string) : Node :=
  ElementNode {| localName := "input"; id := None; name_attribute := Some n;
                 classList := []; style_display := "" |} [].
Definition example_page : Document :=
  [ElementNode {| localName := "form"; id := None; name_attribute := None;
                  classList := []; style_display := "" |}
     [example_input "email";
      example_input "username";
      ElementNode {| localName := "span"; id := Some "username-error";
                     name_attribute := None; classList := ["error-message"];
                     style_display := "" |} []]].


End PageVocabulary.

(** *** The poller in words *)

Section StatsVocabulary.
Import Utils Stats.
Context `{Numbers}.

(** The [onlinePlayers] field of a payload, if it has one. *)
Definition payload_onlinePlayers (data : option Json) : option Json :=
  match data with
  | Some d => get_onlinePlayers d
  | None => None
  end.

(** At most one cycle is suspended, and the flag is set exactly while one
    is. *)
Definition one_cycle {Page : Type} (s : System (Page := Page)) : Prop :=
  length (awaiting s) <= 1 /\ (isUpdating (this s) = true <-> awaiting s <> []).

End StatsVocabulary.

(** Integers as the numbers of the examples. *)
Definition integer_numbers : Numbers :=
  {| number := Z; zero := 0%Z; number_is_falsy := fun n => (n =? 0)%Z |}.

Section StatsExamples.
Import Utils Stats.

(** A page that is the text of the counter, for the examples. *)
Definition text_render_stats (last : option Z) (count : Z) (p : string)
  : Settled unit * string := (Fulfilled tt, pretty count).
Definition text_render_unavailable (last : option Z) (p : string)
  : Settled unit * string :=
  (Fulfilled tt,
   match last with
   | Some n => pretty n +:+ " (устаревшие данные)"
   | None => "Недоступно"
   end).

(** A server that answers [{"onlinePlayers": 42}] at once. *)
Definition answering_world : World (Json (H := integer_numbers)) :=
  {| network := fun _ =>
       Fulfilled {| ok := true; status := 200; statusText := "OK";
                    json := Fulfilled (JObject [("onlinePlayers", JNumber (42%Z : @number integer_numbers))]) |};
     onLine := true |}.

(** The module after [new StatsModule()] on an empty page and a first call
    of [updateStats]. *)
Definition polling_system : System (H := integer_numbers) (Page := string) :=
  updateStats_begin (initial default_endpoint "").

End StatsExamples.

(** ** A list of classes: [classList.add] and [classList.remove] *)

Module ClassList.

Definition class_add (c : string) (l : list string) : list string :=
  if bool_decide (c ∈ l) then l else l ++ [c].
Definition class_remove (c : string) (l : list string) : list string :=
  List.filter (fun c' => negb (bool_decide (c' = c))) l.

End ClassList.

(** ** More of [src/js/stats.js]: the rendering methods *)

(** What rendering needs of a number besides [Numbers]: its decimal text
    ([toString], also inside a template), [isNaN], and [===], which holds
    between a number that is not [NaN] and itself. *)
Class NumberText `{Numbers} := {
  number_to_string : number -> string;
  number_isNaN : number -> bool;
  number_equal : number -> number -> bool;
  number_equal_refl : forall n, number_isNaN n = false -> number_equal n n = true }.

Module Rendering.

Import Utils Stats ClassList.

Section Rendering.
Context `{NumberText}.

(** The element [#player-stats]: its text and its classes. *)
Record Counter := { counter_text : string; counter_classes : list string }.

(** The page of the counter: the two elements, each present or not; the
    text [now.toLocaleTimeString('ru-RU', ...)] gives at the moment; the
    [setTimeout(..., 500)] calls made so far; and the values warned about
    on the console. *)
Record StatsPage := {
  player_stats : option Counter;
  stats_timestamp : option string;
  timeString : string;
  animation_timers : nat;
  warnings : list number }.

Definition with_counter (el : Counter) (p : StatsPage) : StatsPage :=
  {| player_stats := Some el; stats_timestamp := stats_timestamp p;
     timeString := timeString p; animation_timers := animation_timers p;
     warnings := warnings p |}.

(** [updateTimestamp()] *)
Definition updateTimestamp (p : StatsPage) : StatsPage :=
  match stats_timestamp p with
  | Some _ =>
      {| player_stats := player_stats p;
         stats_timestamp := Some ("Обновлено: " +:+ timeString p);
         timeString := timeString p; animation_timers := animation_timers p;
         warnings := warnings p |}
  | None => p
  end.

(** [displayStatsUnavailable()], [last] being [this.lastKnownCount]. *)
Definition displayStatsUnavailable_on (last : option number) (p : StatsPage) : StatsPage :=
  match player_stats p with
  | None => p
  | Some el =>
      let el :=
        match last with
        | Some n =>
            {| counter_text := number_to_string n +:+ " (устаревшие данные)";
               counter_classes := class_add "unavailable" (counter_classes el) |}
        | None =>
            {| counter_text := "Недоступно";
               counter_classes := class_add "error" (counter_classes el) |}
        end in
      with_counter
        {| counter_text := counter_text el;
           counter_classes := class_remove "active" (counter_classes el) |} p
  end.

(** [console.warn('Некорректное значение статистики:', count)] *)
Definition warn (count : number) (p : StatsPage) : StatsPage :=
  {| player_stats := player_stats p; stats_timestamp := stats_timestamp p;
     timeString := timeString p; animation_timers := animation_timers p;
     warnings := warnings p ++ [count] |}.

(** [setTimeout(() => statsElement.classList.remove('updated'), 500)] *)
Definition set_animation_timer (p : StatsPage) : StatsPage :=
  {| player_stats := player_stats p; stats_timestamp := stats_timestamp p;
     timeString := timeString p; animation_timers := S (animation_timers p);
     warnings := warnings p |}.

(** [displayStats(count)] for a [count] that is a number. *)
Definition displayStats_on (last : option number) (count : number) (p : StatsPage)
  : StatsPage :=
  match player_stats p with
  | None => p
  | Some el =>
      if number_isNaN count then displayStatsUnavailable_on last (warn count p)
      else
        let classes :=
          class_add "active"
            (class_remove "unavailable" (class_remove "error" (counter_classes el))) in
        let changed :=
          match last with
          | Some l => negb (number_equal l count)
          | None => false
          end in
        let p :=
          if changed
          then set_animation_timer
                 (with_counter {| counter_text := number_to_string count;
                                  counter_classes := class_add "updated" classes |} p)
          else with_counter {| counter_text := number_to_string count;
                               counter_classes := classes |} p in
        updateTimestamp p
  end.

(** The two methods as the module calls them: neither throws. *)
Definition render_stats (last : option number) (count : number) (p : StatsPage)
  : Settled unit * StatsPage := (Fulfilled tt, displayStats_on last count p).
Definition render_unavailable (last : option number) (p : StatsPage)
  : Settled unit * StatsPage := (Fulfilled tt, displayStatsUnavailable_on last p).

(** The count a cycle renders: what [getOnlinePlayersCount] returns. *)
Definition cycle_count (fetched : Settled (option Json)) (last : option number)
  : option number :=
  match fetched with
  | Fulfilled data =>
      Some match numeric_onlinePlayers data with
           | Some n => n
           | None => default zero last
           end
  | RejectedWith _ => last
  end.

(** The counter shows [c] as a live count. *)
Definition shows_live (p : StatsPage) (c : number) : Prop :=
  exists el,
    player_stats p = Some el
    /\ counter_text el = number_to_string c
    /\ ("active" ∈ counter_classes el)
    /\ ("error" ∉ counter_classes el) /\ ("unavailable" ∉ counter_classes el).

(** The counter shows that there is no count. *)
Definition shows_unavailable (p : StatsPage) : Prop :=
  exists el,
    player_stats p = Some el
    /\ counter_text el = "Недоступно"
    /\ ("error" ∈ counter_classes el) /\ ("active" ∉ counter_classes el).

(** The classes of the counter never show it live and failed at once. *)
Definition classes_consistent (p : StatsPage) : Prop :=
  forall el, player_stats p = Some el ->
    ("active" ∈ counter_classes el) ->
    ("error" ∉ counter_classes el) /\ ("unavailable" ∉ counter_classes el).

(** The change animation has never started. *)
Definition never_animated (p : StatsPage) : Prop :=
  animation_timers p = 0
  /\ forall el, player_stats p = Some el -> ("updated" ∉ counter_classes el).

(** The interval timers that were set and not cleared since. *)
Fixpoint live_timers (effects : list Effect) (live : list nat) : list nat :=
  match effects with
  | [] => live
  | SetInterval timer _ :: rest => live_timers rest (live ++ [timer])
  | ClearInterval timer :: rest =>
      live_timers rest (List.filter (fun t => negb (t =? timer)) live)
  | _ :: rest => live_timers rest live
  end.

End Rendering.

End Rendering.

(** Integers as the numbers of the examples, with their text. *)
Definition integer_text : NumberText (H := integer_numbers) :=
  {| number_to_string := fun n : @number integer_numbers => pretty (n : Z);
     number_isNaN := fun _ => false;
     number_equal := fun a b : @number integer_numbers => (a =? b)%Z;
     number_equal_refl := fun n _ => Z.eqb_refl n |}.

Section RenderingExamples.
Import Utils Stats Rendering.

(** The page of the example: the counter and the timestamp, both empty, at
    a quarter past noon. *)
Definition example_stats_page : StatsPage (H := integer_numbers) :=
  {| player_stats := Some {| counter_text := ""; counter_classes := [] |};
     stats_timestamp := Some "";
     timeString := "12:15";
     animation_timers := 0;
     warnings := [] |}.

(** The module started twice, as [stats.js] and [app.js] both do when the
    home page loads. *)
Definition started_twice : System (H := integer_numbers) (Page := StatsPage (H := integer_numbers)) :=
  startAutoUpdate 60000 (startAutoUpdate 60000 (initial default_endpoint example_stats_page)).

End RenderingExamples.


(** ** More of [src/js/utils.js]: [validateField] *)

Module LiveValidation.

Import FormValidator.

(** Where an element sits in the page: the index of the child to take at
    each level, from the top. *)
Definition Position := list nat.

Definition on_element (f : Element -> Element) (n : Node) : Node :=
  match n with
  | ElementNode e childNodes => ElementNode (f e) childNodes
  | TextNode _ => n
  end.
Definition on_children (f : list Node -> list Node) (n : Node) : Node :=
  match n with
  | ElementNode e childNodes => ElementNode e (f childNodes)
  | TextNode _ => n
  end.

(** The node at a position, and a change of the element there. *)
Fixpoint node_at (position : Position) (nodes : list Node) : option Node :=
  match position with
  | [] => None
  | i :: below =>
      match nodes !! i with
      | Some n =>
          match below with
          | [] => Some n
          | _ => match n with
                 | ElementNode _ childNodes => node_at below childNodes
                 | TextNode _ => None
                 end
          end
      | None => None
      end
  end.
Fixpoint update_at (position : Position) (f : Element -> Element) (nodes : list Node)
    : list Node :=
  match position with
  | [] => nodes
  | i :: below =>
      match below with
      | [] => alter (on_element f) i nodes
      | _ => alter (on_children (update_at below f)) i nodes
      end
  end.

(** The elements met on the way to a position, the one at the position
    included. *)
Fixpoint along (position : Position) (nodes : list Node) : list Element :=
  match position with
  | [] => []
  | i :: below =>
      match nodes !! i with
      | Some (ElementNode e childNodes) => e :: along below childNodes
      | _ => []
      end
  end.

(** [document.getElementById]: the first element in tree order with the
    id. *)
Definition first_of (p : Element -> bool) (l : list (Element * list Node))
    : option (Element * list Node) :=
  head (List.filter (fun ec => p (fst ec)) l).
Definition getElementById (i : string) (doc : Document) : option (Element * list Node) :=
  first_of (with_id i) (elements doc).

(** The first element that satisfies [p] has become [h] of itself, with
    the children [shown]. *)
Definition replaced_by (p : Element -> bool) (h : Element -> Element) (shown : list Node)
    (before after : list Node) : Prop :=
  exists e childNodes,
    first_of p (elements before) = Some (e, childNodes)
    /\ first_of p (elements after) = Some (h e, shown).

(** The field handed to [validateField]: what the method reads of the
    control (attributes and type), its current [value], and where its
    element is in the page. *)
Record LiveField := {
  control : Field;
  field_value : string;
  position : Position }.

Definition live_required_message : string := "Это поле обязательно для заполнения".

(** The [errorMessage] the chain of [if ... else if] leaves. *)
Definition live_message (field : LiveField) : string :=
  let fieldValue := field_value field in
  if hasAttribute (control field) "required" && is_blank (Some fieldValue)
  then live_required_message
  else if bool_decide (type (control field) = "email")
          && negb (bool_decide (fieldValue = ""))
          && negb (validateEmail fieldValue)
  then email_message
  else if hasAttribute (control field) "minlength" then
    let minLength := JS.parseInt (default "" (getAttribute (control field) "minlength")) in
    if (0 <? String.length fieldValue) && JS.length_lt (String.length fieldValue) minLength
    then minlength_message minLength
    else ""
  else "".

Definition error_id (field : LiveField) : string := name (control field) +:+ "-error".

(** [errorElement.textContent = text; errorElement.style.display = d] *)
Definition show_in_error_element (i text d : string) (doc : Document) : Document :=
  default doc
    (replace_first (with_id i)
       (fun e _ => [ElementNode (set_display d e) (text_children text)]) doc).

Definition validateField (field : LiveField) (doc : Document) : Document :=
  match getElementById (error_id field) doc with
  | None => doc
  | Some _ =>
      let errorMessage := live_message field in
      if negb (bool_decide (errorMessage = "")) then
        let doc := update_at (position field) (classList_add "error") doc in
        show_in_error_element (error_id field) errorMessage "block" doc
      else
        let doc := update_at (position field) (classList_remove "error") doc in
        show_in_error_element (error_id field) "" "none" doc
  end.

End LiveValidation.

(** ** More of [src/js/utils.js]: the toasts on the page *)

Module Toasts.

(** A toast element; [toast_node] tells the elements [createElement] made
    apart. *)
Record ToastElement := {
  toast_node : nat;
  className : string;
  toast_text : string }.

(** The toasts among the children of [document.body], in order, the
    number of elements created so far, and the pending timers of
    [setTimeout] with the node each one removes and its delay. *)
Record Body := {
  toasts : list ToastElement;
  created : nat;
  timeouts : list (nat * N) }.

Definition showToast (message type : string) (b : Body) : Body :=
  let toast := {| toast_node := created b; className := "toast " +:+ type;
                  toast_text := message |} in
  {| toasts := toasts b ++ [toast];
     created := S (created b);
     timeouts := timeouts b ++ [(toast_node toast, 3000%N)] |}.

Definition showErrorToast (message : string) : Body -> Body := showToast message "error".
Definition showSuccessToast (message : string) : Body -> Body := showToast message "success".
Definition showInfoToast (message : string) : Body -> Body := showToast message "info".

(** [toast.remove()] *)
Definition remove (node : nat) (l : list ToastElement) : list ToastElement :=
  List.filter (fun t => negb (toast_node t =? node)) l.

(** The timer of [node] fires: its callback runs and the timer is gone. *)
Definition timeout_fires (node : nat) (b : Body) : Body :=
  {| toasts := remove node (toasts b);
     created := created b;
     timeouts := List.filter (fun t => negb (fst t =? node)) (timeouts b) |}.

(** The page runs: a toast is shown, or a pending timer fires. *)
Inductive step : Body -> Body -> Prop :=
| step_show message type b : step b (showToast message type b)
| step_fire node ms b : (node, ms) ∈ timeouts b -> step b (timeout_fires node b).

Inductive runs (b : Body) : Body -> Prop :=
| runs_refl : runs b b
| runs_step b1 b2 : runs b b1 -> step b1 b2 -> runs b b2.

Definition no_toasts : Body := {| toasts := []; created := 0; timeouts := [] |}.

(** The trace of [Utils] replayed on the page. *)
Definition replay (tr : list Utils.Event) (b : Body) : Body :=
  fold_left (fun b ev =>
    match ev with
    | Utils.Toast message type => showToast message type b
    | _ => b
    end) tr b.

End Toasts.

(** ** [src/js/download.js] *)

(** The calls of one [DownloadModule], one after the other (a call has
    ended before the next begins).  Values read from Firestore are JSON
    values; what Firestore, the network, the window and the storage answer
    is given by a [World]. *)

Module Download.

Import Utils Stats.

Section DownloadModule.
Context `{Numbers}.

(** The fields of the document [clientVersions/latest]; a field that is
    missing reads as [undefined], here [None]. *)
Definition Data := list (string * Json).
Definition field (data : Data) (k : string) : option Json :=
  snd <$> List.find (fun m => bool_decide (fst m = k)) data.

(** [v || text] *)
Definition or_text (v : option Json) (text : string) : Json :=
  match v with
  | Some x => if truthy v then x else JString text
  | None => JString text
  end.

Record ClientInfo := {
  version : Json;
  size : Json;
  downloadUrl : Json;
  isAvailable : bool;
  releaseDate : option Json }.

Definition info_of_data (data : Data) : ClientInfo :=
  {| version := or_text (field data "version") "Неизвестно";
     size := or_text (field data "fileSize") "Неизвестно";
     downloadUrl := or_text (field data "downloadUrl") "#";
     isAvailable := match field data "isAvailable" with
                    | Some (JBool false) => false
                    | _ => true
                    end;
     releaseDate := field data "releaseDate" |}.

Definition fallback_info : ClientInfo :=
  {| version := JString "1.8.9-v2.0"; size := JString "45.2 MB";
     downloadUrl := JString "#"; isAvailable := false; releaseDate := None |}.

(** What the outside answers: the successive reads of the document
    (rejected, no such document, or its data), the [HEAD] request,
    [window.open] (which throws when the URL does not parse),
    [JSON.parse] and [JSON.stringify], the error [localStorage.setItem]
    throws if any, the [TypeError] of a call of [push] on a value that has
    no such method, and the time as [toISOString] prints it. *)
Record World := {
  getDoc : nat -> Settled (option Data);
  fetch_head : Json -> Settled unit;
  window_open : Json -> Settled unit;
  JSON_parse : string -> Settled Json;
  JSON_stringify : Json -> string;
  setItem_error : string -> string -> option Error;
  push_error : Json -> Error;
  now : string }.

Inductive Effect : Type :=
| GetDoc (collection document : string)
| ConsoleLog (text : string) (v : Json)
| ConsoleWarn (text : string) (e : option Error)
| ConsoleError (text : string) (e : Error)
| Shown (ev : Event)
| HeadFetch (url : Json)
| WindowOpen (url : Json) (target : string).

(** The module, the number of reads of the document so far, the storage
    and the effects so far. *)
Record System := {
  clientInfo : option ClientInfo;
  reads : nat;
  localStorage : gmap string string;
  effects : list Effect }.

Definition constructor : System :=
  {| clientInfo := None; reads := 0; localStorage := ∅; effects := [] |}.

Definition set_clientInfo (i : option ClientInfo) (s : System) : System :=
  {| clientInfo := i; reads := reads s; localStorage := localStorage s;
     effects := effects s |}.
Definition emit (e : Effect) (s : System) : System :=
  {| clientInfo := clientInfo s; reads := reads s; localStorage := localStorage s;
     effects := effects s ++ [e] |}.
Definition emit_all (es : list Effect) (s : System) : System :=
  {| clientInfo := clientInfo s; reads := reads s; localStorage := localStorage s;
     effects := effects s ++ es |}.

Definition M (A : Type) : Type := System -> Settled A * System.

Definition ret {A} (a : A) : M A := fun s => (Fulfilled a, s).
Definition bind {A B} (m : M A) (k : A -> M B) : M B :=
  fun s => match m s with
           | (Fulfilled a, s') => k a s'
           | (RejectedWith e, s') => (RejectedWith e, s')
           end.
Definition await {A} (p : Settled A) : M A := fun s => (p, s).
Definition throw {A} (e : Error) : M A := fun s => (RejectedWith e, s).
Definition try_catch {A} (body : M A) (handler : Error -> M A) : M A :=
  fun s => match body s with
           | (Fulfilled a, s') => (Fulfilled a, s')
           | (RejectedWith e, s') => handler e s'
           end.
Definition update (f : System -> System) : M unit := fun s => (Fulfilled tt, f s).
Definition read {A} (f : System -> A) : M A := fun s => (Fulfilled (f s), s).

#[local] Instance M_ret : MRet M := @ret.
#[local] Instance M_bind : MBind M := fun A B k m => bind m k.

(** The toasts of [utils.js]. *)
Definition showInfoToast (message : string) : M unit :=
  update (emit_all (Shown <$> showToast message "info")).
Definition showErrorToast (message : string) : M unit :=
  update (emit_all (Shown <$> Utils.showErrorToast message)).

Variable w : World.

(** [await getDoc(doc(this.db, 'clientVersions', 'latest'))] *)
Definition read_latest : M (option Data) :=
  fun s =>
    (getDoc w (reads s),
     emit (GetDoc "clientVersions" "latest")
       {| clientInfo := clientInfo s; reads := S (reads s);
          localStorage := localStorage s; effects := effects s |}).

Definition getClientInfo : M ClientInfo :=
  try_catch
    (cached ← read clientInfo;
     match cached with
     | Some info => mret info
     | None =>
         docSnap ← read_latest;
         match docSnap with
         | Some data =>
             let info := info_of_data data in
             update (set_clientInfo (Some info));;
             mret info
         | None =>
             update (emit (ConsoleWarn
               "Документ clientVersions/latest не найден, используем fallback данные" None));;
             update (set_clientInfo (Some fallback_info));;
             mret fallback_info
         end
     end)
    (fun error =>
       update (emit (ConsoleError "Ошибка при получении информации о клиенте:" error));;
       mret fallback_info).

(** [!info.downloadUrl || info.downloadUrl === '#'] *)
Definition no_url (info : ClientInfo) : bool :=
  negb (truthy (Some (downloadUrl info)))
  || match downloadUrl info with JString "#" => true | _ => false end.

Definition checkAvailability : M bool :=
  try_catch
    (info ← getClientInfo;
     if no_url info then mret false
     else if negb (isAvailable info) then mret false
     else
       try_catch
         (update (emit (HeadFetch (downloadUrl info)));;
          await (fetch_head w (downloadUrl info));;
          mret true)
         (fun fetchError =>
            update (emit (ConsoleWarn "Не удалось проверить доступность файла:"
                            (Some fetchError)));;
            mret true))
    (fun error =>
       update (emit (ConsoleError "Ошибка при проверке доступности:" error));;
       mret false).

(** [localStorage.setItem(key, value)] *)
Definition setItem (key value : string) : M unit :=
  fun s =>
    match setItem_error w key value with
    | Some e => (RejectedWith e, s)
    | None =>
        (Fulfilled tt,
         {| clientInfo := clientInfo s; reads := reads s;
            localStorage := <[key := value]> (localStorage s); effects := effects s |})
    end.

Definition logDownload (version : Json) : M unit :=
  try_catch
    (update (emit (ConsoleLog "Загрузка клиента версии:" version));;
     stored ← read (fun s => localStorage s !! "downloads");
     let text := match stored with
                 | Some t => if bool_decide (t = "") then "[]" else t
                 | None => "[]"
                 end in
     downloads ← await (JSON_parse w text);
     match downloads with
     | JArray items =>
         let entry := JObject [("version", version); ("timestamp", JString (now w))] in
         setItem "downloads" (JSON_stringify w (JArray (items ++ [entry])))
     | _ => throw (push_error w downloads)
     end)
    (fun error => update (emit (ConsoleError "Ошибка при логировании загрузки:" error))).

(** [window.open(url, '_blank')] *)
Definition open_window (url : Json) : M unit :=
  fun s =>
    match window_open w url with
    | Fulfilled _ => (Fulfilled tt, emit (WindowOpen url "_blank") s)
    | RejectedWith e => (RejectedWith e, s)
    end.

Definition unavailable_message : string :=
  "Файл клиента временно недоступен. Попробуйте позже".
Definition failed_message : string := "Не удалось начать загрузку. Попробуйте позже".

Definition downloadClient : M unit :=
  try_catch
    (info ← getClientInfo;
     if negb (isAvailable info) then showInfoToast unavailable_message
     else
       available ← checkAvailability;
       if negb available then showInfoToast unavailable_message
       else
         update (emit (ConsoleLog "Начало загрузки клиента:" (downloadUrl info)));;
         open_window (downloadUrl info);;
         logDownload (version info))
    (fun error =>
       update (emit (ConsoleError "Ошибка при загрузке клиента:" error));;
       showErrorToast failed_message).

End DownloadModule.

(** Readings of the effects. *)
Definition opened `{Numbers} (effects : list Effect) : list Json :=
  omap (fun e => match e with WindowOpen url _ => Some url | _ => None end) effects.
Definition shown `{Numbers} (effects : list Effect) : list (string * string) :=
  omap (fun e => match e with Shown (Toast m t) => Some (m, t) | _ => None end) effects.
Definition document_reads `{Numbers} (effects : list Effect) : nat :=
  length (List.filter (fun e => match e with GetDoc _ _ => true | _ => false end) effects).

(** Effects that open no window and show no toast. *)
Definition quiet `{Numbers} (effects : list Effect) : Prop :=
  opened effects = [] /\ shown effects = [].

(** [s'] is [s] after the effects [new], the storage changed at most under
    [downloads]. *)
Definition follows `{Numbers} (s s' : System) (new : list Effect) : Prop :=
  effects s' = effects s ++ new
  /\ forall k, k <> "downloads" -> localStorage s' !! k = localStorage s !! k.

End Download.

Section DownloadExamples.
Import Utils Stats Download.

(** A world whose document offers a download, whose network and window
    answer, and whose storage is empty JSON. *)
Definition offering_world : World (H := integer_numbers) :=
  {| getDoc := fun _ =>
       Fulfilled (Some [("version", JString "2.0");
                        ("downloadUrl", JString "https://example.org/client.jar")]);
     fetch_head := fun _ => Fulfilled tt;
     window_open := fun _ => Fulfilled tt;
     JSON_parse := fun _ => Fulfilled (JArray []);
     JSON_stringify := fun _ => "[{}]";
     setItem_error := fun _ _ => None;
     push_error := fun _ => {| error_name := "TypeError"; error_message := "push" |};
     now := "2024-01-01T00:00:00.000Z" |}.

(** The same world with the [HEAD] request failing, and with Firestore out
    of reach. *)
Definition head_failing_world : World (H := integer_numbers) :=
  {| getDoc := getDoc offering_world;
     fetch_head := fun _ => RejectedWith network_error;
     window_open := window_open offering_world;
     JSON_parse := JSON_parse offering_world;
     JSON_stringify := JSON_stringify offering_world;
     setItem_error := setItem_error offering_world;
     push_error := push_error offering_world;
     now := now offering_world |}.
Definition offline_world : World (H := integer_numbers) :=
  {| getDoc := fun _ => RejectedWith network_error;
     fetch_head := fun _ => RejectedWith network_error;
     window_open := window_open offering_world;
     JSON_parse := JSON_parse offering_world;
     JSON_stringify := JSON_stringify offering_world;
     setItem_error := setItem_error offering_world;
     push_error := push_error offering_world;
     now := now offering_world |}.

End DownloadExamples.

(** ** [src/js/auth.js]: the session in [localStorage] *)

Module Auth.

Import Utils.

(** [parseInt(s, 10)]: as [JS.parseInt] without the hexadecimal prefix. *)
Definition parseInt10 (s : string) : option Z :=
  let l := JS.drop_whitespace (JS.chars s) in
  let '(negative, l) :=
    match l with
    | "-"%char :: l' => (true, l')
    | "+"%char :: l' => (false, l')
    | _ => (false, l)
    end in
  match JS.digits_prefix 10 l None with
  | Some n => Some (if negative then - Z.of_N n else Z.of_N n)%Z
  | None => None
  end.

(** A Firebase user, as far as the module reads it: the email ([null] is
    [None]) and what [getIdToken()] settles to. *)
Record User := {
  email : option string;
  getIdToken : Settled string }.

(** The module and what it writes: [this.currentUser], the users whose
    token is being fetched for [saveSession], the storage, the address the
    window was sent to, and the console. *)
Record System := {
  currentUser : option User;
  saving : list User;
  localStorage : gmap string string;
  location : option string;
  console : list (string * Error) }.

Definition constructor (storage : gmap string string) : System :=
  {| currentUser := None; saving := []; localStorage := storage; location := None;
     console := [] |}.

Definition with_storage (f : gmap string string -> gmap string string) (s : System)
    : System :=
  {| currentUser := currentUser s; saving := saving s; localStorage := f (localStorage s);
     location := location s; console := console s |}.
Definition console_error (label : string) (e : Error) (s : System) : System :=
  {| currentUser := currentUser s; saving := saving s; localStorage := localStorage s;
     location := location s; console := console s ++ [(label, e)] |}.

(** [localStorage.getItem(k)] as a condition: [null] and the empty string
    are falsy. *)
Definition item (s : System) (k : string) : option string :=
  match localStorage s !! k with
  | Some v => if bool_decide (v = "") then None else Some v
  | None => None
  end.

Definition clear_session (s : System) : System :=
  with_storage (fun st => delete "sessionExpiry" (delete "userEmail" (delete "authToken" st))) s.

(** [isSessionValid()] at the time [now] of [Date.now()]; a comparison
    with [NaN] is false. *)
Definition isSessionValid (now : N) (s : System) : bool * System :=
  match item s "authToken", item s "sessionExpiry" with
  | Some token, Some expiryTime =>
      let expiry := parseInt10 expiryTime in
      if match expiry with Some e => (e <=? Z.of_N now)%Z | None => false end
      then (false, clear_session s)
      else (true, s)
  | _, _ => (false, s)
  end.

(** [saveSession(user)]: the token is asked for, the rest happens when it
    arrives. *)
Definition saveSession (user : option User) (s : System) : System :=
  match user with
  | None => s
  | Some u =>
      {| currentUser := currentUser s; saving := saving s ++ [u];
         localStorage := localStorage s; location := location s; console := console s |}
  end.

(** The storage refuses a write with the error [setItem_error] gives. *)
Section Storage.
Variable setItem_error : string -> string -> option Error.

Definition setItem (k v : string) (s : System) : Settled unit * System :=
  match setItem_error k v with
  | Some e => (RejectedWith e, s)
  | None => (Fulfilled tt, with_storage (insert k v) s)
  end.

(** The promise of [getIdToken()] of the oldest pending [saveSession]
    settles at the time [now]: the callback of [then], with [catch] behind
    both. *)
Definition token_settles (now : N) (s : System) : System :=
  match saving s with
  | [] => s
  | u :: rest =>
      let s := {| currentUser := currentUser s; saving := rest;
                  localStorage := localStorage s; location := location s;
                  console := console s |} in
      let failed e s := console_error "Ошибка сохранения токена:" e s in
      match getIdToken u with
      | RejectedWith e => failed e s
      | Fulfilled token =>
          match setItem "authToken" token s with
          | (RejectedWith e, s) => failed e s
          | (Fulfilled _, s) =>
              match setItem "userEmail" (default "null" (email u)) s with
              | (RejectedWith e, s) => failed e s
              | (Fulfilled _, s) =>
                  let expiryTime := (now + 60 * 60 * 1000)%N in
                  match setItem "sessionExpiry" (pretty expiryTime) s with
                  | (RejectedWith e, s) => failed e s
                  | (Fulfilled _, s) => s
                  end
              end
          end
      end
  end.

End Storage.

(** [login] from its [await] on, [signedIn] being what
    [signInWithEmailAndPassword] settled to. *)
Definition login (signedIn : Settled User) (s : System) : Settled User * System :=
  match signedIn with
  | Fulfilled user =>
      let s := {| currentUser := Some user; saving := saving s;
                  localStorage := localStorage s; location := location s;
                  console := console s |} in
      (Fulfilled user, saveSession (Some user) s)
  | RejectedWith error => (RejectedWith error, console_error "Ошибка входа:" error s)
  end.

(** [logout] from its [await] on. *)
Definition logout (signedOut : Settled unit) (s : System) : Settled unit * System :=
  match signedOut with
  | Fulfilled _ =>
      let s := clear_session
                 {| currentUser := None; saving := saving s;
                    localStorage := localStorage s; location := location s;
                    console := console s |} in
      (Fulfilled tt,
       {| currentUser := currentUser s; saving := saving s; localStorage := localStorage s;
          location := Some "./index.html"; console := console s |})
  | RejectedWith error => (RejectedWith error, console_error "Ошибка выхода:" error s)
  end.

End Auth.

(** ** The registration module *)

Module Register.

Import Utils Regex.

(** [[a-zA-Z0-9_]] *)
Definition word_char (c : ascii) : bool :=
  let n := N_of_ascii c in
  ((97 <=? n) && (n <=? 122) || (65 <=? n) && (n <=? 90) || (48 <=? n) && (n <=? 57)
   || (n =? 95))%N.

(** [r{n}] and [r{0,n}] *)
Fixpoint exactly (n : nat) (r : regex) : regex :=
  match n with
  | 0 => Eps
  | S n' => Cat r (exactly n' r)
  end.
Fixpoint at_most (n : nat) (r : regex) : regex :=
  match n with
  | 0 => Eps
  | S n' => Alt Eps (Cat r (at_most n' r))
  end.

(** [/^[a-zA-Z0-9_]{3,20}$/] *)
Definition usernameRegex : regex :=
  Cat (exactly 3 (Class word_char)) (at_most 17 (Class word_char)).

(** An argument of the methods: a string, or [None] for a value of another
    type.  [!x || typeof x !== 'string'] holds for [None] and for the
    empty string. *)
Definition text_of (x : option string) : option string :=
  match x with
  | Some s => if bool_decide (s = "") then None else Some s
  | None => None
  end.

Definition validateEmail (email : option string) : bool :=
  match text_of email with
  | Some s => matches FormValidator.emailRegex (JS.chars s)
  | None => false
  end.

Record PasswordValidation := { valid : bool; errors : list string }.

Definition validatePassword (password : option string) : PasswordValidation :=
  match text_of password with
  | None => {| valid := false; errors := ["Пароль обязателен"] |}
  | Some s =>
      let errors :=
        if String.length s <? 8 then ["Пароль должен содержать минимум 8 символов"] else [] in
      {| valid := length errors =? 0; errors := errors |}
  end.

Definition validateUsername (username : option string) : bool :=
  match text_of username with
  | Some s => matches usernameRegex (JS.chars s)
  | None => false
  end.

(** [errors.join(', ')] *)
Fixpoint join (sep : string) (l : list string) : string :=
  match l with
  | [] => ""
  | [x] => x
  | x :: rest => x +:+ sep +:+ join sep rest
  end.

(** An error as [handleRegisterError] reads it: [new Error(message)] has
    no [code], an error of Firebase has one. *)
Record RegisterError := { code : option string; message : string }.

Definition new_Error (message : string) : RegisterError :=
  {| code := None; message := message |}.

Definition email_format_message : string := "Некорректный формат email адреса".
Definition username_format_message : string :=
  "Имя пользователя: 3-20 символов, только буквы, цифры и _".
Definition username_taken_message : string := "Это имя пользователя уже занято".

(** A promise of Firebase once settled. *)
Inductive Result (A : Type) : Type :=
| Resolved (a : A)
| Rejected (e : RegisterError).
Arguments Resolved {A} a.
Arguments Rejected {A} e.

(** What Firebase answers: the query for the users of that name (whether
    the snapshot is empty), the creation of the account (its [uid]) and
    the write of the profile. *)
Record World := {
  getDocs : string -> Result bool;
  createUserWithEmailAndPassword : string -> string -> Result string;
  setDoc : string -> Result unit }.

(** The requests sent and the lines on the console. *)
Inductive Effect : Type :=
| QueryUsers (username : string)
| CreateUser (email password : string)
| SetProfile (uid username email : string)
| ConsoleLog (text uid : string)
| ConsoleError (text : string) (e : RegisterError).

Section RegisterModule.
Variable w : World.

Definition checkUsernameAvailability (username : string) : bool * list Effect :=
  match getDocs w username with
  | Resolved empty => (empty, [QueryUsers username])
  | Rejected error =>
      (true, [QueryUsers username;
              ConsoleError "Ошибка при проверке доступности имени:" error])
  end.

(** [register]; the value it resolves to is the credential, here the
    [uid] of its user. *)
Definition register (username email password : option string)
    : Result string * list Effect :=
  if negb (validateEmail email) then (Rejected (new_Error email_format_message), [])
  else
    let passwordValidation := validatePassword password in
    if negb (valid passwordValidation)
    then (Rejected (new_Error (join ", " (errors passwordValidation))), [])
    else if negb (validateUsername username)
    then (Rejected (new_Error username_format_message), [])
    else
      let username := default "" username in
      let email := default "" email in
      let password := default "" password in
      let '(isAvailable, checked) := checkUsernameAvailability username in
      if negb isAvailable then (Rejected (new_Error username_taken_message), checked)
      else
        match createUserWithEmailAndPassword w email password with
        | Rejected error =>
            (Rejected error,
             checked ++ [CreateUser email password;
                         ConsoleError "Ошибка при регистрации:" error])
        | Resolved uid =>
            match setDoc w uid with
            | Rejected error =>
                (Rejected error,
                 checked ++ [CreateUser email password; SetProfile uid username email;
                             ConsoleError "Ошибка при регистрации:" error])
            | Resolved _ =>
                (Resolved uid,
                 checked ++ [CreateUser email password; SetProfile uid username email;
                             ConsoleLog "Успешная регистрация:" uid])
            end
        end.

End RegisterModule.

(** [s.includes(needle)].  The Cyrillic constants are held as the bytes of
    their UTF-8 form; one well-formed text occurs inside another as bytes
    exactly when it does as code units. *)
Definition includes (needle s : string) : bool :=
  match String.index 0 needle s with Some _ => true | None => false end.

(** [errorMessages[error.code]], for codes that are not the name of a
    member of [Object.prototype]. *)
Definition errorMessages : list (string * string) :=
  [("auth/email-already-in-use", "Этот email уже зарегистрирован");
   ("auth/invalid-email", "Некорректный формат email адреса");
   ("auth/weak-password", "Пароль слишком слабый (минимум 8 символов)");
   ("auth/operation-not-allowed", "Регистрация временно недоступна")].

Definition shown_message (error : RegisterError) : string :=
  match text_of (code error) with
  | Some c =>
      match text_of (snd <$> List.find (fun m => bool_decide (fst m = c)) errorMessages) with
      | Some m => m
      | None => message error
      end
  | None => message error
  end.

(** The id of the element that receives the message. *)
Definition error_slot (error : RegisterError) : string :=
  let message := shown_message error in
  let code_includes part :=
    match text_of (code error) with Some c => includes part c | None => false end in
  if code_includes "email" then "email-error"
  else if code_includes "password" then "password-error"
  else if includes "имя пользователя" message || includes "username" message
  then "username-error"
  else "email-error".

(** [handleRegisterError]; [None] when the element is not on the page and
    the assignment to its [textContent] throws. *)
Definition handleRegisterError (error : RegisterError) (doc : FormValidator.Document)
    : option (FormValidator.Document * list Effect) :=
  match LiveValidation.getElementById (error_slot error) doc with
  | None => None
  | Some _ =>
      Some (LiveValidation.show_in_error_element (error_slot error) (shown_message error)
              "block" doc,
            [ConsoleError "Ошибка регистрации:" error])
  end.

End Register.

Section AuthExamples.
Import Utils Auth.

(** A user whose token arrives, and a storage that takes every write. *)
Definition example_user : User :=
  {| email := Some "steve@example.org"; getIdToken := Fulfilled "eyJhbGciOi" |}.
Definition roomy : string -> string -> option Error := fun _ _ => None.

End AuthExamples.

Section RegisterExamples.
Import Register.

(** Firebase with no user of any name, creating the account [uid-1]. *)
Definition welcoming_world : World :=
  {| getDocs := fun _ => Resolved true;
     createUserWithEmailAndPassword := fun _ _ => Resolved "uid-1";
     setDoc := fun _ => Resolved tt |}.

(** The same with the write of the profile refused. *)
Definition profile_failing_world : World :=
  {| getDocs := fun _ => Resolved true;
     createUserWithEmailAndPassword := fun _ _ => Resolved "uid-1";
     setDoc := fun _ => Rejected {| code := Some "permission-denied";
                                   message := "Missing or insufficient permissions." |} |}.

End RegisterExamples.

(** ** [src/js/download.js]: the client information on the page *)

Module DownloadPage.

Import Utils Stats Download ClassList.

Section DownloadPage.
Context `{Numbers}.

(** The text an element gets from [textContent = v]: a string is its own
    text, the text of another value is what [other_text] gives. *)
Variable other_text : Json -> string.
Definition text_of_value (v : Json) : string :=
  match v with
  | JString s => s
  | _ => other_text v
  end.

(** The button [#download-btn]. *)
Record Button := {
  disabled : bool;
  button_text : string;
  button_classes : list string }.

(** The three elements, each present or not: the text of
    [#client-version] and of [#client-size], and the button. *)
Record Page := {
  client_version : option string;
  client_size : option string;
  download_btn : option Button }.

Definition show_info (info : ClientInfo) (page : Page) : Page :=
  {| client_version :=
       match client_version page with
       | Some _ => Some (text_of_value (version info))
       | None => None
       end;
     client_size :=
       match client_size page with
       | Some _ => Some (text_of_value (size info))
       | None => None
       end;
     download_btn :=
       match download_btn page with
       | Some btn =>
           Some (if negb (isAvailable info)
                 then {| disabled := true; button_text := "Временно недоступно";
                         button_classes := class_add "disabled" (button_classes btn) |}
                 else {| disabled := false; button_text := "Скачать";
                         button_classes := class_remove "disabled" (button_classes btn) |})
       | None => None
       end |}.

Definition displayClientInfo (w : World) (s : System) (page : Page) : System * Page :=
  match getClientInfo w s with
  | (Fulfilled info, s') => (s', show_info info page)
  | (RejectedWith error, s') =>
      (emit (ConsoleError "Ошибка при отображении информации о клиенте:" error) s', page)
  end.

End DownloadPage.

End DownloadPage.

Section DownloadPageExamples.
Import Utils Stats Download DownloadPage.

(** A world whose document names a version and nothing else, and the page
    of the download section before it is filled in. *)
Definition urlless_world : World (H := integer_numbers) :=
  {| getDoc := fun _ => Fulfilled (Some [("version", JString "2.0")]);
     fetch_head := fetch_head offering_world;
     window_open := window_open offering_world;
     JSON_parse := JSON_parse offering_world;
     JSON_stringify := JSON_stringify offering_world;
     setItem_error := setItem_error offering_world;
     push_error := push_error offering_world;
     now := now offering_world |}.
Definition example_download_page : Page :=
  {| client_version := Some ""; client_size := Some "";
     download_btn := Some {| disabled := false; button_text := "";
                             button_classes := ["btn"] |} |}.

End DownloadPageExamples.
(** * Properties *)

(** ** The matcher decides the language *)

Section RegexFacts.
Import Regex.

Lemma nullable_lang r : nullable r = true <-> lang r [].
Proof.
  induction r as [| |p|r1 IH1 r2 IH2|r1 IH1 r2 IH2|r IH]; simpl.
  - split; [discriminate | inversion 1].
  - split; [constructor | reflexivity].
  - split; [discriminate | inversion 1].
  - rewrite andb_true_iff, IH1, IH2. split.
    + intros [H1 H2]. exact (lang_cat _ _ [] [] H1 H2).
    + inversion 1 as [| |? ? s1 s2 H1 H2 E1 E2| | | |]; subst.
      apply app_eq_nil in E2 as [-> ->]. auto.
  - rewrite orb_true_iff, IH1, IH2. split.
    + intros [?|?]; [apply lang_alt_l | apply lang_alt_r]; assumption.
    + inversion 1; subst; auto.
  - split; [constructor | reflexivity].
Qed.

(** A nonempty word of [r*] starts with a nonempty word of [r]. *)
Lemma lang_star_uncons r s :
  lang (Star r) s -> s <> [] ->
  exists c s1 s2, s = c :: s1 ++ s2 /\ lang r (c :: s1) /\ lang (Star r) s2.
Proof.
  intros Hs. remember (Star r) as r' eqn:Er.
  induction Hs as [| | | | | |r0 s1 s2 H1 _ H2 IH2]; try discriminate; intros Hne.
  - contradiction.
  - injection Er as ->. destruct s1 as [|c s1].
    + simpl in *. apply IH2; auto.
    + exists c, s1, s2. auto.
Qed.

Lemma lang_deriv c r s : lang (deriv c r) s <-> lang r (c :: s).
Proof.
  revert s. induction r as [| |p|r1 IH1 r2 IH2|r1 IH1 r2 IH2|r IH]; intros s; simpl.
  - split; inversion 1.
  - split; inversion 1.
  - destruct (p c) eqn:Hp; split; intros Hl.
    + inversion Hl; subst. constructor; assumption.
    + inversion Hl; subst. constructor.
    + inversion Hl.
    + inversion Hl; subst. congruence.
  - assert (Hcat : lang (Cat (deriv c r1) r2) s -> lang (Cat r1 r2) (c :: s)).
    { inversion 1 as [| |? ? s1 s2 H1 H2| | | |]; subst.
      apply IH1 in H1. exact (lang_cat _ _ (c :: s1) s2 H1 H2). }
    destruct (nullable r1) eqn:Hn; split.
    + inversion 1; subst; [auto|].
      apply nullable_lang in Hn. apply (lang_cat _ _ [] (c :: s) Hn). now apply IH2.
    + inversion 1 as [| |? ? s1 s2 H1 H2 E1 E2| | | |]; subst.
      destruct s1 as [|c' s1]; simpl in E2; subst.
      * apply lang_alt_r. now apply IH2.
      * injection E2 as -> <-. apply lang_alt_l. constructor; [now apply IH1 | assumption].
    + exact Hcat.
    + inversion 1 as [| |? ? s1 s2 H1 H2 E1 E2| | | |]; subst.
      destruct s1 as [|c' s1]; simpl in E2; subst.
      * apply nullable_lang in H1. congruence.
      * injection E2 as -> <-. constructor; [now apply IH1 | assumption].
  - split.
    + inversion 1; subst; [apply lang_alt_l; now apply IH1 | apply lang_alt_r; now apply IH2].
    + inversion 1; subst; [apply lang_alt_l; now apply IH1 | apply lang_alt_r; now apply IH2].
  - split.
    + inversion 1 as [| |? ? s1 s2 H1 H2| | | |]; subst.
      apply IH in H1. exact (lang_star_cons _ (c :: s1) s2 H1 H2).
    + intros Hl. apply lang_star_uncons in Hl as (c' & s1 & s2 & E & H1 & H2); [|discriminate].
      injection E as <- ->. constructor; [now apply IH | assumption].
Qed.

Lemma matches_lang r s : matches r s = true <-> lang r s.
Proof.
  revert r. induction s as [|c s IH]; intros r; simpl.
  - apply nullable_lang.
  - rewrite IH. apply lang_deriv.
Qed.

(** [[p]*] and [[p]+] *)
Lemma lang_star_class p s : lang (Star (Class p)) s <-> Forall (fun c => p c = true) s.
Proof.
  split.
  - intros Hs. remember (Star (Class p)) as r eqn:Er.
    induction Hs as [| | | | | |r0 s1 s2 H1 _ H2 IH2]; try discriminate.
    + constructor.
    + injection Er as ->. inversion H1; subst. constructor; auto.
  - induction 1 as [|c s Hc _ IH].
    + constructor.
    + apply (lang_star_cons _ [c] s); [now constructor | assumption].
Qed.

Lemma lang_plus_class p s :
  lang (Plus (Class p)) s <-> s <> [] /\ Forall (fun c => p c = true) s.
Proof.
  unfold Plus. split.
  - inversion 1 as [| |? ? s1 s2 H1 H2| | | |]; subst.
    inversion H1; subst. apply lang_star_class in H2. split; [discriminate|].
    constructor; assumption.
  - intros [Hne Hall]. destruct Hall as [|c s Hc Hs]; [contradiction|].
    apply (lang_cat _ _ [c] s); [now constructor | now apply lang_star_class].
Qed.

Lemma lang_is_char a s : lang (Class (FormValidator.is_char a)) s <-> s = [a].
Proof.
  split.
  - inversion 1 as [|p c Hc| | | | |]; subst.
    unfold FormValidator.is_char in Hc. apply bool_decide_eq_true in Hc. now subst.
  - intros ->. constructor. unfold FormValidator.is_char. now apply bool_decide_eq_true.
Qed.

End RegexFacts.

(** ** The e-mail predicate *)

Section EmailFacts.
Import Regex FormValidator.

Lemma chars_app s1 s2 : JS.chars (s1 +:+ s2) = JS.chars s1 ++ JS.chars s2.
Proof. induction s1 as [|c s1 IH]; simpl; [reflexivity | now rewrite <- IH]. Qed.

Lemma chars_of_list l : JS.chars (string_of_list_ascii l) = l.
Proof. apply list_ascii_of_string_of_list_ascii. Qed.

Lemma of_list_chars s : string_of_list_ascii (JS.chars s) = s.
Proof. apply string_of_list_ascii_of_string. Qed.

Lemma chars_nil s : JS.chars s = [] <-> s = "".
Proof. destruct s; simpl; split; congruence. Qed.

Lemma email_part_lang s :
  email_part s <-> lang (Plus (Class not_space_or_at)) (JS.chars s).
Proof.
  rewrite lang_plus_class. unfold email_part. rewrite chars_nil.
  apply and_iff_compat_l. apply Forall_iff. intros c.
  unfold not_space_or_at. rewrite negb_true_iff, orb_false_iff, bool_decide_eq_false.
  reflexivity.
Qed.

Lemma validateEmail_shape email : validateEmail email = true <-> email_shape email.
Proof.
  unfold validateEmail, emailRegex. rewrite matches_lang. split.
  - intros Hm.
    inversion Hm as [| |? ? l s1 Hl Hm1 E1 El| | | |]; subst.
    inversion Hm1 as [| |? ? a s2 Ha Hm2| | | |]; subst.
    inversion Hm2 as [| |? ? d s3 Hd Hm3| | | |]; subst.
    inversion Hm3 as [| |? ? dot t Hdot Ht| | | |]; subst.
    apply lang_is_char in Ha as ->. apply lang_is_char in Hdot as ->.
    exists (string_of_list_ascii l), (string_of_list_ascii d), (string_of_list_ascii t).
    rewrite !email_part_lang, !chars_of_list. split; [|auto].
    rewrite <- (of_list_chars email). rewrite <- El.
    rewrite <- (of_list_chars (_ +:+ _)). f_equal.
    rewrite !chars_app, !chars_of_list. reflexivity.
  - intros (l & d & t & -> & Hl & Hd & Ht).
    apply email_part_lang in Hl, Hd, Ht.
    rewrite !chars_app.
    repeat (apply lang_cat; [try assumption|]); try assumption.
    + now apply lang_is_char.
    + now apply lang_is_char.
Qed.

(** C7. The e-mail predicate is a boolean function of its argument that is
    true exactly on the strings of the shape: a nonempty run of characters
    that are neither whitespace nor [@], then [@], then such a run, then a
    dot, then such a run.  It is true on [a@b.co], and false on [a@b] and
    on [a b@c.com]. *)
Theorem validateEmail_decides_shape :
  (forall email : string, FormValidator.validateEmail email = true <-> email_shape email)
  /\ FormValidator.validateEmail "a@b.co" = true
  /\ FormValidator.validateEmail "a@b" = false
  /\ FormValidator.validateEmail "a b@c.com" = false.
Proof.
  split; [exact validateEmail_shape|].
  repeat split; reflexivity.
Qed.

End EmailFacts.

(** ** The retrying fetch *)

Section FetchFacts.
Import Utils.
Context {Payload : Type}.
Implicit Types (w : World Payload) (url : string) (tr : list Event).

Lemma attempt_body_trace w url k :
  let tr := snd (attempt_body w url k) in
  fetch_calls tr = [k] /\ delays tr = [] /\ toasts tr = [] /\ console_errors tr = []
  /\ schedule tr = [FetchCall url k]
  /\ (forall payload, attempt_outcome w url k = Fulfilled payload ->
        last tr = Some ClearAbortTimer).
Proof.
  unfold attempt_outcome, attempt_body.
  destruct (network w k) as [response|e]; [destruct (ok response)|]; simpl;
    repeat split; try reflexivity; intros; discriminate.
Qed.

Lemma handleNetworkError_trace w e :
  let tr := handleNetworkError w e in
  fetch_calls tr = [] /\ delays tr = [] /\ schedule tr = []
  /\ toasts tr = [notification (classify w e)] /\ console_errors tr = [e].
Proof.
  unfold handleNetworkError, classify, notification.
  destruct (bool_decide _); [|destruct (onLine w)]; simpl; repeat split; reflexivity.
Qed.

Lemma schedule_app tr1 tr2 : schedule (tr1 ++ tr2) = schedule tr1 ++ schedule tr2.
Proof. apply List.filter_app. Qed.

Lemma fetch_calls_app tr1 tr2 : fetch_calls (tr1 ++ tr2) = fetch_calls tr1 ++ fetch_calls tr2.
Proof. apply omap_app. Qed.
Lemma delays_app tr1 tr2 : delays (tr1 ++ tr2) = delays tr1 ++ delays tr2.
Proof. apply omap_app. Qed.
Lemma toasts_app tr1 tr2 : toasts (tr1 ++ tr2) = toasts tr1 ++ toasts tr2.
Proof. apply omap_app. Qed.
Lemma console_errors_app tr1 tr2 :
  console_errors (tr1 ++ tr2) = console_errors tr1 ++ console_errors tr2.
Proof. apply omap_app. Qed.

Lemma delay_trace ms :
  fetch_calls (delay ms) = [] /\ delays (delay ms) = [ms] /\ toasts (delay ms) = []
  /\ console_errors (delay ms) = [] /\ schedule (delay ms) = [Delay ms].
Proof. repeat split. Qed.

Lemma backoff_schedule_last url retryDelay k : backoff_schedule url retryDelay k k = [FetchCall url k].
Proof. unfold backoff_schedule. now rewrite Nat.sub_diag. Qed.

Lemma backoff_schedule_next url retryDelay first k :
  first < k ->
  backoff_schedule url retryDelay first k =
  [FetchCall url first; Delay (retryDelay * N.of_nat first)]
  ++ backoff_schedule url retryDelay (S first) k.
Proof.
  intros Hlt. unfold backoff_schedule.
  replace (k - first) with (S (k - S first)) by lia. reflexivity.
Qed.

(** What one run of the loop does, from attempt [attempt] on: it ends at
    some attempt [k], the first to succeed or else the last one allowed. *)
Lemma retry_loop_run maxRetries retryDelay w url remaining attempt :
  attempt + remaining = S maxRetries -> 1 <= remaining ->
  let run := retry_loop maxRetries retryDelay w url remaining attempt in
  exists k,
    attempt <= k <= maxRetries
    /\ (forall i, attempt <= i < k -> attempt_fails w url i)
    /\ fetch_calls (snd run) = seq attempt (S k - attempt)
    /\ delays (snd run) = map (fun i => (retryDelay * N.of_nat i)%N) (seq attempt (k - attempt))
    /\ schedule (snd run) = backoff_schedule url retryDelay attempt k
    /\ ((exists payload,
           attempt_outcome w url k = Fulfilled payload
           /\ fst run = Fulfilled (Some payload)
           /\ toasts (snd run) = [] /\ console_errors (snd run) = []
           /\ last (snd run) = Some ClearAbortTimer)
        \/ (k = maxRetries /\ exists e,
           attempt_outcome w url k = RejectedWith e
           /\ fst run = RejectedWith e
           /\ toasts (snd run) = [notification (classify w e)]
           /\ console_errors (snd run) = [e])).
Proof.
  revert attempt. induction remaining as [|remaining IH]; intros attempt Hsum Hpos; [lia|].
  pose proof (attempt_body_trace w url attempt) as (Hf & Hd & Ht & Hc & Hs & Hlast).
  cbn zeta. cbn [retry_loop]. unfold attempt_outcome in Hlast.
  destruct (attempt_body w url attempt) as [[payload|e] evs] eqn:Hbody; cbn [fst snd] in *.
  - exists attempt. replace (S attempt - attempt) with 1 by lia.
    rewrite backoff_schedule_last, Nat.sub_diag.
    split_and!; try assumption; try lia.
    left. exists payload. unfold attempt_outcome. rewrite Hbody.
    split_and!; try assumption; eauto.
  - destruct (Nat.eqb_spec attempt maxRetries) as [->|Hne]; cbn [fst snd].
    + pose proof (handleNetworkError_trace w e) as (Hf' & Hd' & Hs' & Ht' & Hc').
      exists maxRetries. replace (S maxRetries - maxRetries) with 1 by lia.
      rewrite backoff_schedule_last, Nat.sub_diag.
      rewrite fetch_calls_app, delays_app, toasts_app, console_errors_app, schedule_app.
      rewrite Hf, Hd, Ht, Hc, Hs, Hf', Hd', Hs', Ht', Hc'.
      split_and!; try reflexivity; try lia.
      right. split; [reflexivity|]. exists e. unfold attempt_outcome. rewrite Hbody. auto.
    + destruct (IH (S attempt)) as (k & Hk & Hfail & Hfk & Hdk & Hsk & Hend); [lia|lia|].
      destruct (retry_loop maxRetries retryDelay w url remaining (S attempt)) as [r evs'] eqn:Hloop.
      cbn [fst snd] in *. exists k.
      pose proof (delay_trace (retryDelay * N.of_nat attempt)) as (Hf' & Hd' & Ht' & Hc' & Hs').
      rewrite !fetch_calls_app, !delays_app, !toasts_app, !console_errors_app, !schedule_app.
      rewrite Hf, Hd, Ht, Hc, Hs, Hf', Hd', Ht', Hc', Hs', Hfk, Hdk, Hsk.
      rewrite (backoff_schedule_next url retryDelay attempt k) by lia.
      replace (S k - attempt) with (S (S k - S attempt)) by lia.
      replace (k - attempt) with (S (k - S attempt)) by lia.
      split_and!; try reflexivity; try lia.
      * intros i Hi. destruct (Nat.eq_dec i attempt) as [->|Hi'].
        -- exists e. unfold attempt_outcome. now rewrite Hbody.
        -- apply Hfail. lia.
      * destruct Hend as [(payload & Ho & Hr & Ht1 & Hc1 & Hl1)|(-> & e' & Ho & Hr & Ht1 & Hc1)].
        -- left. exists payload. split_and!; try assumption.
           rewrite !last_app, Hl1. reflexivity.
        -- right. split; [reflexivity|]. exists e'. auto.
Qed.

End FetchFacts.
Section FetchClaims.
Import Utils.
Context {Payload : Type}.
Implicit Types (w : World Payload) (url : string) (tr : list Event).

(** C3. When every attempt fails, the call makes exactly [maxRetries]
    fetches (3 in [fetchWithErrorHandling], which is [fetch_with 3 1000]),
    numbered 1 to [maxRetries]; it is rejected with the error of the last
    attempt; and it shows one notification, that of the classification of
    this error ([Timeout] for an abort, else [Offline] when the browser
    reports no connectivity, else [ConnectionError]), and logs this error
    once. *)
Theorem exhausted_fetch_fails_once (maxRetries : nat) (retryDelay : N) w url :
  1 <= maxRetries ->
  (forall k, 1 <= k <= maxRetries -> attempt_fails w url k) ->
  exists e tr,
    Utils.fetch_with maxRetries retryDelay w url = (RejectedWith e, tr)
    /\ attempt_outcome w url maxRetries = RejectedWith e
    /\ fetch_calls tr = seq 1 maxRetries
    /\ toasts tr = [notification (classify w e)]
    /\ console_errors tr = [e].
Proof.
  intros Hpos Hfail. unfold fetch_with.
  destruct (retry_loop_run maxRetries retryDelay w url maxRetries 1)
    as (k & Hk & _ & Hcalls & _ & _ & Hend); [lia|lia|].
  destruct (retry_loop maxRetries retryDelay w url maxRetries 1) as [r tr].
  cbn [fst snd] in *.
  destruct Hend as [(payload & Ho & _)|(-> & e & Ho & -> & Ht & Hc)].
  - destruct (Hfail k) as [e He]; [lia|]. congruence.
  - exists e, tr. replace (S maxRetries - 1) with maxRetries in Hcalls by lia.
    split_and!; auto.
Qed.

(** C4. The fetches and the waits of a call, in order, are: attempt 1, a
    wait of [retryDelay * 1], attempt 2, a wait of [retryDelay * 2], and so
    on up to an attempt [k] that nothing follows; the attempts before [k]
    failed, and [k] is the first attempt that succeeds or else the last one
    allowed.  So the wait after a failed attempt [i] that is not the last
    is [retryDelay * i], and no wait follows the final attempt. *)
Theorem backoff_between_attempts (maxRetries : nat) (retryDelay : N) w url :
  1 <= maxRetries ->
  exists k,
    1 <= k <= maxRetries
    /\ (forall i, 1 <= i < k -> attempt_fails w url i)
    /\ (k = maxRetries \/ exists payload, attempt_outcome w url k = Fulfilled payload)
    /\ schedule (snd (Utils.fetch_with maxRetries retryDelay w url))
       = backoff_schedule url retryDelay 1 k.
Proof.
  intros Hpos. unfold fetch_with.
  destruct (retry_loop_run maxRetries retryDelay w url maxRetries 1)
    as (k & Hk & Hfail & _ & _ & Hs & Hend); [lia|lia|].
  exists k. split_and!; try assumption; try lia.
  destruct Hend as [(payload & Ho & _)|(-> & _)]; eauto.
Qed.

(** C5. When attempt [k] is the first to succeed, the call returns its
    decoded payload after exactly [k] fetches and the [k - 1] waits between
    them; the last thing it does is to clear the abort timer of attempt
    [k], and it shows no notification and logs nothing. *)
Theorem fetch_returns_first_success (maxRetries : nat) (retryDelay : N) w url
    (k : nat) (payload : Payload) :
  1 <= k <= maxRetries ->
  (forall i, 1 <= i < k -> attempt_fails w url i) ->
  attempt_outcome w url k = Fulfilled payload ->
  exists tr,
    Utils.fetch_with maxRetries retryDelay w url = (Fulfilled (Some payload), tr)
    /\ fetch_calls tr = seq 1 k
    /\ delays tr = map (fun i => (retryDelay * N.of_nat i)%N) (seq 1 (k - 1))
    /\ last tr = Some ClearAbortTimer
    /\ toasts tr = [] /\ console_errors tr = [].
Proof.
  intros Hk Hfail Hok. unfold fetch_with.
  destruct (retry_loop_run maxRetries retryDelay w url maxRetries 1)
    as (k' & Hk' & Hfail' & Hcalls & Hdelays & _ & Hend); [lia|lia|].
  destruct (retry_loop maxRetries retryDelay w url maxRetries 1) as [r tr].
  cbn [fst snd] in *.
  assert (k' = k) as ->.
  { destruct (Nat.lt_trichotomy k' k) as [Hlt|[Heq|Hgt]]; [|assumption|].
    - destruct (Hfail k') as [e He]; [lia|].
      destruct Hend as [(p & Ho & _)|(-> & _)]; [congruence|lia].
    - destruct (Hfail' k) as [e He]; [lia|]. congruence. }
  destruct Hend as [(p & Ho & -> & Ht & Hc & Hl)|(_ & e & Ho & _)]; [|congruence].
  exists tr. replace (S k - 1) with k in Hcalls by lia.
  assert (p = payload) as -> by congruence. split_and!; auto.
Qed.

End FetchClaims.

Section FetchWitnesses.
Import Utils.

Lemma exhausted_fetch_witness :
  exists e tr,
    fetchWithErrorHandling unreachable_world "/api/server/stats" = (RejectedWith e, tr)
    /\ attempt_outcome unreachable_world "/api/server/stats" 3 = RejectedWith e
    /\ fetch_calls tr = [1; 2; 3]
    /\ toasts tr = [notification (classify unreachable_world e)]
    /\ console_errors tr = [e].
Proof.
  apply (exhausted_fetch_fails_once 3 1000 unreachable_world "/api/server/stats").
  - lia.
  - intros k _. eexists. reflexivity.
Defined.

Lemma backoff_witness :
  exists k,
    1 <= k <= 3
    /\ (forall i, 1 <= i < k -> attempt_fails unreachable_world "/api/server/stats" i)
    /\ (k = 3 \/ exists payload,
          attempt_outcome unreachable_world "/api/server/stats" k = Fulfilled payload)
    /\ schedule (snd (fetchWithErrorHandling unreachable_world "/api/server/stats"))
       = backoff_schedule "/api/server/stats" 1000 1 k.
Proof.
  apply (backoff_between_attempts 3 1000 unreachable_world "/api/server/stats"). lia.
Defined.

Lemma first_success_witness :
  exists tr,
    fetchWithErrorHandling flaky_world "/api/server/stats" = (Fulfilled (Some 7), tr)
    /\ fetch_calls tr = [1; 2; 3]
    /\ delays tr = [1000%N; 2000%N]
    /\ last tr = Some ClearAbortTimer
    /\ toasts tr = [] /\ console_errors tr = [].
Proof.
  apply (fetch_returns_first_success 3 1000 flaky_world "/api/server/stats" 3 7).
  - lia.
  - intros i Hi. assert (i = 1 \/ i = 2) as [-> | ->] by lia; eexists; reflexivity.
  - reflexivity.
Defined.

(** The run in the unreachable world, written out. *)
Example exhausted_fetch_example :
  fetchWithErrorHandling unreachable_world "/api"
  = (RejectedWith abort_error,
     [SetAbortTimer 10000; FetchCall "/api" 1; Delay 1000;
      SetAbortTimer 10000; FetchCall "/api" 2; Delay 2000;
      SetAbortTimer 10000; FetchCall "/api" 3;
      Toast timeout_message "error"; ConsoleError "Network Error:" abort_error]).
Proof. reflexivity. Qed.

(** The schedule of the three failing attempts, written out. *)
Example backoff_example :
  schedule (snd (fetchWithErrorHandling unreachable_world "/api"))
  = [FetchCall "/api" 1; Delay 1000; FetchCall "/api" 2; Delay 2000; FetchCall "/api" 3].
Proof. reflexivity. Qed.

End FetchWitnesses.

(** ** The validator *)

Section ErrorsFacts.
Import FormValidator.
Implicit Types (errors : Errors) (k v : string).

Lemma get_set_eq errors k v : get_property (set_property k v errors) k = Some v.
Proof.
  unfold get_property. induction errors as [|[k' v'] errors IH]; simpl.
  - now rewrite bool_decide_eq_true_2.
  - destruct (bool_decide_reflect (k' = k)) as [->|Hne]; simpl.
    + now rewrite bool_decide_eq_true_2.
    + now rewrite bool_decide_eq_false_2.
Qed.

Lemma get_set_ne errors k k' v :
  k <> k' -> get_property (set_property k v errors) k' = get_property errors k'.
Proof.
  intros Hne. unfold get_property. induction errors as [|[k0 v0] errors IH]; simpl.
  - now rewrite bool_decide_eq_false_2.
  - destruct (bool_decide_reflect (k0 = k)) as [->|Hne0]; simpl.
    + now rewrite !bool_decide_eq_false_2.
    + destruct (bool_decide (k0 = k')); [reflexivity | assumption].
Qed.

Lemma set_set errors k v1 v2 :
  set_property k v2 (set_property k v1 errors) = set_property k v2 errors.
Proof.
  induction errors as [|[k0 v0] errors IH]; simpl.
  - now rewrite bool_decide_eq_true_2.
  - destruct (bool_decide_reflect (k0 = k)) as [->|Hne]; simpl.
    + now rewrite bool_decide_eq_true_2.
    + rewrite bool_decide_eq_false_2 by assumption. now rewrite IH.
Qed.

Lemma set_property_not_nil errors k v : set_property k v errors <> [].
Proof. destruct errors as [|[k0 v0] errors]; simpl; [|destruct (bool_decide _)]; discriminate. Qed.

Lemma get_property_nil k : get_property [] k = None.
Proof. reflexivity. Qed.

Lemma writes_at_refl k errors : writes_at k errors errors.
Proof. now left. Qed.

Lemma writes_at_set k v errors : writes_at k errors (set_property k v errors).
Proof. right. eauto. Qed.

Lemma writes_at_trans k e1 e2 e3 : writes_at k e1 e2 -> writes_at k e2 e3 -> writes_at k e1 e3.
Proof.
  intros [->|[v1 ->]] [->|[v2 ->]]; [now left|right; eauto|right; eauto|].
  right. exists v2. apply set_set.
Qed.

Lemma writes_at_frame k k' e1 e2 :
  writes_at k e1 e2 -> k <> k' -> get_property e2 k' = get_property e1 k'.
Proof. intros [->|[v ->]] Hne; [reflexivity | now apply get_set_ne]. Qed.

Lemma writes_at_keys k e1 e2 k' :
  writes_at k e1 e2 -> is_Some (get_property e2 k') -> k' = k \/ is_Some (get_property e1 k').
Proof.
  intros Hw Hsome. destruct (decide (k' = k)) as [->|Hne]; [now left|right].
  now rewrite <- (writes_at_frame k k' e1 e2) by auto.
Qed.

Lemma writes_at_keeps k e1 e2 k' :
  writes_at k e1 e2 -> is_Some (get_property e1 k') -> is_Some (get_property e2 k').
Proof.
  intros [->|[v ->]] Hsome; [assumption|].
  destruct (decide (k = k')) as [->|Hne]; [rewrite get_set_eq; eauto|].
  now rewrite get_set_ne.
Qed.





End ErrorsFacts.

Section FieldFacts.
Import FormValidator.
Context `{Host}.
Implicit Types (field : Field) (errors : Errors) (v : string).

Lemma hasAttribute_true field a :
  hasAttribute field a = true <-> exists m, getAttribute field a = Some m.
Proof. unfold hasAttribute, getAttribute. now rewrite bool_decide_eq_true. Qed.

Lemma hasAttribute_false field a :
  hasAttribute field a = false <-> getAttribute field a = None.
Proof.
  unfold hasAttribute, getAttribute. rewrite bool_decide_eq_false.
  rewrite <- eq_None_not_Some. reflexivity.
Qed.

Lemma check_email_writes field v errors :
  writes_at (name field) errors (check_email field v errors).
Proof.
  unfold check_email. repeat case_match; auto using writes_at_refl, writes_at_set.
Qed.

Lemma check_password_writes field v errors :
  writes_at (name field) errors (check_password field v errors).
Proof.
  unfold check_password. repeat case_match; auto using writes_at_refl, writes_at_set.
Qed.

Lemma check_minlength_writes field v errors :
  writes_at (name field) errors (check_minlength field v errors).
Proof.
  unfold check_minlength. repeat case_match; auto using writes_at_refl, writes_at_set.
Qed.

Lemma check_maxlength_writes field v errors :
  writes_at (name field) errors (check_maxlength field v errors).
Proof.
  unfold check_maxlength. repeat case_match; auto using writes_at_refl, writes_at_set.
Qed.

Lemma check_pattern_writes field v errors errors' :
  check_pattern field v errors = Some errors' -> writes_at (name field) errors errors'.
Proof.
  unfold check_pattern. intros Hc.
  repeat case_match; simplify_eq; auto using writes_at_refl, writes_at_set.
Qed.

Lemma validate_field_writes formData errors field errors' :
  validate_field formData errors field = Some errors' ->
  writes_at (name field) errors errors'.
Proof.
  unfold validate_field. destruct (is_blank _).
  - intros [= <-]. apply writes_at_set.
  - intros Hp%check_pattern_writes.
    eauto 6 using writes_at_trans, check_email_writes, check_password_writes,
      check_minlength_writes, check_maxlength_writes.
Qed.

Lemma validate_field_blank formData errors field :
  is_blank (FormData_get formData (name field)) = true ->
  validate_field formData errors field
  = Some (set_property (name field) (required_message field) errors).
Proof. unfold validate_field. now intros ->. Qed.



(** What the callback does depends on the entries of the form through the
    value read under the name of the field only. *)
Lemma validate_field_data formData formData' errors field :
  FormData_get formData (name field) = FormData_get formData' (name field) ->
  validate_field formData errors field = validate_field formData' errors field.
Proof. unfold validate_field. now intros ->. Qed.

(** A rule writes the same, if it writes, whatever the object holds. *)
Local Abbreviation uniform k c :=
  ((forall errors, c errors = errors) \/ exists m, forall errors, c errors = set_property k m errors).

Lemma check_email_uniform field v : uniform (name field) (check_email field v).
Proof. unfold check_email. repeat case_match; eauto. Qed.

Lemma check_password_uniform field v : uniform (name field) (check_password field v).
Proof. unfold check_password. repeat case_match; eauto. Qed.

Lemma check_minlength_uniform field v : uniform (name field) (check_minlength field v).
Proof. unfold check_minlength. repeat case_match; eauto. Qed.

Lemma check_maxlength_uniform field v : uniform (name field) (check_maxlength field v).
Proof. unfold check_maxlength. repeat case_match; eauto. Qed.

Lemma uniform_compose k (c1 c2 : Errors -> Errors) :
  uniform k c1 -> uniform k c2 -> uniform k (fun errors => c2 (c1 errors)).
Proof.
  intros [H1|[m1 H1]] [H2|[m2 H2]].
  - left. intros errors. now rewrite H1, H2.
  - right. exists m2. intros errors. now rewrite H1, H2.
  - right. exists m1. intros errors. now rewrite H1, H2.
  - right. exists m2. intros errors. now rewrite H1, H2, set_set.
Qed.

(** The callback throws, leaves the object as it is, or writes one and the
    same message under the name of the field, whatever the object holds. *)
Lemma validate_field_uniform formData field :
  (forall errors, validate_field formData errors field = None)
  \/ (forall errors, validate_field formData errors field = Some errors)
  \/ (exists m, forall errors,
        validate_field formData errors field = Some (set_property (name field) m errors)).
Proof.
  unfold validate_field. destruct (is_blank _); [right; right; eauto|].
  set (v := default "" (FormData_get formData (name field))). cbv zeta.
  pose proof (uniform_compose _ _ _
    (uniform_compose _ _ _
      (uniform_compose _ _ _ (check_email_uniform field v) (check_password_uniform field v))
      (check_minlength_uniform field v))
    (check_maxlength_uniform field v)) as Hchecks. cbv beta in Hchecks.
  unfold check_pattern. destruct (hasAttribute field "pattern").
  - destruct (RegExp _) as [pattern_test|]; [|now left].
    destruct (pattern_test v).
    + right. destruct Hchecks as [Hc|[m Hc]]; [left|right; exists m];
        intros errors; now rewrite Hc.
    + right. right. destruct Hchecks as [Hc|[m Hc]]; eexists; intros errors; rewrite Hc;
        [reflexivity|]. now rewrite set_set.
  - right. destruct Hchecks as [Hc|[m Hc]]; [left|right; exists m];
      intros errors; now rewrite Hc.
Qed.

(** The entry the callback leaves under the name of the field depends on
    the entry it found there only. *)
Lemma validate_field_entry formData e e' field e2 :
  get_property e (name field) = get_property e' (name field) ->
  validate_field formData e field = Some e2 ->
  exists e2', validate_field formData e' field = Some e2'
              /\ get_property e2 (name field) = get_property e2' (name field).
Proof.
  intros He. destruct (validate_field_uniform formData field) as [Hv|[Hv|[m Hv]]];
    rewrite !Hv; [discriminate| |]; intros [= <-]; eexists; (split; [reflexivity|]).
  - exact He.
  - now rewrite !get_set_eq.
Qed.

End FieldFacts.

Section BlankFacts.
Import FormValidator.

Lemma drop_whitespace_Forall l :
  Forall (fun c => JS.is_whitespace c = true) (JS.drop_whitespace l)
  <-> Forall (fun c => JS.is_whitespace c = true) l.
Proof.
  induction l as [|c l IH]; simpl; [reflexivity|].
  destruct (JS.is_whitespace c) eqn:Hc; [|reflexivity].
  rewrite IH, Forall_cons. tauto.
Qed.

Lemma Forall_rev_iff {A} (P : A -> Prop) (l : list A) : Forall P (rev l) <-> Forall P l.
Proof.
  split; intros Hall; [rewrite <- (rev_involutive l)|]; now apply List.Forall_rev.
Qed.

Lemma drop_whitespace_nil l :
  JS.drop_whitespace l = [] <-> Forall (fun c => JS.is_whitespace c = true) l.
Proof.
  induction l as [|c l IH]; simpl; [split; auto|].
  destruct (JS.is_whitespace c) eqn:Hc.
  - rewrite IH, Forall_cons. tauto.
  - split; [discriminate|]. intros Hall. apply Forall_cons in Hall as [Hc' _]. congruence.
Qed.

Lemma trim_empty s :
  JS.trim s = "" <-> Forall (fun c => JS.is_whitespace c = true) (JS.chars s).
Proof.
  unfold JS.trim. rewrite <- chars_nil, chars_of_list.
  rewrite <- drop_whitespace_Forall, <- (Forall_rev_iff _ (JS.drop_whitespace _)) at 1.
  rewrite <- drop_whitespace_nil. split.
  - intros Hr. apply (f_equal (@rev _)) in Hr. now rewrite rev_involutive in Hr.
  - now intros ->.
Qed.

Lemma is_blank_blank (v : option string) : is_blank v = true <-> blank v.
Proof.
  destruct v as [s|]; simpl; [|tauto].
  rewrite orb_true_iff, !bool_decide_eq_true, trim_empty. split; [|auto].
  intros [->|Hs]; [constructor | assumption].
Qed.

End BlankFacts.

Section FormFacts.
Import FormValidator.
Context `{Host}.
Implicit Types (form : Form) (field : Field) (errors : Errors).

Lemma FormData_get_app (l1 l2 : list (string * string)) n :
  FormData_get (l1 ++ l2) n
  = match FormData_get l1 n with Some v => Some v | None => FormData_get l2 n end.
Proof.
  unfold FormData_get. induction l1 as [|[k v] l1 IH]; simpl; [reflexivity|].
  destruct (bool_decide (k = n)); [reflexivity | assumption].
Qed.

Lemma FormData_get_entries k (es : list string) n :
  FormData_get (map (pair k) es) n = if bool_decide (k = n) then head es else None.
Proof.
  unfold FormData_get. destruct (bool_decide_reflect (k = n)) as [->|Hne].
  - destruct es; simpl; [reflexivity|]. now rewrite bool_decide_eq_true_2.
  - induction es as [|e es IH]; simpl; [reflexivity|].
    now rewrite bool_decide_eq_false_2.
Qed.

Lemma FormData_cons field form :
  FormData (field :: form)
  = (if bool_decide (name field = "") then [] else map (pair (name field)) (entries field))
    ++ FormData form.
Proof. reflexivity. Qed.

(** The entries of a control are under its name, which is not empty. *)
Lemma FormData_get_control field n :
  FormData_get
    (if bool_decide (name field = "") then [] else map (pair (name field)) (entries field)) n
  = if bool_decide (name field = n) && negb (bool_decide (n = ""))
    then value field else None.
Proof.
  destruct (bool_decide_reflect (name field = "")) as [He|Hne].
  - destruct (bool_decide_reflect (name field = n)) as [<-|]; [|reflexivity].
    now rewrite bool_decide_eq_true_2.
  - rewrite FormData_get_entries.
    destruct (bool_decide_reflect (name field = n)) as [<-|]; [|reflexivity].
    now rewrite bool_decide_eq_false_2.
Qed.

Lemma FormData_get_absent form n :
  n ∉ name <$> form -> FormData_get (FormData form) n = None.
Proof.
  induction form as [|g form IH]; [reflexivity|].
  rewrite fmap_cons, not_elem_of_cons. intros [Hne Hn].
  rewrite FormData_cons, FormData_get_app, FormData_get_control.
  rewrite bool_decide_eq_false_2 by congruence. simpl. auto.
Qed.

Lemma FormData_get_no_name form : FormData_get (FormData form) "" = None.
Proof.
  induction form as [|g form IH]; [reflexivity|].
  rewrite FormData_cons, FormData_get_app, FormData_get_control.
  rewrite (bool_decide_eq_true_2 ("" = "")) by reflexivity.
  now rewrite andb_false_r.
Qed.

(** With unique names, [formData.get(field.name)] is the value of the
    field. *)
Lemma FormData_get_value form field :
  NoDup (name <$> form) -> field ∈ form -> name field <> "" ->
  FormData_get (FormData form) (name field) = value field.
Proof.
  intros Hnd Hin Hname. induction form as [|g form IH]; [now apply elem_of_nil in Hin|].
  rewrite fmap_cons in Hnd. apply NoDup_cons in Hnd as [Hg Hnd].
  rewrite FormData_cons, FormData_get_app, FormData_get_control.
  apply elem_of_cons in Hin as [->|Hin].
  - rewrite bool_decide_eq_true_2 by reflexivity.
    rewrite bool_decide_eq_false_2 by assumption. simpl.
    destruct (value g) eqn:Hv; [reflexivity|]. now apply FormData_get_absent.
  - rewrite bool_decide_eq_false_2; [simpl; auto|].
    intros Heq. apply Hg. rewrite Heq. now apply list_elem_of_fmap_2.
Qed.


Lemma elem_of_required form field :
  field ∈ querySelectorAll_required form <-> field ∈ form /\ is_required_control field = true.
Proof.
  unfold querySelectorAll_required. rewrite !list_elem_of_In, filter_In. reflexivity.
Qed.

Lemma NoDup_names_filter (p : Field -> bool) form :
  NoDup (name <$> form) -> NoDup (name <$> List.filter p form).
Proof.
  induction form as [|g form IH]; [auto|].
  rewrite fmap_cons, NoDup_cons. intros [Hg Hnd]. cbn [List.filter].
  destruct (p g); [|auto]. rewrite fmap_cons, NoDup_cons. split; [|auto].
  intros (g' & Hname & Hin)%list_elem_of_fmap. apply Hg.
  rewrite Hname. apply list_elem_of_fmap_2.
  apply list_elem_of_In, filter_In in Hin as [Hin _]. now apply list_elem_of_In.
Qed.

(** *** The loop over the fields *)

Lemma forEach_field_frame formData fields errors errors' k :
  forEach_field formData fields errors = Some errors' ->
  k ∉ name <$> fields ->
  get_property errors' k = get_property errors k.
Proof.
  revert errors. induction fields as [|g fields IH]; intros errors; simpl.
  - now intros [= ->].
  - destruct (validate_field formData errors g) as [e1|] eqn:Hg; [|discriminate].
    rewrite not_elem_of_cons. intros Hloop [Hne Hk].
    rewrite (IH e1 Hloop Hk).
    apply validate_field_writes in Hg. now apply (writes_at_frame (name g)).
Qed.

(** With unique names, the entry of a field is the one its own callback
    leaves, and the callback found none. *)
Lemma forEach_field_at formData fields errors errors' field :
  NoDup (name <$> fields) -> field ∈ fields ->
  forEach_field formData fields errors = Some errors' ->
  exists e1 e2,
    validate_field formData e1 field = Some e2
    /\ get_property e1 (name field) = get_property errors (name field)
    /\ get_property errors' (name field) = get_property e2 (name field).
Proof.
  revert errors. induction fields as [|g fields IH]; intros errors Hnd Hin;
    [now apply elem_of_nil in Hin|].
  rewrite fmap_cons in Hnd. apply NoDup_cons in Hnd as [Hg Hnd]. simpl.
  destruct (validate_field formData errors g) as [e1|] eqn:Hvg; [|discriminate].
  intros Hloop. apply elem_of_cons in Hin as [->|Hin].
  - exists errors, e1. split_and!; [assumption|reflexivity|].
    now apply (forEach_field_frame formData fields).
  - destruct (IH e1 Hnd Hin Hloop) as (e2 & e3 & Hv & Hbefore & Hafter).
    exists e2, e3. split_and!; [assumption| |assumption].
    rewrite Hbefore. apply validate_field_writes in Hvg.
    apply (writes_at_frame (name g)); [assumption|].
    intros Heq. apply Hg. rewrite Heq. now apply list_elem_of_fmap_2.
Qed.

Lemma forEach_field_keys formData fields errors errors' k :
  forEach_field formData fields errors = Some errors' ->
  is_Some (get_property errors' k) ->
  is_Some (get_property errors k) \/ k ∈ name <$> fields.
Proof.
  revert errors. induction fields as [|g fields IH]; intros errors; simpl.
  - intros [= ->]. auto.
  - destruct (validate_field formData errors g) as [e1|] eqn:Hg; [|discriminate].
    intros Hloop Hk. rewrite elem_of_cons.
    destruct (IH e1 Hloop Hk) as [Hk1|Hin]; [|auto].
    apply validate_field_writes in Hg.
    destruct (writes_at_keys _ _ _ _ Hg Hk1) as [->|Hk0]; auto.
Qed.


(** Two fields of a form with distinct names that have the same name are
    the same field. *)
Lemma same_name_same_field form field g :
  NoDup (name <$> form) -> field ∈ form -> g ∈ form -> name g = name field -> g = field.
Proof.
  intros Hnd Hin Hg Hname. induction form as [|f0 form IH]; [now apply elem_of_nil in Hin|].
  rewrite fmap_cons in Hnd. apply NoDup_cons in Hnd as [Hf0 Hnd].
  apply elem_of_cons in Hin as [->|Hin], Hg as [->|Hg]; auto.
  - exfalso. apply Hf0. rewrite <- Hname. now apply list_elem_of_fmap_2.
  - exfalso. apply Hf0. rewrite Hname. now apply list_elem_of_fmap_2.
Qed.

(** With distinct names, a field that is not required has no entry. *)
Lemma forEach_field_not_required form errors' field :
  NoDup (name <$> form) -> field ∈ form -> is_required_control field = false ->
  forEach_field (FormData form) (querySelectorAll_required form) [] = Some errors' ->
  get_property errors' (name field) = None.
Proof.
  intros Hnd Hin Hreq Hloop.
  rewrite (forEach_field_frame _ _ _ _ (name field) Hloop); [reflexivity|].
  intros (g & Hname & [Hg Hgreq]%elem_of_required)%list_elem_of_fmap.
  assert (g = field) as -> by now apply (same_name_same_field form).
  congruence.
Qed.

(** With distinct names, a value that reads as not blank is the value of a
    named field. *)
Lemma FormData_get_not_blank form field :
  NoDup (name <$> form) -> field ∈ form ->
  is_blank (FormData_get (FormData form) (name field)) = false ->
  name field <> "" /\ ~ blank (value field).
Proof.
  intros Hnd Hin Hb. assert (name field <> "") as Hname.
  { intros He. rewrite He, FormData_get_no_name in Hb. discriminate. }
  split; [assumption|]. rewrite FormData_get_value in Hb by assumption.
  rewrite <- is_blank_blank. congruence.
Qed.

Lemma validate_Some form r :
  validate form = Some r ->
  forEach_field (FormData form) (querySelectorAll_required form) [] = Some (errors r)
  /\ valid r = (length (Object_keys (errors r)) =? 0).
Proof.
  unfold validate, validate_fields.
  destruct (forEach_field _ _ _) as [e|]; [|discriminate]. now intros [= <-].
Qed.

Lemma is_required_control_true field :
  is_required_control field = true
  <-> tagName field <> other /\ hasAttribute field "required" = true.
Proof.
  unfold is_required_control. destruct (tagName field); split;
    try (intros [? ?]); try split; congruence.
Qed.

Lemma is_required_control_false field :
  is_required_control field = false
  <-> tagName field = other \/ hasAttribute field "required" = false.
Proof.
  unfold is_required_control. destruct (tagName field); split;
    try (intros [?|?]); auto; congruence.
Qed.


(** An entry stays, whatever the later callbacks write. *)
Lemma forEach_field_stays formData fields errors errors' k :
  forEach_field formData fields errors = Some errors' ->
  is_Some (get_property errors k) -> is_Some (get_property errors' k).
Proof.
  revert errors. induction fields as [|g fields IH]; intros errors; simpl.
  - now intros [= ->].
  - destruct (validate_field formData errors g) as [e1|] eqn:Hg; [|discriminate].
    intros Hloop Hk. apply (IH e1 Hloop).
    apply validate_field_writes in Hg. now apply (writes_at_keeps (name g) errors).
Qed.

(** A field of the loop under whose name the form submits nothing or a
    blank value has an entry at the end. *)
Lemma forEach_field_blank formData fields errors errors' field :
  field ∈ fields ->
  is_blank (FormData_get formData (name field)) = true ->
  forEach_field formData fields errors = Some errors' ->
  is_Some (get_property errors' (name field)).
Proof.
  revert errors. induction fields as [|g fields IH]; intros errors Hin Hb;
    [now apply elem_of_nil in Hin|].
  simpl. destruct (validate_field formData errors g) as [e1|] eqn:Hg; [|discriminate].
  intros Hloop. apply elem_of_cons in Hin as [->|Hin]; [|now apply (IH e1)].
  apply (forEach_field_stays _ _ _ _ _ Hloop).
  rewrite validate_field_blank in Hg by assumption. injection Hg as <-.
  rewrite get_set_eq. eauto.
Qed.


(** With distinct names, a field reads the same value in the form as it
    does alone. *)
Lemma FormData_get_alone form field :
  NoDup (name <$> form) -> field ∈ form ->
  FormData_get (FormData form) (name field) = FormData_get (FormData [field]) (name field).
Proof.
  intros Hnd Hin. destruct (decide (name field = "")) as [->|Hne].
  - now rewrite !FormData_get_no_name.
  - rewrite (FormData_get_value form) by assumption.
    rewrite (FormData_get_value [field]); [reflexivity| |constructor|assumption].
    rewrite list_fmap_singleton. apply NoDup_singleton.
Qed.

(** With distinct names, the entry of a required field is the one it has
    when validated alone. *)
Lemma forEach_field_alone form errors' field :
  NoDup (name <$> form) -> field ∈ form -> is_required_control field = true ->
  forEach_field (FormData form) (querySelectorAll_required form) [] = Some errors' ->
  exists r1, validate [field] = Some r1
             /\ get_property errors' (name field) = get_property (errors r1) (name field).
Proof.
  intros Hnd Hin Hreq Hloop.
  pose proof (NoDup_names_filter is_required_control form Hnd) as Hnd'.
  fold (querySelectorAll_required form) in Hnd'.
  destruct (forEach_field_at _ _ _ _ field Hnd' (proj2 (elem_of_required _ _) (conj Hin Hreq)) Hloop)
    as (e1 & e2 & Hv & Hbefore & ->).
  rewrite (validate_field_data _ (FormData [field])) in Hv by now apply FormData_get_alone.
  destruct (validate_field_entry _ e1 [] field e2 Hbefore Hv) as (e2' & Hv' & Hentry).
  unfold validate, validate_fields, querySelectorAll_required. cbn [List.filter].
  rewrite Hreq. cbn [forEach_field]. rewrite Hv'. eexists. split; [reflexivity|]. exact Hentry.
Qed.


End FormFacts.

Section ValidatorClaims.
Import FormValidator.
Context `{Host}.
Implicit Types (form : Form) (field : Field).


(** C1, as the code has it.  For a form whose fields have distinct names
    and a required, named field of type e-mail in it: when the value is not
    blank, has no valid e-mail shape and has length 5, the [minlength]
    attribute reads as 8, and the value breaks no [maxlength] or [pattern]
    rule, the entry that [validate] keeps for the field is the
    minimum-length message for 8: the length rule runs after the e-mail
    rule and overwrites its message. *)
Theorem short_invalid_email_keeps_minlength_message form field v m r :
  NoDup (name <$> form) -> field ∈ form ->
  is_required_control field = true -> name field <> "" ->
  type field = "email" -> value field = Some v -> ~ blank (Some v) ->
  validateEmail v = false -> String.length v = 5 ->
  getAttribute field "minlength" = Some m -> JS.parseInt m = Some 8%Z ->
  (forall m', getAttribute field "maxlength" = Some m' ->
     JS.length_gt 5 (JS.parseInt m') = false) ->
  (forall p, getAttribute field "pattern" = Some p ->
     exists test, RegExp p = Some test /\ test v = true) ->
  FormValidator.validate form = Some r ->
  get_property (errors r) (name field) = Some (minlength_message (Some 8%Z)).
Proof.
  intros Hnd Hin Hreq Hname Htype Hv Hnb Hemail Hlen Hmin Hm Hmax Hpat [Hloop _]%validate_Some.
  pose proof (NoDup_names_filter is_required_control form Hnd) as Hnd'.
  fold (querySelectorAll_required form) in Hnd'.
  destruct (forEach_field_at _ _ _ _ field Hnd' (proj2 (elem_of_required _ _) (conj Hin Hreq)) Hloop)
    as (e1 & e2 & Hvf & _ & ->).
  unfold validate_field in Hvf.
  rewrite FormData_get_value in Hvf by assumption. rewrite Hv in Hvf.
  assert (is_blank (Some v) = false) as Hb.
  { apply not_true_iff_false. now rewrite is_blank_blank. }
  rewrite Hb in Hvf. change (default "" (Some v)) with v in Hvf. cbv zeta in Hvf.
  assert (check_email field v e1 = set_property (name field) email_message e1) as He.
  { unfold check_email. rewrite Htype, Hemail. reflexivity. }
  assert (check_password field v (check_email field v e1) = check_email field v e1) as Hp.
  { unfold check_password. rewrite Htype. reflexivity. }
  rewrite Hp, He in Hvf.
  assert (check_minlength field v (set_property (name field) email_message e1)
          = set_property (name field) (minlength_message (Some 8%Z)) e1) as Hl.
  { unfold check_minlength. rewrite (proj2 (hasAttribute_true _ _) (ex_intro _ m Hmin)).
    rewrite Hmin. change (default "" (Some m)) with m. cbv zeta. rewrite Hm, Hlen.
    apply set_set. }
  rewrite Hl in Hvf.
  assert (check_maxlength field v (set_property (name field) (minlength_message (Some 8%Z)) e1)
          = set_property (name field) (minlength_message (Some 8%Z)) e1) as Hx.
  { unfold check_maxlength. destruct (hasAttribute field "maxlength") eqn:Ha; [|reflexivity].
    apply hasAttribute_true in Ha as [m' Hm']. rewrite Hm'.
    change (default "" (Some m')) with m'. cbv zeta. now rewrite Hlen, (Hmax m' Hm'). }
  rewrite Hx in Hvf.
  unfold check_pattern in Hvf. destruct (hasAttribute field "pattern") eqn:Ha.
  - apply hasAttribute_true in Ha as [p Hp']. rewrite Hp' in Hvf.
    change (default "" (Some p)) with p in Hvf.
    destruct (Hpat p Hp') as (test & Ht & Htv). rewrite Ht, Htv in Hvf.
    injection Hvf as <-. apply get_set_eq.
  - injection Hvf as <-. apply get_set_eq.
Qed.

(** C2, as the code has it.  The fields [validate] evaluates are exactly
    the [input], [textarea] and [select] controls of the form that carry
    the [required] attribute, whatever their type.  Every entry of [errors]
    is under the name of such a field; every such field under whose name
    the form submits no value, or first a blank one, has an entry; and,
    names being distinct, the entry of such a field is the one it gets
    when it is validated alone, and a field that is not required has no
    entry, whatever length or pattern attributes it carries. *)
Theorem validate_evaluates_required_fields_only form r :
  FormValidator.validate form = Some r ->
  (forall k, is_Some (get_property (errors r) k) ->
     exists field,
       field ∈ form /\ tagName field <> other /\ hasAttribute field "required" = true
       /\ name field = k)
  /\ (forall field,
        field ∈ form -> tagName field <> other -> hasAttribute field "required" = true ->
        blank (FormData_get (FormData form) (name field)) ->
        is_Some (get_property (errors r) (name field)))
  /\ (NoDup (name <$> form) ->
      forall field, field ∈ form ->
        (tagName field <> other -> hasAttribute field "required" = true ->
         exists r1,
           FormValidator.validate [field] = Some r1
           /\ get_property (errors r) (name field) = get_property (errors r1) (name field))
        /\ (tagName field = other \/ hasAttribute field "required" = false ->
            get_property (errors r) (name field) = None)).
Proof.
  intros [Hloop _]%validate_Some. split_and!.
  - intros k Hk. destruct (forEach_field_keys _ _ _ _ k Hloop Hk) as [[v Hv]|Hin];
      [discriminate|].
    apply list_elem_of_fmap in Hin as (field & -> & [Hin Hreq]%elem_of_required).
    apply is_required_control_true in Hreq as [Htag Hreq]. eauto.
  - intros field Hin Htag Hreq Hb.
    apply (forEach_field_blank _ _ _ _ field) in Hloop; [assumption| |now apply is_blank_blank].
    apply elem_of_required. split; [assumption|]. now apply is_required_control_true.
  - intros Hnd field Hin. split.
    + intros Htag Hreq. apply (forEach_field_alone form); try assumption.
      now apply is_required_control_true.
    + intros Hnot%is_required_control_false. now apply (forEach_field_not_required form).
Qed.

End ValidatorClaims.

Section ValidatorWitnesses.
Import FormValidator.

(** The form of the example: an empty required field and a valid one. *)
Example validate_example :
  validate (H := plain_host) [empty_username_field; good_email_field]
  = Some {| valid := false;
            errors := [("username", required_message empty_username_field)] |}.
Proof. reflexivity. Qed.



(** C1 fails on the code: a required e-mail field with [minlength="8"]
    holding [abcde], which has no e-mail shape and length 5, keeps the
    minimum-length message and not the e-mail message. *)
Lemma short_invalid_email_loses_email_message :
  type short_email_field = "email"
  /\ validateEmail "abcde" = false
  /\ String.length "abcde" = 5
  /\ getAttribute short_email_field "minlength" = Some "8"
  /\ validate (H := plain_host) [short_email_field]
     = Some {| valid := false; errors := [("email", "Минимальная длина: 8 символов")] |}
  /\ get_property [("email", "Минимальная длина: 8 символов")] "email" <> Some email_message.
Proof. split_and!; try reflexivity. discriminate. Qed.

Lemma short_invalid_email_witness :
  get_property [("email", minlength_message (Some 8%Z))] (name short_email_field)
  = Some (minlength_message (Some 8%Z)).
Proof.
  apply (short_invalid_email_keeps_minlength_message (H := plain_host)
           [short_email_field] short_email_field "abcde" "8"
           {| valid := false; errors := [("email", minlength_message (Some 8%Z))] |}).
  - apply (bool_decide_unpack _). vm_compute. exact I.
  - constructor.
  - reflexivity.
  - discriminate.
  - reflexivity.
  - reflexivity.
  - intros Hb. apply is_blank_blank in Hb. discriminate.
  - reflexivity.
  - reflexivity.
  - reflexivity.
  - reflexivity.
  - intros m'. discriminate.
  - intros p. discriminate.
  - reflexivity.
Defined.

(** C2 fails on the code: a field that is not required is not evaluated,
    although it carries [minlength="8"] and holds three characters; the
    fields of the claim would give it an entry. *)
Lemma optional_constrained_field_is_skipped :
  required_or_constrained [optional_nick_field] = [optional_nick_field]
  /\ querySelectorAll_required [optional_nick_field] = []
  /\ validate (H := plain_host) [optional_nick_field] = Some {| valid := true; errors := [] |}
  /\ validate_fields (H := plain_host) [optional_nick_field]
       (required_or_constrained [optional_nick_field])
     = Some {| valid := false; errors := [("nick", "Минимальная длина: 8 символов")] |}.
Proof. split_and!; reflexivity. Qed.

Lemma validate_evaluates_required_fields_witness :
  (forall k,
     is_Some (get_property [("username", required_message empty_username_field)] k) ->
     exists field,
       field ∈ [empty_username_field; optional_nick_field]
       /\ tagName field <> other /\ hasAttribute field "required" = true /\ name field = k)
  /\ (forall field,
        field ∈ [empty_username_field; optional_nick_field] ->
        tagName field <> other -> hasAttribute field "required" = true ->
        blank (FormData_get (FormData [empty_username_field; optional_nick_field]) (name field)) ->
        is_Some (get_property [("username", required_message empty_username_field)]
                   (name field)))
  /\ (NoDup (name <$> [empty_username_field; optional_nick_field]) ->
      forall field,
        field ∈ [empty_username_field; optional_nick_field] ->
        (tagName field <> other -> hasAttribute field "required" = true ->
         exists r1,
           validate (H := plain_host) [field] = Some r1
           /\ get_property [("username", required_message empty_username_field)] (name field)
              = get_property (errors r1) (name field))
        /\ (tagName field = other \/ hasAttribute field "required" = false ->
            get_property [("username", required_message empty_username_field)] (name field)
            = None)).
Proof.
  apply (validate_evaluates_required_fields_only (H := plain_host)
           [empty_username_field; optional_nick_field]
           {| valid := false;
              errors := [("username", required_message empty_username_field)] |}).
  reflexivity.
Defined.

End ValidatorWitnesses.

(** ** Showing and clearing the errors *)

Section PageFacts.
Import FormValidator.
Implicit Types (p : Element -> bool) (g : Element -> list Node -> list Node)
  (doc : Document) (n : Node) (ids : list string).

(** Induction on a node with its children. *)
Lemma Node_children_ind (P : Node -> Prop) :
  (forall data, P (TextNode data)) ->
  (forall e childNodes, Forall P childNodes -> P (ElementNode e childNodes)) ->
  forall n, P n.
Proof.
  intros Htext Helement. fix IH 1. intros [data|e childNodes]; [apply Htext|].
  apply Helement. induction childNodes as [|c cs IHcs]; constructor; [apply IH | apply IHcs].
Qed.

Lemma has_class_removed c e : has_class c (classList_remove c e) = false.
Proof.
  unfold has_class, classList_remove. simpl. apply bool_decide_eq_false.
  rewrite list_elem_of_In, filter_In, negb_true_iff, bool_decide_eq_false. tauto.
Qed.

Lemma has_class_remove_other c c' e :
  c <> c' -> has_class c (classList_remove c' e) = has_class c e.
Proof.
  intros Hne. unfold has_class, classList_remove. simpl. apply bool_decide_ext.
  rewrite !list_elem_of_In, filter_In, negb_true_iff, bool_decide_eq_false. tauto.
Qed.


Lemma has_class_added c e : has_class c (classList_add c e) = true.
Proof.
  unfold has_class at 1, classList_add. simpl. apply bool_decide_eq_true.
  unfold has_class. case_bool_decide; [assumption|].
  apply elem_of_app. right. constructor.
Qed.

Lemma has_class_add_other c c' e :
  c <> c' -> has_class c (classList_add c' e) = has_class c e.
Proof.
  intros Hne. unfold has_class at 1 2, classList_add. simpl. apply bool_decide_ext.
  unfold has_class. case_bool_decide; [reflexivity|].
  rewrite elem_of_app, list_elem_of_singleton. tauto.
Qed.

Lemma elements_app (l1 l2 : list Node) : elements (l1 ++ l2) = elements l1 ++ elements l2.
Proof. apply flat_map_app. Qed.

Lemma elements_cons n (l : list Node) : elements (n :: l) = elements_of n ++ elements l.
Proof. reflexivity. Qed.

Lemma elements_of_element e childNodes :
  elements_of (ElementNode e childNodes) = (e, childNodes) :: elements childNodes.
Proof. reflexivity. Qed.

(** [replace_first_in] on an element is [replace_first] on its children. *)
Lemma replace_first_in_element p g e childNodes :
  replace_first_in p g (ElementNode e childNodes)
  = if p e then Some (g e childNodes)
    else (fun cs => [ElementNode e cs]) <$> replace_first p g childNodes.
Proof.
  simpl. destruct (p e); [reflexivity|]. f_equal.
  induction childNodes as [|c cs IH]; simpl; [reflexivity|]. now rewrite IH.
Qed.





(** *** What the two methods keep of the elements *)

(** A property of elements that the writes of [clearErrors] and
    [displayErrors] keep, and that the element [displayErrors] creates
    has. *)
Section Kept.
Variable Q : Element -> Prop.
Local Abbreviation all l := (Forall (fun ec : Element * list Node => Q (fst ec)) l).

Section Clearing.
Hypothesis remove_keeps : forall e, Q e -> Q (classList_remove "error" e).
Hypothesis display_keeps : forall d e, Q e -> Q (set_display d e).



End Clearing.

Section Replacing.
Variables (p : Element -> bool) (g : Element -> list Node -> list Node).
Hypothesis g_keeps :
  forall e childNodes,
    p e = true -> all (elements_of (ElementNode e childNodes)) -> all (elements (g e childNodes)).




End Replacing.

Hypothesis add_keeps : forall e, Q e -> Q (classList_add "error" e).
Hypothesis display_keeps : forall d e, Q e -> Q (set_display d e).
Hypothesis created : forall fieldName, Q (new_error_element fieldName).




End Kept.







(** The page of the example with two errors shown, and then cleared. *)
Example displayErrors_example :
  displayErrors [("email", "bad"); ("username", "empty")] example_page
  = [ElementNode {| localName := "form"; id := None; name_attribute := None;
                    classList := []; style_display := "" |}
       [ElementNode {| localName := "input"; id := None; name_attribute := Some "email";
                       classList := ["error"]; style_display := "" |} [];
        ElementNode {| localName := "span"; id := Some "email-error";
                       name_attribute := None; classList := ["error-message"];
                       style_display := "block" |} [TextNode "bad"];
        ElementNode {| localName := "input"; id := None; name_attribute := Some "username";
                       classList := ["error"]; style_display := "" |} [];
        ElementNode {| localName := "span"; id := Some "username-error";
                       name_attribute := None; classList := ["error-message"];
                       style_display := "block" |} [TextNode "empty"]]].
Proof. reflexivity. Qed.

Example clearErrors_example :
  clearErrors (displayErrors [("email", "bad"); ("username", "empty")] example_page)
  = [ElementNode {| localName := "form"; id := None; name_attribute := None;
                    classList := []; style_display := "" |}
       [example_input "email";
        ElementNode {| localName := "span"; id := Some "email-error";
                       name_attribute := None; classList := ["error-message"];
                       style_display := "none" |} [];
        example_input "username";
        ElementNode {| localName := "span"; id := Some "username-error";
                       name_attribute := None; classList := ["error-message"];
                       style_display := "none" |} []]].
Proof. reflexivity. Qed.

End PageFacts.

(** ** The players-online poller *)

Section StatsFacts.
Import Utils Stats.
Context `{Numbers} {Page : Type}.
Context (render_stats : option number -> number -> Page -> Settled unit * Page).
Context (render_unavailable : option number -> Page -> Settled unit * Page).

Local Abbreviation System := (System (Page := Page)).
Local Abbreviation getOnlinePlayersCount := (getOnlinePlayersCount (Page := Page)).
Local Abbreviation updateStats_resume := (updateStats_resume render_stats render_unavailable).
Local Abbreviation updateStats_begin := (updateStats_begin (Page := Page)).
Local Abbreviation startAutoUpdate := (startAutoUpdate (Page := Page)).
Local Abbreviation stopAutoUpdate := (stopAutoUpdate (Page := Page)).
Local Abbreviation step := (step render_stats render_unavailable).
Local Abbreviation reaches := (reaches render_stats render_unavailable).
Implicit Types (s : System) (fetched : Settled (option Json)).

(** Unfolds the code of the monad. *)
Ltac run_code :=
  unfold Stats.updateStats_resume, Stats.getOnlinePlayersCount, try_finally, try_catch,
    displayStats, displayStatsUnavailable, mbind, M_bind, bind, await, update, read,
    mret, M_ret, ret;
  repeat (case_match; simplify_eq; simpl in * ).

Lemma numeric_onlinePlayers_field (data : option Json) n :
  numeric_onlinePlayers data = Some n <-> payload_onlinePlayers data = Some (JNumber n).
Proof.
  unfold numeric_onlinePlayers, payload_onlinePlayers.
  destruct data as [d|]; [|destruct (truthy None); split; discriminate].
  destruct d; simpl; try (repeat case_match; split; congruence).
Qed.

(** What [getOnlinePlayersCount] returns and leaves, case by case. *)
Lemma getOnlinePlayersCount_rejected e s :
  getOnlinePlayersCount (RejectedWith e) s
  = (Fulfilled (lastKnownCount (this s)),
     emit (LogError "Ошибка при получении статистики игроков:" e) s).
Proof. reflexivity. Qed.

Lemma getOnlinePlayersCount_numeric data n s :
  numeric_onlinePlayers data = Some n ->
  getOnlinePlayersCount (Fulfilled data) s
  = (Fulfilled (Some n), with_this (set_lastKnownCount (Some n) (this s)) s).
Proof. intros Hn. run_code; reflexivity. Qed.

Lemma getOnlinePlayersCount_other data s :
  numeric_onlinePlayers data = None ->
  getOnlinePlayersCount (Fulfilled data) s
  = (Fulfilled (Some (default zero (lastKnownCount (this s)))), s).
Proof. intros Hn. run_code; reflexivity. Qed.

Lemma getOnlinePlayersCount_returns fetched s :
  exists count s', getOnlinePlayersCount fetched s = (Fulfilled count, s').
Proof.
  destruct fetched as [data|e]; [|rewrite getOnlinePlayersCount_rejected; eauto].
  destruct (numeric_onlinePlayers data) as [n|] eqn:Hn.
  - rewrite (getOnlinePlayersCount_numeric data n) by assumption. eauto.
  - rewrite getOnlinePlayersCount_other by assumption. eauto.
Qed.

(** [getOnlinePlayersCount] leaves the flag, the page, the suspended cycles
    and the timers as they are, and a known count known. *)
Lemma getOnlinePlayersCount_frame fetched s :
  let s' := snd (getOnlinePlayersCount fetched s) in
  isUpdating (this s') = isUpdating (this s)
  /\ awaiting s' = awaiting s /\ page s' = page s /\ timers s' = timers s
  /\ updateInterval (this s') = updateInterval (this s)
  /\ apiEndpoint (this s') = apiEndpoint (this s)
  /\ (is_Some (lastKnownCount (this s)) -> is_Some (lastKnownCount (this s'))).
Proof.
  destruct fetched as [data|e]; [|rewrite getOnlinePlayersCount_rejected; simpl; tauto].
  destruct (numeric_onlinePlayers data) as [n|] eqn:Hn.
  - rewrite (getOnlinePlayersCount_numeric data n) by assumption. simpl. eauto 10.
  - rewrite getOnlinePlayersCount_other by assumption. simpl. tauto.
Qed.

(** [updateStats], from its [await] on, clears the flag however it ends and
    leaves the suspended cycles, the timers and a known count as they
    are. *)
Lemma updateStats_resume_frame fetched s :
  let s' := snd (updateStats_resume fetched s) in
  isUpdating (this s') = false
  /\ awaiting s' = awaiting s /\ timers s' = timers s
  /\ updateInterval (this s') = updateInterval (this s)
  /\ (is_Some (lastKnownCount (this s)) -> is_Some (lastKnownCount (this s'))).
Proof.
  pose proof (getOnlinePlayersCount_frame fetched s) as Hg.
  destruct (getOnlinePlayersCount_returns fetched s) as (count & s1 & Hs1).
  unfold Stats.updateStats_resume, try_finally, try_catch, mbind, M_bind, bind.
  rewrite Hs1 in *. cbn [fst snd] in Hg. destruct Hg as (Hu & Ha & Hp & Ht & Hi & He & Hl).
  unfold displayStats, displayStatsUnavailable, update.
  destruct count as [c|];
    repeat (match goal with
            | |- context [render_stats ?a ?b ?c] => destruct (render_stats a b c) as [[[]|?] ?]
            | |- context [render_unavailable ?a ?b] => destruct (render_unavailable a b) as [[[]|?] ?]
            end; cbn);
    split_and!; auto.
Qed.

Lemma stopAutoUpdate_frame s :
  isUpdating (this (stopAutoUpdate s)) = isUpdating (this s)
  /\ awaiting (stopAutoUpdate s) = awaiting s
  /\ lastKnownCount (this (stopAutoUpdate s)) = lastKnownCount (this s).
Proof. unfold Stats.stopAutoUpdate. destruct (updateInterval (this s)); simpl; tauto. Qed.

(** The guard of [updateStats]. *)
Lemma updateStats_begin_busy s : isUpdating (this s) = true -> updateStats_begin s = s.
Proof. unfold Stats.updateStats_begin. now intros ->. Qed.

Lemma updateStats_begin_idle s :
  isUpdating (this s) = false ->
  isUpdating (this (updateStats_begin s)) = true
  /\ awaiting (updateStats_begin s) = awaiting s ++ [apiEndpoint (this s)]
  /\ effects (updateStats_begin s) = effects s ++ [FetchBegan (apiEndpoint (this s))]
  /\ page (updateStats_begin s) = page s
  /\ lastKnownCount (this (updateStats_begin s)) = lastKnownCount (this s).
Proof. unfold Stats.updateStats_begin. intros ->. simpl. tauto. Qed.

Lemma one_cycle_begin s : one_cycle s -> one_cycle (updateStats_begin s).
Proof.
  intros [Hlen Hflag]. destruct (isUpdating (this s)) eqn:Hu.
  - rewrite updateStats_begin_busy by assumption. split; [assumption|]. now rewrite Hu.
  - destruct (updateStats_begin_idle s Hu) as (Hu' & Ha' & _).
    assert (awaiting s = []) as Hnil.
    { destruct (awaiting s); [reflexivity|]. destruct Hflag as [_ Hf].
      discriminate Hf. discriminate. }
    unfold one_cycle. rewrite Hu', Ha', Hnil. simpl. split; [lia|]. split; [discriminate|auto].
Qed.

Lemma one_cycle_step s l s' : step s l s' -> one_cycle s -> one_cycle s'.
Proof.
  intros Hstep Hinv. destruct Hstep as [s|s interval|s|s endpoint|s url rest w Hawait].
  - now apply one_cycle_begin.
  - unfold Stats.startAutoUpdate.
    set (s1 := Stats.emit _ (stopAutoUpdate s)).
    assert (one_cycle s1) as H1.
    { destruct (stopAutoUpdate_frame s) as (Hu & Ha & _).
      unfold one_cycle, s1. simpl. rewrite Hu, Ha. exact Hinv. }
    apply one_cycle_begin in H1. exact H1.
  - destruct (stopAutoUpdate_frame s) as (Hu & Ha & _).
    unfold one_cycle. rewrite Hu, Ha. exact Hinv.
  - exact Hinv.
  - destruct Hinv as [Hlen _]. rewrite Hawait in Hlen. simpl in Hlen.
    assert (rest = []) as -> by (destruct rest; [reflexivity | simpl in Hlen; lia]).
    destruct (updateStats_resume_frame (fst (fetchWithErrorHandling w url))
                (with_awaiting [] s)) as (Hu & Ha & _).
    unfold one_cycle. rewrite Hu, Ha. simpl. split; [lia|]. split; [discriminate|congruence].
Qed.

Lemma one_cycle_reaches endpoint (p : Page) s :
  reaches (initial endpoint p) s -> one_cycle s.
Proof.
  induction 1 as [|s1 l s2 _ IH Hstep].
  - unfold one_cycle. simpl. split; [lia|]. split; [discriminate|congruence].
  - exact (one_cycle_step _ _ _ Hstep IH).
Qed.

Lemma known_count_step s l s' :
  step s l s' -> is_Some (lastKnownCount (this s)) -> is_Some (lastKnownCount (this s')).
Proof.
  intros Hstep Hk. destruct Hstep as [s|s interval|s|s endpoint|s url rest w Hawait].
  - destruct (isUpdating (this s)) eqn:Hu.
    + now rewrite updateStats_begin_busy.
    + destruct (updateStats_begin_idle s Hu) as (_ & _ & _ & _ & ->). exact Hk.
  - unfold Stats.startAutoUpdate. simpl.
    set (s1 := Stats.emit _ (stopAutoUpdate s)).
    assert (is_Some (lastKnownCount (this s1))) as H1.
    { destruct (stopAutoUpdate_frame s) as (_ & _ & Hl). unfold s1. simpl. now rewrite Hl. }
    destruct (isUpdating (this s1)) eqn:Hu.
    + now rewrite updateStats_begin_busy.
    + destruct (updateStats_begin_idle s1 Hu) as (_ & _ & _ & _ & ->). exact H1.
  - destruct (stopAutoUpdate_frame s) as (_ & _ & ->). exact Hk.
  - exact Hk.
  - destruct (updateStats_resume_frame (fst (fetchWithErrorHandling w url))
                (with_awaiting rest s)) as (_ & _ & _ & _ & Hl).
    apply Hl. exact Hk.
Qed.

(** C9. In every state the module passes through after its construction,
    at most one update cycle is suspended at its [await], and [isUpdating]
    is set exactly while one is: no two cycles overlap.  A call of
    [updateStats] that finds the flag set changes nothing (no fetch begins,
    the page and the effects stay as they are); a call that finds it clear
    sets it and begins one fetch; and a cycle that resumes, whatever the
    fetch settled to and whether or not rendering throws, ends with the
    flag clear. *)
Theorem updateStats_cycles_never_overlap (endpoint : string) (p : Page) s :
  reaches (initial endpoint p) s ->
  length (awaiting s) <= 1
  /\ (isUpdating (this s) = true <-> awaiting s <> [])
  /\ (isUpdating (this s) = true -> Stats.updateStats_begin s = s)
  /\ (isUpdating (this s) = false ->
      isUpdating (this (Stats.updateStats_begin s)) = true
      /\ awaiting (Stats.updateStats_begin s) = [apiEndpoint (this s)]
      /\ effects (Stats.updateStats_begin s)
         = effects s ++ [FetchBegan (apiEndpoint (this s))]
      /\ page (Stats.updateStats_begin s) = page s)
  /\ (forall fetched s0,
        isUpdating (this (snd (updateStats_resume fetched s0))) = false
        /\ awaiting (snd (updateStats_resume fetched s0)) = awaiting s0).
Proof.
  intros [Hlen Hflag]%one_cycle_reaches. split_and!; try assumption.
  - apply updateStats_begin_busy.
  - intros Hu. destruct (updateStats_begin_idle s Hu) as (Hu' & Ha' & He' & Hp' & _).
    assert (awaiting s = []) as Hnil.
    { destruct (awaiting s); [reflexivity|]. destruct Hflag as [_ Hf].
      rewrite Hf in Hu; discriminate. }
    rewrite Hnil in Ha'. auto.
  - intros fetched s0. destruct (updateStats_resume_frame fetched s0) as (Hu & Ha & _). auto.
Qed.

(** C10. [getOnlinePlayersCount] always returns and never throws.  When the
    fetch failed it returns the last known count, [null] when there is
    none; when the fetch succeeded and the payload has no numeric
    [onlinePlayers] field it returns the last known count, or 0 when there
    is none; when the payload has one it returns it and records it.  And
    along every run of the module, a last known count that is a number
    stays a number: it is never set back to [null]. *)
Theorem getOnlinePlayersCount_never_throws :
  (forall fetched s, exists count, fst (Stats.getOnlinePlayersCount fetched s) = Fulfilled count)
  /\ (forall e s,
        fst (Stats.getOnlinePlayersCount (RejectedWith e) s)
        = Fulfilled (lastKnownCount (this s))
        /\ this (snd (Stats.getOnlinePlayersCount (RejectedWith e) s)) = this s)
  /\ (forall data s,
        (forall n, payload_onlinePlayers data <> Some (JNumber n)) ->
        Stats.getOnlinePlayersCount (Fulfilled data) s
        = (Fulfilled (Some (default zero (lastKnownCount (this s)))), s))
  /\ (forall data n s,
        payload_onlinePlayers data = Some (JNumber n) ->
        fst (Stats.getOnlinePlayersCount (Fulfilled data) s) = Fulfilled (Some n)
        /\ lastKnownCount (this (snd (Stats.getOnlinePlayersCount (Fulfilled data) s)))
           = Some n)
  /\ (forall s s',
        reaches s s' ->
        is_Some (lastKnownCount (this s)) -> is_Some (lastKnownCount (this s'))).
Proof.
  split_and!.
  - intros fetched s. destruct (getOnlinePlayersCount_returns fetched s) as (count & s' & ->).
    eauto.
  - intros e s. now rewrite getOnlinePlayersCount_rejected.
  - intros data s Hno. apply getOnlinePlayersCount_other.
    destruct (numeric_onlinePlayers data) as [n|] eqn:Hn; [|reflexivity].
    apply numeric_onlinePlayers_field in Hn. now destruct (Hno n).
  - intros data n s Hn%numeric_onlinePlayers_field.
    now rewrite (getOnlinePlayersCount_numeric data n).
  - intros s s' Hreach Hk. induction Hreach as [|s1 l s2 _ IH Hstep]; [assumption|].
    exact (known_count_step _ _ _ Hstep IH).
Qed.

End StatsFacts.

Section StatsWitnesses.
Import Utils Stats.

Lemma polling_system_reached :
  reaches (H := integer_numbers) text_render_stats text_render_unavailable
    (initial default_endpoint EmptyString) polling_system.
Proof. eapply reaches_step; [apply reaches_refl | apply step_update]. Defined.

Lemma updateStats_cycles_witness :
  length (awaiting polling_system) <= 1
  /\ (isUpdating (this polling_system) = true <-> awaiting polling_system <> [])
  /\ (isUpdating (this polling_system) = true ->
      updateStats_begin polling_system = polling_system)
  /\ (isUpdating (this polling_system) = false ->
      isUpdating (this (updateStats_begin polling_system)) = true
      /\ awaiting (updateStats_begin polling_system) = [apiEndpoint (this polling_system)]
      /\ effects (updateStats_begin polling_system)
         = effects polling_system ++ [FetchBegan (apiEndpoint (this polling_system))]
      /\ page (updateStats_begin polling_system) = page polling_system)
  /\ (forall fetched s0,
        isUpdating
          (this (snd (updateStats_resume (H := integer_numbers) text_render_stats text_render_unavailable fetched s0)))
        = false
        /\ awaiting (snd (updateStats_resume (H := integer_numbers) text_render_stats text_render_unavailable fetched s0))
           = awaiting s0).
Proof.
  apply (updateStats_cycles_never_overlap (H := integer_numbers)
           text_render_stats text_render_unavailable default_endpoint EmptyString
           polling_system).
  exact polling_system_reached.
Defined.

(** One cycle, written out: a tick, a second tick while the first is
    suspended, and the answer of the server. *)
Example polling_example :
  updateStats_begin polling_system = polling_system
  /\ awaiting polling_system = [default_endpoint]
  /\ isUpdating (this polling_system) = true
  /\ snd (updateStats_resume (H := integer_numbers) text_render_stats text_render_unavailable
            (fst (fetchWithErrorHandling answering_world default_endpoint))
            (with_awaiting [] polling_system))
     = {| this := {| apiEndpoint := default_endpoint; updateInterval := None;
                     lastKnownCount := Some (42%Z : @number integer_numbers);
                     isUpdating := false |};
          page := "42"; awaiting := []; timers := 0;
          effects := [FetchBegan default_endpoint] |}.
Proof. split_and!; reflexivity. Qed.

End StatsWitnesses.

(** ** The interval timer and the rendering of the counter *)

Section TimerFacts.
Import Utils Stats Rendering.
Context `{Numbers} {Page : Type}.
Context (render_stats : option number -> number -> Page -> Settled unit * Page).
Context (render_unavailable : option number -> Page -> Settled unit * Page).

Local Abbreviation System := (System (Page := Page)).
Local Abbreviation updateStats_resume := (updateStats_resume render_stats render_unavailable).
Local Abbreviation step := (step render_stats render_unavailable).
Local Abbreviation reaches := (reaches render_stats render_unavailable).
Implicit Types (s : System) (fetched : Settled (option Json)).

Lemma live_timers_app (l1 l2 : list Effect) live :
  live_timers (l1 ++ l2) live = live_timers l2 (live_timers l1 live).
Proof.
  revert live. induction l1 as [|e l1 IH]; intros live; [reflexivity|].
  destruct e; simpl; apply IH.
Qed.

Lemma getOnlinePlayersCount_effects fetched s :
  effects (snd (Stats.getOnlinePlayersCount fetched s))
  = effects s
    ++ match fetched with
       | RejectedWith e => [LogError "Ошибка при получении статистики игроков:" e]
       | Fulfilled _ => []
       end.
Proof.
  destruct fetched as [data|e]; [|now rewrite getOnlinePlayersCount_rejected].
  rewrite app_nil_r. destruct (numeric_onlinePlayers data) as [n|] eqn:Hn.
  - now rewrite (getOnlinePlayersCount_numeric data n).
  - now rewrite getOnlinePlayersCount_other.
Qed.

(** A cycle that resumes adds console lines only. *)
Lemma updateStats_resume_effects fetched s :
  exists lines,
    effects (snd (updateStats_resume fetched s)) = effects s ++ lines
    /\ Forall (fun e => exists label err, e = LogError label err) lines.
Proof.
  pose proof (getOnlinePlayersCount_effects fetched s) as He.
  destruct (getOnlinePlayersCount_returns fetched s) as (count & s1 & Hs1).
  unfold Stats.updateStats_resume, try_finally, try_catch, mbind, M_bind, bind.
  rewrite Hs1 in *. cbn [fst snd] in He.
  assert (exists lines1, effects s1 = effects s ++ lines1
            /\ Forall (fun e => exists label err, e = LogError label err) lines1)
    as (lines1 & Hl1 & Hf1).
  { eexists. split; [exact He|]. destruct fetched; repeat constructor; eauto. }
  unfold displayStats, displayStatsUnavailable, update.
  destruct count as [c|];
    repeat (match goal with
            | |- context [render_stats ?a ?b ?c] =>
                destruct (render_stats a b c) as [[[]|?] ?]
            | |- context [render_unavailable ?a ?b] =>
                destruct (render_unavailable a b) as [[[]|?] ?]
            end; cbn);
    rewrite ?Hl1;
    try (exists lines1; split; [reflexivity | assumption]);
    (eexists (lines1 ++ [_]); split; [now rewrite app_assoc|];
     apply Forall_app; split; [assumption | repeat constructor; eauto]).
Qed.

Lemma live_timers_lines (lines : list Effect) live :
  Forall (fun e => exists label err, e = LogError label err) lines ->
  live_timers lines live = live.
Proof. induction 1 as [|e l (label & err & ->) _ IH]; [reflexivity | exact IH]. Qed.

(** X1. Along every run of the module from its construction, the interval
    timers that were set and not cleared since are exactly the one
    [updateInterval] holds: none when it is [null], never two. *)
Theorem one_interval_timer (endpoint : string) (p : Page) s :
  reaches (initial endpoint p) s ->
  live_timers (effects s) [] = option_list (updateInterval (this s)).
Proof.
  induction 1 as [|s1 l s2 _ IH Hstep]; [reflexivity|].
  destruct Hstep as [s|s interval|s|s endpoint'|s url rest w Hawait].
  - unfold Stats.updateStats_begin. destruct (isUpdating (this s)); [assumption|].
    cbn. rewrite live_timers_app, IH. reflexivity.
  - unfold Stats.startAutoUpdate, Stats.stopAutoUpdate, Stats.updateStats_begin.
    destruct (updateInterval (this s)) as [t|] eqn:Ht; cbn in *;
      destruct (isUpdating (this s)); cbn;
      repeat rewrite live_timers_app; rewrite ?IH; cbn;
      rewrite ?Nat.eqb_refl; reflexivity.
  - unfold Stats.stopAutoUpdate.
    destruct (updateInterval (this s)) as [t|] eqn:Ht; cbn in *; [|now rewrite Ht].
    repeat rewrite live_timers_app. rewrite IH. cbn. now rewrite Nat.eqb_refl.
  - exact IH.
  - destruct (updateStats_resume_effects (fst (fetchWithErrorHandling w url))
                (with_awaiting rest s)) as (lines & -> & Hlines).
    destruct (updateStats_resume_frame render_stats render_unavailable
                (fst (fetchWithErrorHandling w url)) (with_awaiting rest s))
      as (_ & _ & _ & -> & _).
    cbn. rewrite live_timers_app, IH. now apply live_timers_lines.
Qed.

Lemma page_untouched_by_calls s l s' :
  step s l s' -> (forall w, l <> FetchSettles w) -> page s' = page s.
Proof.
  intros Hstep Hl. destruct Hstep as [s|s interval|s|s endpoint'|s url rest w Hawait].
  - unfold Stats.updateStats_begin. now destruct (isUpdating (this s)).
  - unfold Stats.startAutoUpdate, Stats.stopAutoUpdate, Stats.updateStats_begin.
    destruct (updateInterval (this s)); cbn; now destruct (isUpdating (this s)).
  - unfold Stats.stopAutoUpdate. now destruct (updateInterval (this s)).
  - reflexivity.
  - now destruct (Hl w).
Qed.

(** What every resumed cycle keeps of the page, every run keeps. *)
Lemma page_invariant (Q : Page -> Prop) :
  (forall fetched s, Q (page s) -> Q (page (snd (updateStats_resume fetched s)))) ->
  forall s s', reaches s s' -> Q (page s) -> Q (page s').
Proof.
  intros Hresume s s' Hreach Hq. induction Hreach as [|s1 l s2 _ IH Hstep]; [assumption|].
  destruct l as [| | | |w];
    try (rewrite (page_untouched_by_calls _ _ _ Hstep) by discriminate; exact IH).
  inversion Hstep as [| | | |? url rest ? Hawait]; subst.
  apply Hresume. exact IH.
Qed.

End TimerFacts.

Section TimerWitnesses.
Import Utils Stats Rendering.

Lemma started_twice_reached :
  reaches (H := integer_numbers)
    (render_stats (H0 := integer_text)) (render_unavailable (H0 := integer_text))
    (initial default_endpoint example_stats_page) started_twice.
Proof.
  eapply reaches_step; [eapply reaches_step; [apply reaches_refl|]|]; apply step_start.
Defined.

Lemma one_interval_timer_witness :
  live_timers (effects started_twice) [] = option_list (updateInterval (this started_twice)).
Proof.
  apply (one_interval_timer (H := integer_numbers)
           (render_stats (H0 := integer_text)) (render_unavailable (H0 := integer_text))
           default_endpoint example_stats_page started_twice).
  exact started_twice_reached.
Defined.

(** The two starts, written out: the first timer is cleared before the
    second is set, and the second start begins no second fetch. *)
Example started_twice_example :
  effects started_twice
  = [LogStart 60000; FetchBegan default_endpoint; SetInterval 1 60000;
     ClearInterval 1; LogInfo "Автоматическое обновление статистики остановлено";
     LogStart 60000; SetInterval 2 60000]
  /\ updateInterval (this started_twice) = Some 2.
Proof. split; reflexivity. Qed.

End TimerWitnesses.

Section ClassListFacts.
Import ClassList.

Lemma elem_of_class_add c c' l : c ∈ class_add c' l <-> c = c' \/ c ∈ l.
Proof.
  unfold class_add. case_bool_decide as Hc.
  - split; [auto|]. intros [->|?]; assumption.
  - rewrite elem_of_app, list_elem_of_singleton. tauto.
Qed.

Lemma elem_of_class_remove c c' l : c ∈ class_remove c' l <-> c <> c' /\ c ∈ l.
Proof.
  unfold class_remove.
  rewrite !list_elem_of_In, filter_In, negb_true_iff, bool_decide_eq_false. tauto.
Qed.

Lemma class_add_idemp c l : class_add c (class_add c l) = class_add c l.
Proof.
  unfold class_add at 1. rewrite bool_decide_eq_true_2; [reflexivity|].
  apply elem_of_class_add. now left.
Qed.

Lemma class_remove_idemp c l : class_remove c (class_remove c l) = class_remove c l.
Proof.
  unfold class_remove. induction l as [|c' l IH]; simpl; [reflexivity|].
  destruct (negb (bool_decide (c' = c))) eqn:Hc; simpl; [|assumption].
  now rewrite Hc, IH.
Qed.

End ClassListFacts.

Section RenderingFacts.
Import Utils Stats ClassList Rendering.
Context `{NumberText}.

Local Abbreviation StatsPage := (StatsPage (H := H)).
Local Abbreviation System := (System (Page := StatsPage)).
Local Abbreviation resume := (updateStats_resume render_stats render_unavailable).
Local Abbreviation step := (step render_stats render_unavailable).
Local Abbreviation reaches := (reaches render_stats render_unavailable).
Implicit Types (s : System) (p : StatsPage) (fetched : Settled (option Json)).

(** The page a cycle leaves: the count, when there is one, is rendered
    against a last known count that is this very count. *)
Lemma resume_page fetched s :
  resume fetched s
  = (Fulfilled tt,
     with_this (set_isUpdating false (this (snd (Stats.getOnlinePlayersCount fetched s))))
       (with_page
          match cycle_count fetched (lastKnownCount (this s)) with
          | Some c =>
              displayStats_on
                (lastKnownCount (this (snd (Stats.getOnlinePlayersCount fetched s)))) c (page s)
          | None => displayStatsUnavailable_on None (page s)
          end
          (snd (Stats.getOnlinePlayersCount fetched s)))).
Proof.
  unfold Stats.updateStats_resume, try_finally, try_catch, mbind, M_bind, bind,
    displayStats, displayStatsUnavailable, render_stats, render_unavailable.
  destruct fetched as [data|e].
  - destruct (numeric_onlinePlayers data) as [n|] eqn:Hn.
    + rewrite (getOnlinePlayersCount_numeric data n) by assumption.
      cbn. now rewrite Hn.
    + rewrite getOnlinePlayersCount_other by assumption. cbn. now rewrite Hn.
  - rewrite getOnlinePlayersCount_rejected. cbn.
    destruct (lastKnownCount (this s)) eqn:Hl; cbn; rewrite ?Hl; reflexivity.
Qed.

(** In a cycle the last known count, when there is one, is the count
    rendered. *)
Lemma resume_last_is_count fetched s c :
  cycle_count fetched (lastKnownCount (this s)) = Some c ->
  lastKnownCount (this (snd (Stats.getOnlinePlayersCount fetched s))) = Some c
  \/ lastKnownCount (this (snd (Stats.getOnlinePlayersCount fetched s))) = None.
Proof.
  destruct fetched as [data|e]; cbn [cycle_count].
  - destruct (numeric_onlinePlayers data) as [n|] eqn:Hn; intros [= <-].
    + rewrite (getOnlinePlayersCount_numeric data n) by assumption. now left.
    + rewrite getOnlinePlayersCount_other by assumption. cbn [snd].
      destruct (lastKnownCount (this s)); [now left | now right].
  - rewrite getOnlinePlayersCount_rejected. cbn. intros ->. now left.
Qed.

Lemma updateTimestamp_counter p : player_stats (updateTimestamp p) = player_stats p.
Proof. unfold updateTimestamp. now destruct (stats_timestamp p). Qed.

Lemma updateTimestamp_timers p : animation_timers (updateTimestamp p) = animation_timers p.
Proof. unfold updateTimestamp. now destruct (stats_timestamp p). Qed.

(** Rendering a count that is the last known one, or the first one. *)
Lemma displayStats_on_same (last : option number) c p :
  last = Some c \/ last = None ->
  number_isNaN c = false ->
  displayStats_on last c p
  = match player_stats p with
    | None => p
    | Some el =>
        updateTimestamp
          (with_counter
             {| counter_text := number_to_string c;
                counter_classes :=
                  class_add "active"
                    (class_remove "unavailable"
                       (class_remove "error" (counter_classes el))) |} p)
    end.
Proof.
  intros Hlast Hnan. unfold displayStats_on. destruct (player_stats p) as [el|]; [|reflexivity].
  rewrite Hnan. destruct Hlast as [-> | ->]; [|reflexivity].
  now rewrite number_equal_refl.
Qed.

Lemma displayStatsUnavailable_on_still last p :
  never_animated p -> never_animated (displayStatsUnavailable_on last p).
Proof.
  intros [Ht Hu]. unfold displayStatsUnavailable_on.
  destruct (player_stats p) as [el|] eqn:Hel; [|now split; [|rewrite Hel]].
  split; [exact Ht|]. intros el' [= <-]. specialize (Hu el eq_refl).
  destruct last; cbn [counter_classes counter_text];
    rewrite elem_of_class_remove, elem_of_class_add;
    intros [_ [?|?]]; auto; discriminate.
Qed.

Lemma displayStats_on_still (last : option number) c p :
  last = Some c \/ last = None ->
  never_animated p -> never_animated (displayStats_on last c p).
Proof.
  intros Hlast Hp. destruct (number_isNaN c) eqn:Hnan.
  - unfold displayStats_on. destruct (player_stats p) as [el|] eqn:Hel; [|assumption].
    rewrite Hnan. apply displayStatsUnavailable_on_still.
    destruct Hp as [Ht Hu]. split; [exact Ht|]. exact Hu.
  - rewrite displayStats_on_same by assumption.
    destruct Hp as [Ht Hu]. destruct (player_stats p) as [el|] eqn:Hel; [|now split; [|rewrite Hel]].
    split; [now rewrite updateTimestamp_timers|].
    rewrite updateTimestamp_counter. intros el' [= <-]. specialize (Hu el eq_refl).
    cbn [counter_classes].
    rewrite elem_of_class_add, !elem_of_class_remove. intros [?|(_ & _ & ?)]; auto; discriminate.
Qed.

Lemma resume_still fetched s :
  never_animated (page s) -> never_animated (page (snd (resume fetched s))).
Proof.
  intros Hp. rewrite resume_page. cbn [snd].
  assert (page (snd (Stats.getOnlinePlayersCount fetched s)) = page s) as Hpage.
  { now destruct (getOnlinePlayersCount_frame (Page := StatsPage) fetched s) as (_ & _ & -> & _). }
  cbn. destruct (cycle_count fetched (lastKnownCount (this s))) as [c|] eqn:Hc.
  - apply displayStats_on_still; [|assumption].
    destruct (resume_last_is_count fetched s c Hc); auto.
  - now apply displayStatsUnavailable_on_still.
Qed.

Lemma displayStatsUnavailable_on_consistent last p :
  classes_consistent p -> classes_consistent (displayStatsUnavailable_on last p).
Proof.
  intros Hp. unfold displayStatsUnavailable_on.
  destruct (player_stats p) as [el|] eqn:Hel; [|assumption].
  intros el' [= <-]. cbn [counter_classes]. rewrite elem_of_class_remove.
  intros [Hne _]. now destruct Hne.
Qed.

Lemma displayStats_on_consistent last c p :
  classes_consistent p -> classes_consistent (displayStats_on last c p).
Proof.
  intros Hp. unfold displayStats_on.
  destruct (player_stats p) as [el|] eqn:Hel; [|assumption].
  destruct (number_isNaN c).
  - apply displayStatsUnavailable_on_consistent. intros el' Hel'. apply Hp. exact Hel'.
  - intros el'. rewrite updateTimestamp_counter.
    destruct (match last with Some l => negb (number_equal l c) | None => false end);
      cbn [player_stats with_counter set_animation_timer]; intros [= <-] _;
      cbn [counter_classes];
      rewrite !elem_of_class_add, !elem_of_class_remove;
      split; intros Hin; decompose [and or] Hin; congruence.
Qed.

Lemma resume_consistent fetched s :
  classes_consistent (page s) -> classes_consistent (page (snd (resume fetched s))).
Proof.
  intros Hp. rewrite resume_page. cbn [snd].
  assert (page (snd (Stats.getOnlinePlayersCount fetched s)) = page s) as Hpage.
  { now destruct (getOnlinePlayersCount_frame (Page := StatsPage) fetched s) as (_ & _ & -> & _). }
  cbn. destruct (cycle_count fetched (lastKnownCount (this s))) as [c|].
  - now apply displayStats_on_consistent.
  - now apply displayStatsUnavailable_on_consistent.
Qed.

Lemma resume_shows fetched s el :
  player_stats (page s) = Some el ->
  match cycle_count fetched (lastKnownCount (this s)) with
  | Some c => number_isNaN c = false -> shows_live (page (snd (resume fetched s))) c
  | None => shows_unavailable (page (snd (resume fetched s)))
  end.
Proof.
  intros Hel. rewrite resume_page. cbn [snd].
  assert (page (snd (Stats.getOnlinePlayersCount fetched s)) = page s) as Hpage.
  { now destruct (getOnlinePlayersCount_frame (Page := StatsPage) fetched s) as (_ & _ & -> & _). }
  cbn. destruct (cycle_count fetched (lastKnownCount (this s))) as [c|] eqn:Hc.
  - intros Hnan. rewrite displayStats_on_same, Hel; [|destruct (resume_last_is_count fetched s c Hc); auto|assumption].
    eexists. rewrite updateTimestamp_counter. split; [reflexivity|]. cbn [counter_text counter_classes].
    rewrite !elem_of_class_add, !elem_of_class_remove.
    split_and!; try reflexivity; try (now left);
      intros Hin; decompose [and or] Hin; congruence.
  - unfold displayStatsUnavailable_on. rewrite Hel. eexists. split; [reflexivity|].
    cbn [counter_text counter_classes]. rewrite !elem_of_class_remove, !elem_of_class_add.
    split_and!; try reflexivity; try discriminate; try (now left).
    intros [Hne _]. now destruct Hne.
Qed.

(** X2. What the counter shows after an update cycle, when the page has
    the counter.  A payload with a numeric [onlinePlayers] shows that
    number as live.  A failed fetch with a last known count shows that
    count as live too, with no mark of staleness; with none it shows that
    the count is unavailable.  A payload without a numeric field, when no
    count is known, shows zero as live. *)
Theorem cycle_renders_the_count s el :
  player_stats (page s) = Some el ->
  (forall data n,
     payload_onlinePlayers data = Some (JNumber n) -> number_isNaN n = false ->
     shows_live
       (page (snd (Stats.updateStats_resume render_stats render_unavailable
                     (Fulfilled data) s))) n)
  /\ (forall e n,
        lastKnownCount (this s) = Some n -> number_isNaN n = false ->
        shows_live
          (page (snd (Stats.updateStats_resume render_stats render_unavailable
                        (RejectedWith e) s))) n)
  /\ (forall e,
        lastKnownCount (this s) = None ->
        shows_unavailable
          (page (snd (Stats.updateStats_resume render_stats render_unavailable
                        (RejectedWith e) s))))
  /\ (forall data,
        (forall n, payload_onlinePlayers data <> Some (JNumber n)) ->
        lastKnownCount (this s) = None -> number_isNaN zero = false ->
        shows_live
          (page (snd (Stats.updateStats_resume render_stats render_unavailable
                        (Fulfilled data) s))) zero).
Proof.
  intros Hel. split_and!.
  - intros data n Hn%numeric_onlinePlayers_field Hnan.
    pose proof (resume_shows (Fulfilled data) s el Hel) as Hs.
    cbn [cycle_count] in Hs. rewrite Hn in Hs. auto.
  - intros e n Hlast Hnan. pose proof (resume_shows (RejectedWith e) s el Hel) as Hs.
    cbn [cycle_count] in Hs. rewrite Hlast in Hs. auto.
  - intros e Hlast. pose proof (resume_shows (RejectedWith e) s el Hel) as Hs.
    cbn [cycle_count] in Hs. now rewrite Hlast in Hs.
  - intros data Hno Hlast Hnan. pose proof (resume_shows (Fulfilled data) s el Hel) as Hs.
    cbn [cycle_count] in Hs.
    destruct (numeric_onlinePlayers data) as [n|] eqn:Hn.
    + apply numeric_onlinePlayers_field in Hn. now destruct (Hno n).
    + rewrite Hlast in Hs. auto.
Qed.

(** X3. An update cycle that resumes never throws, whatever the fetch
    settled to: with the rendering methods of the source the [catch] of
    [updateStats] is never entered, and the only console line of the
    cycle is that of a failed fetch.  And no run of the module starts the
    change animation: the class [updated] is never added and its timer
    never set. *)
Theorem cycle_never_throws_or_animates :
  (forall fetched s,
     fst (Stats.updateStats_resume render_stats render_unavailable fetched s) = Fulfilled tt)
  /\ (forall fetched s,
        effects (snd (Stats.updateStats_resume render_stats render_unavailable fetched s))
        = effects s
          ++ match fetched with
             | RejectedWith e => [LogError "Ошибка при получении статистики игроков:" e]
             | Fulfilled _ => []
             end)
  /\ (forall endpoint p s,
        never_animated p ->
        Stats.reaches render_stats render_unavailable (initial endpoint p) s ->
        never_animated (page s)).
Proof.
  split_and!.
  - intros fetched s. now rewrite resume_page.
  - intros fetched s. rewrite resume_page. cbn.
    apply (getOnlinePlayersCount_effects (Page := StatsPage)).
  - intros endpoint p s Hp Hreach.
    apply (page_invariant render_stats render_unavailable never_animated resume_still
             _ _ Hreach). exact Hp.
Qed.

(** X4. Along every run of the module on a page whose counter is not both
    live and failed, the counter never carries the class [active] together
    with [error] or [unavailable]. *)
Theorem counter_classes_stay_consistent (endpoint : string) p s :
  classes_consistent p ->
  Stats.reaches render_stats render_unavailable (initial endpoint p) s ->
  classes_consistent (page s).
Proof.
  intros Hp Hreach.
  apply (page_invariant render_stats render_unavailable classes_consistent resume_consistent
           _ _ Hreach). exact Hp.
Qed.

End RenderingFacts.

Section RenderingWitnesses.
Import Utils Stats Rendering.
#[local] Existing Instance integer_numbers.
#[local] Existing Instance integer_text.

Local Abbreviation resume := (updateStats_resume (H := integer_numbers)
  (render_stats (H0 := integer_text)) (render_unavailable (H0 := integer_text))).

Lemma cycle_renders_witness :
  (forall data n,
     payload_onlinePlayers data = Some (JNumber n) -> number_isNaN n = false ->
     shows_live
       (page (snd (resume (Fulfilled data) (initial default_endpoint example_stats_page)))) n)
  /\ (forall e n,
        lastKnownCount (this (initial default_endpoint example_stats_page)) = Some n ->
        number_isNaN n = false ->
        shows_live
          (page (snd (resume (RejectedWith e) (initial default_endpoint example_stats_page)))) n)
  /\ (forall e,
        lastKnownCount (this (initial default_endpoint example_stats_page)) = None ->
        shows_unavailable
          (page (snd (resume (RejectedWith e) (initial default_endpoint example_stats_page)))))
  /\ (forall data,
        (forall n, payload_onlinePlayers data <> Some (JNumber n)) ->
        lastKnownCount (this (initial default_endpoint example_stats_page)) = None ->
        number_isNaN zero = false ->
        shows_live
          (page (snd (resume (Fulfilled data) (initial default_endpoint example_stats_page))))
          zero).
Proof.
  apply (cycle_renders_the_count (H0 := integer_text)
           (initial default_endpoint example_stats_page)
           {| counter_text := ""; counter_classes := [] |}).
  reflexivity.
Defined.

Lemma example_stats_page_consistent : classes_consistent example_stats_page.
Proof. intros el [= <-] Hin. now apply elem_of_nil in Hin. Defined.

Lemma counter_classes_witness : classes_consistent (page started_twice).
Proof.
  apply (counter_classes_stay_consistent (H0 := integer_text)
           default_endpoint example_stats_page started_twice).
  - exact example_stats_page_consistent.
  - exact started_twice_reached.
Defined.

(** A cycle whose fetch fails while 42 is the last known count: the page
    shows 42 as live, with a fresh timestamp. *)
Example stale_count_shown_live :
  page (snd (resume (RejectedWith network_error)
               (with_this (set_lastKnownCount (Some 42%Z)
                             (this (initial default_endpoint example_stats_page)))
                  (initial default_endpoint example_stats_page))))
  = {| player_stats := Some {| counter_text := "42"; counter_classes := ["active"] |};
       stats_timestamp := Some "Обновлено: 12:15";
       timeString := "12:15"; animation_timers := 0; warnings := [] |}.
Proof. reflexivity. Qed.

End RenderingWitnesses.

(** ** Validation of one field while it is edited *)

Section LiveMessageFacts.
Import FormValidator LiveValidation.
Context `{Host}.
Implicit Types (form : Form) (field : Field) (errors : Errors) (v : string).

(** A step that leaves no entry under the key it may write wrote
    nothing. *)
Lemma writes_at_none k errors errors' :
  writes_at k errors errors' -> get_property errors' k = None -> errors' = errors.
Proof.
  intros [->|[v ->]]; [reflexivity|]. now rewrite get_set_eq.
Qed.

(** What a callback of [validate] that leaves no entry has checked. *)
Lemma validate_field_clean formData e1 e2 field v :
  validate_field formData e1 field = Some e2 ->
  get_property e2 (name field) = None ->
  FormData_get formData (name field) = Some v ->
  is_blank (Some v) = false
  /\ (type field = "email" -> validateEmail v = true)
  /\ (forall m, getAttribute field "minlength" = Some m ->
        JS.length_lt (String.length v) (JS.parseInt m) = false).
Proof.
  intros Hf Hnone Hv. unfold validate_field in Hf. rewrite Hv in Hf.
  destruct (is_blank (Some v)) eqn:Hb.
  { injection Hf as <-. now rewrite get_set_eq in Hnone. }
  change (default "" (Some v)) with v in Hf. cbv zeta in Hf.
  pose proof (check_pattern_writes _ _ _ _ Hf) as H4.
  apply writes_at_none in H4 as ->; [|assumption].
  pose proof (check_maxlength_writes field v (check_minlength field v
    (check_password field v (check_email field v e1)))) as H3.
  apply writes_at_none in H3 as H3'; [|assumption]. rewrite H3' in Hnone.
  pose proof (check_minlength_writes field v
    (check_password field v (check_email field v e1))) as H2.
  apply writes_at_none in H2 as H2'; [|assumption].
  pose proof Hnone as Hmin. rewrite H2' in Hnone.
  pose proof (check_password_writes field v (check_email field v e1)) as H1.
  apply writes_at_none in H1 as H1'; [|assumption].
  pose proof Hnone as Hpass. rewrite H1' in Hnone.
  split_and!; [reflexivity| |].
  - intros Ht. unfold check_email in Hnone. rewrite bool_decide_eq_true_2 in Hnone by assumption.
    destruct (validateEmail v); [reflexivity|]. cbn [negb] in Hnone.
    now rewrite get_set_eq in Hnone.
  - intros m Hm. unfold check_minlength in Hmin.
    unfold hasAttribute in Hmin. unfold getAttribute in Hm, Hmin.
    rewrite Hm in Hmin. simpl in Hmin.
    destruct (JS.length_lt _ _); [|reflexivity]. now rewrite get_set_eq in Hmin.
Qed.

(** X5. A required field for which [validate] leaves no entry shows no
    message under [validateField] either, when the field holds the value
    the form submits for it: the three rules of [validateField] are among
    those of [validate]. *)
Theorem validate_clean_is_live_clean form r field v (position : Position) :
  NoDup (name <$> form) ->
  field ∈ form ->
  is_required_control field = true ->
  value field = Some v ->
  validate form = Some r ->
  get_property (errors r) (name field) = None ->
  live_message {| control := field; field_value := v; position := position |} = "".
Proof.
  intros Hnd Hin Hreq Hval [Hloop _]%validate_Some Hnone.
  pose proof (NoDup_names_filter is_required_control form Hnd) as Hnd'.
  fold (querySelectorAll_required form) in Hnd'.
  destruct (forEach_field_at _ _ _ _ field Hnd' (proj2 (elem_of_required form field) (conj Hin Hreq)) Hloop)
    as (e1 & e2 & Hf & _ & He2).
  rewrite He2 in Hnone.
  destruct (FormData_get (FormData form) (name field)) as [v'|] eqn:Hget.
  2:{ rewrite validate_field_blank in Hf by now rewrite Hget.
      injection Hf as <-. now rewrite get_set_eq in Hnone. }
  destruct (validate_field_clean _ _ _ _ _ Hf Hnone Hget) as (Hb & Hemail & Hmin).
  assert (v' = v) as ->.
  { assert (is_blank (FormData_get (FormData form) (name field)) = false) as Hb'
      by now rewrite Hget.
    destruct (FormData_get_not_blank form field Hnd Hin Hb') as [Hname _].
    rewrite FormData_get_value in Hget by assumption. congruence. }
  unfold live_message. cbn [control field_value]. rewrite Hb, andb_false_r.
  case_bool_decide as Ht.
  - rewrite (Hemail Ht), andb_false_r.
    destruct (hasAttribute field "minlength") eqn:Ha; [|reflexivity].
    apply hasAttribute_true in Ha as [m Hm]. rewrite Hm. change (default "" (Some m)) with m.
    cbv zeta. now rewrite (Hmin m Hm), andb_false_r.
  - cbn [andb].
    destruct (hasAttribute field "minlength") eqn:Ha; [|reflexivity].
    apply hasAttribute_true in Ha as [m Hm]. rewrite Hm. change (default "" (Some m)) with m.
    cbv zeta. now rewrite (Hmin m Hm), andb_false_r.
Qed.

End LiveMessageFacts.

Section LiveMessageWitnesses.
Import FormValidator LiveValidation.

Lemma validate_clean_is_live_clean_witness :
  live_message {| control := good_email_field; field_value := "a@b.co"; position := [0] |} = "".
Proof.
  apply (validate_clean_is_live_clean (H := plain_host) [good_email_field]
           {| valid := true; errors := [] |} good_email_field "a@b.co" [0]).
  - apply (bool_decide_unpack _). vm_compute. exact I.
  - constructor.
  - reflexivity.
  - reflexivity.
  - vm_compute. reflexivity.
  - reflexivity.
Defined.

(** The converse fails: [validate] has rules that [validateField] lacks.
    A required field of three characters with [maxlength="2"] is clean
    while edited and rejected on submission. *)
Example live_clean_is_not_validate_clean :
  let field := {| tagName := input;
                  attributes := list_to_map [("name", "nick"); ("required", "");
                                             ("maxlength", "2")];
                  type := "text"; entries := ["abc"] |} in
  live_message {| control := field; field_value := "abc"; position := [0] |} = ""
  /\ (errors <$> validate (H := plain_host) [field])
     = Some [("nick", maxlength_message (Some 2%Z))].
Proof. vm_compute. split; reflexivity. Qed.

End LiveMessageWitnesses.

(** ** The page after [validateField] *)

Section LivePageFacts.
Import FormValidator LiveValidation.
Implicit Types (p : Element -> bool) (g : Element -> list Node -> list Node)
  (f h : Element -> Element) (doc : Document) (n : Node) (position : Position).

(** No element is replaced exactly when none satisfies the test. *)
Lemma replace_first_None_list p g (l : list Node) :
  Forall (fun n => replace_first_in p g n = None
                   <-> Forall (fun ec => p (fst ec) = false) (elements_of n)) l ->
  replace_first p g l = None <-> Forall (fun ec => p (fst ec) = false) (elements l).
Proof.
  induction 1 as [|c l Hc _ IH]; simpl; [split; [constructor|reflexivity]|].
  change (flat_map elements_of l) with (elements l). rewrite Forall_app, <- Hc, <- IH.
  destruct (replace_first_in p g c); [split; [discriminate|intros [[=] _]]|].
  destruct (replace_first p g l); simpl; split; try discriminate; try tauto.
  intros [_ [=]].
Qed.

Lemma replace_first_in_None p g n :
  replace_first_in p g n = None <-> Forall (fun ec => p (fst ec) = false) (elements_of n).
Proof.
  induction n as [data|e childNodes IH] using Node_children_ind;
    [split; [constructor|reflexivity]|].
  rewrite replace_first_in_element, elements_of_element, Forall_cons.
  apply (replace_first_None_list p g) in IH. rewrite <- IH. simpl.
  destruct (p e); [split; [discriminate|intros [[=] _]]|].
  destruct (replace_first p g childNodes); simpl; split; try discriminate; try tauto.
  intros [_ [=]].
Qed.

Lemma replace_first_None p g doc :
  replace_first p g doc = None <-> Forall (fun ec => p (fst ec) = false) (elements doc).
Proof.
  apply replace_first_None_list. apply Forall_forall. intros n _. apply replace_first_in_None.
Qed.

Lemma getElementById_None i doc :
  getElementById i doc = None
  <-> Forall (fun ec => with_id i (fst ec) = false) (elements doc).
Proof.
  unfold getElementById, first_of. induction (elements doc) as [|ec l IH]; simpl.
  - split; [constructor|reflexivity].
  - rewrite Forall_cons. destruct (with_id i (fst ec)); simpl.
    + split; [discriminate|intros [[=] _]].
    + rewrite IH. tauto.
Qed.

Lemma first_of_app p (l1 l2 : list (Element * list Node)) :
  first_of p (l1 ++ l2)
  = match first_of p l1 with Some x => Some x | None => first_of p l2 end.
Proof.
  unfold first_of. rewrite List.filter_app. now destruct (List.filter _ l1).
Qed.

Lemma first_of_none p (l : list (Element * list Node)) :
  Forall (fun ec => p (fst ec) = false) l -> first_of p l = None.
Proof.
  unfold first_of. induction 1 as [|ec l Hec _ IH]; simpl; [reflexivity|]. now rewrite Hec.
Qed.

Section Replaced.
Variables (p : Element -> bool) (h : Element -> Element) (shown : list Node).
Hypothesis p_kept : forall e, p e = true -> p (h e) = true.
Local Abbreviation g := (fun (e : Element) (_ : list Node) => [ElementNode (h e) shown]).
Local Abbreviation replaced := (replaced_by p h shown).

Lemma replace_first_shows_list (l l' : list Node) :
  Forall (fun n => forall r, replace_first_in p g n = Some r -> replaced [n] r) l ->
  replace_first p g l = Some l' -> replaced l l'.
Proof.
  intros Hall. revert l'. induction Hall as [|c l Hc _ IH]; intros l'; simpl; [discriminate|].
  destruct (replace_first_in p g c) as [r|] eqn:Hr.
  - intros [= <-]. destruct (Hc r eq_refl) as (e & cs & Hb & Ha). exists e, cs.
    change (c :: l) with ([c] ++ l). rewrite !elements_app, !first_of_app, Hb, Ha. split; reflexivity.
  - destruct (replace_first p g l) as [l1|]; [|discriminate]. intros [= <-].
    destruct (IH l1 eq_refl) as (e & cs & Hb & Ha). exists e, cs.
    apply replace_first_in_None, first_of_none in Hr.
    rewrite !elements_cons, !first_of_app, Hr. split; assumption.
Qed.

Lemma replace_first_in_shows n r :
  replace_first_in p g n = Some r -> replaced [n] r.
Proof.
  revert r. induction n as [data|e childNodes IH] using Node_children_ind; intros r;
    [discriminate|].
  rewrite replace_first_in_element. destruct (p e) eqn:Hp.
  - intros [= <-]. exists e, childNodes. unfold first_of, elements. simpl.
    rewrite Hp, (p_kept e Hp). split; reflexivity.
  - destruct (replace_first p g childNodes) as [cs'|] eqn:Hcs; [|discriminate].
    intros [= <-]. destruct (replace_first_shows_list _ _ IH Hcs) as (e0 & cs0 & Hb & Ha).
    exists e0, cs0. unfold elements in *. simpl. rewrite !app_nil_r.
    unfold first_of in *. simpl. rewrite Hp. split; assumption.
Qed.

Lemma replace_first_shows doc doc' :
  replace_first p g doc = Some doc' -> replaced doc doc'.
Proof.
  apply replace_first_shows_list. apply Forall_forall. intros n _. apply replace_first_in_shows.
Qed.

End Replaced.

(** A change of one element that keeps what the test reads keeps the
    elements that satisfy it. *)
Lemma elements_alter (Q : Element * list Node -> Prop) (F : Node -> Node) i (l : list Node) :
  (forall n, l !! i = Some n ->
     Forall Q (elements_of (F n)) <-> Forall Q (elements_of n)) ->
  Forall Q (elements (alter F i l)) <-> Forall Q (elements l).
Proof.
  revert i. induction l as [|c l IH]; intros [|i] HF; simpl; try reflexivity.
  - change (flat_map elements_of l) with (elements l). rewrite !Forall_app, (HF c eq_refl).
    reflexivity.
  - change (flat_map elements_of (alter F i l)) with (elements (alter F i l)).
    change (flat_map elements_of l) with (elements l).
    rewrite !Forall_app, (IH i); [reflexivity|]. intros n Hn. apply HF. exact Hn.
Qed.

Lemma elements_update_at p f position doc :
  (forall e, p (f e) = p e) ->
  Forall (fun ec => p (fst ec) = false) (elements (update_at position f doc))
  <-> Forall (fun ec => p (fst ec) = false) (elements doc).
Proof.
  intros Hf. revert doc. induction position as [|i below IH]; intros doc; [reflexivity|].
  simpl. destruct below as [|j below].
  - apply elements_alter. intros [data|e cs] _; [reflexivity|]. simpl.
    rewrite !Forall_cons. simpl. now rewrite Hf.
  - apply elements_alter. intros [data|e cs] _; [reflexivity|].
    unfold on_children. rewrite !elements_of_element, !Forall_cons. now rewrite IH.
Qed.

Lemma getElementById_update_at i f position doc :
  (forall e, id (f e) = id e) ->
  is_Some (getElementById i (update_at position f doc)) <-> is_Some (getElementById i doc).
Proof.
  intros Hf. rewrite <- !not_eq_None_Some, !getElementById_None.
  rewrite (elements_update_at (with_id i) f); [reflexivity|].
  intros e. unfold with_id. now rewrite Hf.
Qed.

(** The error element after [show_in_error_element]. *)
Lemma show_in_error_element_shows i text d doc :
  is_Some (getElementById i doc) ->
  exists e childNodes,
    getElementById i doc = Some (e, childNodes)
    /\ getElementById i (show_in_error_element i text d doc)
       = Some (set_display d e, text_children text).
Proof.
  intros Hsome. unfold show_in_error_element.
  destruct (replace_first _ _ doc) as [doc'|] eqn:Hr.
  - apply (replace_first_shows (with_id i) (set_display d) (text_children text)) in Hr;
      [|intros e He; exact He].
    exact Hr.
  - apply replace_first_None in Hr. apply getElementById_None in Hr.
    rewrite Hr in Hsome. now destruct Hsome.
Qed.

Lemma textContent_text_children e text :
  textContent (ElementNode e (text_children text)) = text.
Proof.
  unfold text_children. case_bool_decide as Ht; simpl; [now rewrite Ht|].
  clear Ht. induction text as [|c text IH]; [reflexivity|].
  change (String c (text +:+ "") = String c text). f_equal. exact IH.
Qed.

Lemma node_at_cons i below (nodes : list Node) :
  node_at (i :: below) nodes
  = match nodes !! i with
    | Some n =>
        match below with
        | [] => Some n
        | _ => match n with
               | ElementNode _ childNodes => node_at below childNodes
               | TextNode _ => None
               end
        end
    | None => None
    end.
Proof. reflexivity. Qed.

Lemma update_at_cons i below f (nodes : list Node) :
  update_at (i :: below) f nodes
  = match below with
    | [] => alter (on_element f) i nodes
    | _ => alter (on_children (update_at below f)) i nodes
    end.
Proof. reflexivity. Qed.

Lemma along_cons i below (nodes : list Node) :
  along (i :: below) nodes
  = match nodes !! i with
    | Some (ElementNode e childNodes) => e :: along below childNodes
    | _ => []
    end.
Proof. reflexivity. Qed.

(** The element at a position after it was changed there. *)
Lemma node_at_update_at f position (l : list Node) e childNodes :
  node_at position l = Some (ElementNode e childNodes) ->
  node_at position (update_at position f l) = Some (ElementNode (f e) childNodes).
Proof.
  revert l. induction position as [|i below IH]; intros l; [discriminate|].
  rewrite !node_at_cons, update_at_cons. destruct (l !! i) as [n|] eqn:Hi; [|discriminate].
  destruct below as [|j below].
  - intros [= ->]. rewrite list_lookup_alter_eq, Hi. reflexivity.
  - destruct n as [data|e0 cs0]; [discriminate|]. intros Hn.
    rewrite list_lookup_alter_eq, Hi. cbn [fmap option_fmap option_map on_children].
    now apply IH.
Qed.

Lemma along_update_at p f position (l : list Node) :
  (forall e, p (f e) = p e) ->
  Forall (fun a => p a = false) (along position (update_at position f l))
  <-> Forall (fun a => p a = false) (along position l).
Proof.
  intros Hf. revert l. induction position as [|i below IH]; intros l; [reflexivity|].
  rewrite !along_cons, update_at_cons. destruct below as [|j below].
  - rewrite list_lookup_alter_eq. destruct (l !! i) as [[data|e cs]|]; simpl; try reflexivity.
    rewrite !Forall_cons, Hf. reflexivity.
  - rewrite list_lookup_alter_eq. destruct (l !! i) as [[data|e cs]|]; try reflexivity.
    cbn [fmap option_fmap option_map on_children]. rewrite !Forall_cons, IH. reflexivity.
Qed.

(** A replacement of one element by one node changes one node of the
    list. *)
Lemma replace_first_in_single p g n r :
  (forall e cs, exists n', g e cs = [n']) ->
  replace_first_in p g n = Some r -> exists n', r = [n'].
Proof.
  intros Hg. destruct n as [data|e cs]; [discriminate|]. rewrite replace_first_in_element.
  destruct (p e); [intros [= <-]; apply Hg|].
  destruct (replace_first p g cs); simpl; [intros [= <-]; eauto|discriminate].
Qed.

Lemma replace_first_at p g (l l' : list Node) :
  (forall e cs, exists n', g e cs = [n']) ->
  replace_first p g l = Some l' ->
  exists j n n',
    l !! j = Some n /\ replace_first_in p g n = Some [n'] /\ l' = <[j := n']> l.
Proof.
  intros Hg. revert l'. induction l as [|c l IH]; intros l'; simpl; [discriminate|].
  destruct (replace_first_in p g c) as [r|] eqn:Hr.
  - intros [= <-]. destruct (replace_first_in_single p g c r Hg Hr) as [n' ->].
    exists 0, c, n'. split_and!; [reflexivity|assumption|reflexivity].
  - destruct (replace_first p g l) as [doc1|]; [|discriminate]. intros [= <-].
    destruct (IH doc1 eq_refl) as (j & n & n' & Hj & Hn & ->).
    exists (S j), n, n'. split_and!; [assumption|assumption|reflexivity].
Qed.

(** An element that neither satisfies the test nor lies under one that
    does is where it was after the replacement, changed at most below. *)
Lemma node_at_replace_first p g position (l l' : list Node) e childNodes :
  (forall e cs, exists n', g e cs = [n']) ->
  Forall (fun a => p a = false) (along position l) ->
  node_at position l = Some (ElementNode e childNodes) ->
  replace_first p g l = Some l' ->
  exists childNodes', node_at position l' = Some (ElementNode e childNodes').
Proof.
  intros Hg. revert l l'. induction position as [|i below IH]; intros l l';
    [discriminate|].
  intros Hal Hn Hr. destruct (replace_first_at p g l l' Hg Hr) as (j & n & n' & Hj & Hrn & ->).
  rewrite node_at_cons in Hn |- *. rewrite along_cons in Hal. destruct (l !! i) as [ni|] eqn:Hi; [|discriminate].
  destruct (decide (i = j)) as [->|Hne].
  - rewrite list_lookup_insert_eq by (eapply lookup_lt_Some; eassumption).
    assert (ni = n) as -> by congruence.
    destruct n as [data|ei csi]; [discriminate|].
    rewrite replace_first_in_element in Hrn. apply Forall_cons in Hal as [Hp Hal].
    rewrite Hp in Hrn.
    destruct (replace_first p g csi) as [csi'|] eqn:Hc; [|discriminate].
    injection Hrn as <-. destruct below as [|k below].
    + injection Hn as -> ->. eauto.
    + now apply (IH csi csi').
  - rewrite list_lookup_insert_ne by (intros ->; contradiction). rewrite Hi. eauto.
Qed.

(** X6. Without an element of id [<name>-error], [validateField] leaves
    the page as it is.  With one, the first element of that id then holds
    exactly the message of the field as its text, displayed as a block
    when there is a message and hidden when there is none. *)
Theorem validateField_shows_the_message (field : LiveField) (doc : Document) :
  match getElementById (error_id field) doc with
  | None => validateField field doc = doc
  | Some _ =>
      exists e',
        getElementById (error_id field) (validateField field doc)
        = Some (e', text_children (live_message field))
        /\ textContent (ElementNode e' (text_children (live_message field)))
           = live_message field
        /\ style_display e'
           = if bool_decide (live_message field = "") then "none" else "block"
  end.
Proof.
  destruct (getElementById (error_id field) doc) as [found|] eqn:Hfound.
  2:{ unfold validateField. now rewrite Hfound. }
  unfold validateField. rewrite Hfound. cbv zeta.
  case_bool_decide as Hm; cbn [negb].
  - destruct (show_in_error_element_shows (error_id field) "" "none"
                (update_at (position field) (classList_remove "error") doc))
      as (e0 & cs0 & _ & Hafter).
    { apply getElementById_update_at; [reflexivity|]. rewrite Hfound. eauto. }
    exists (set_display "none" e0). rewrite Hafter, Hm.
    split_and!; [reflexivity|apply textContent_text_children|reflexivity].
  - destruct (show_in_error_element_shows (error_id field) (live_message field) "block"
                (update_at (position field) (classList_add "error") doc))
      as (e0 & cs0 & _ & Hafter).
    { apply getElementById_update_at; [reflexivity|]. rewrite Hfound. eauto. }
    exists (set_display "block" e0). rewrite Hafter.
    split_and!; [reflexivity|apply textContent_text_children|reflexivity].
Qed.

(** X7. When the page has the error element and the field is neither
    that element nor inside an element of that id, the field is still at
    its place after [validateField], with the class [error] exactly when
    it has a message and its other classes as they were. *)
Theorem validateField_marks_the_field (field : LiveField) (doc : Document) e childNodes :
  is_Some (getElementById (error_id field) doc) ->
  node_at (position field) doc = Some (ElementNode e childNodes) ->
  Forall (fun a => with_id (error_id field) a = false) (along (position field) doc) ->
  exists e' childNodes',
    node_at (position field) (validateField field doc) = Some (ElementNode e' childNodes')
    /\ has_class "error" e' = negb (bool_decide (live_message field = ""))
    /\ (forall c, c <> "error" -> has_class c e' = has_class c e)
    /\ id e' = id e /\ name_attribute e' = name_attribute e.
Proof.
  intros [found Hfound] Hn Hal. unfold validateField. rewrite Hfound. cbv zeta.
  assert (forall f text d,
            (forall a, id (f a) = id a) ->
            exists childNodes',
              node_at (position field)
                (show_in_error_element (error_id field) text d
                   (update_at (position field) f doc))
              = Some (ElementNode (f e) childNodes')) as Hkept.
  { intros f text d Hf. unfold show_in_error_element.
    pose proof (node_at_update_at f _ _ _ _ Hn) as Hn1.
    destruct (replace_first _ _ (update_at (position field) f doc)) as [doc'|] eqn:Hr;
      [|simpl; eauto].
    simpl. eapply node_at_replace_first; [| |exact Hn1|exact Hr].
    - intros a cs. eauto.
    - apply along_update_at; [|assumption]. intros a. unfold with_id. now rewrite Hf. }
  case_bool_decide as Hm; cbn [negb].
  - destruct (Hkept (classList_remove "error") "" "none") as [cs' Hcs']; [reflexivity|].
    exists (classList_remove "error" e), cs'.
    split_and!; [assumption|apply has_class_removed| |reflexivity|reflexivity].
    intros c Hc. now apply has_class_remove_other.
  - destruct (Hkept (classList_add "error") (live_message field) "block") as [cs' Hcs'];
      [reflexivity|].
    exists (classList_add "error" e), cs'.
    split_and!; [assumption|apply has_class_added| |reflexivity|reflexivity].
    intros c Hc. now apply has_class_add_other.
Qed.

End LivePageFacts.

Section LivePageWitnesses.
Import FormValidator LiveValidation.

(** The empty required [username] input of the example page, second child
    of the form. *)
Lemma validateField_marks_the_field_witness :
  exists e' childNodes',
    node_at [0; 1]
      (validateField {| control := empty_username_field; field_value := "";
                        position := [0; 1] |} example_page)
    = Some (ElementNode e' childNodes')
    /\ has_class "error" e' = true.
Proof.
  destruct (validateField_marks_the_field
              {| control := empty_username_field; field_value := ""; position := [0; 1] |}
              example_page
              {| localName := "input"; id := None; name_attribute := Some "username";
                 classList := []; style_display := "" |} [])
    as (e' & cs' & Hn & Hc & _).
  - vm_compute. eauto.
  - reflexivity.
  - vm_compute. repeat constructor.
  - exists e', cs'. split; [exact Hn|]. rewrite Hc. vm_compute. reflexivity.
Defined.

Example validateField_example :
  validateField {| control := empty_username_field; field_value := ""; position := [0; 1] |}
    example_page
  = [ElementNode {| localName := "form"; id := None; name_attribute := None;
                    classList := []; style_display := "" |}
       [example_input "email";
        ElementNode {| localName := "input"; id := None; name_attribute := Some "username";
                       classList := ["error"]; style_display := "" |} [];
        ElementNode {| localName := "span"; id := Some "username-error";
                       name_attribute := None; classList := ["error-message"];
                       style_display := "block" |} [TextNode live_required_message]]].
Proof. vm_compute. reflexivity. Qed.

End LivePageWitnesses.

(** ** The toasts on the page *)

Section ToastFacts.
Import Toasts.
Implicit Types (b : Body) (t : ToastElement) (node : nat).

Lemma filter_all {A} (f : A -> bool) (l : list A) :
  Forall (fun x => f x = true) l -> List.filter f l = l.
Proof. induction 1 as [|x l Hx _ IH]; simpl; [reflexivity|]. now rewrite Hx, IH. Qed.

Lemma NoDup_List_filter {A} (f : A -> bool) (l : list A) :
  NoDup l -> NoDup (List.filter f l).
Proof.
  induction 1 as [|x l Hx _ IH]; simpl; [constructor|].
  destruct (f x); [|assumption]. constructor; [|assumption].
  rewrite list_elem_of_In, filter_In, <- list_elem_of_In. tauto.
Qed.

Lemma remove_nodes node (l : list ToastElement) :
  toast_node <$> remove node l
  = List.filter (fun n => negb (n =? node)) (toast_node <$> l).
Proof.
  unfold remove. symmetry.
  apply (filter_map_swap (fun n => negb (n =? node)) toast_node).
Qed.

Lemma timeouts_nodes node (l : list (nat * N)) :
  fst <$> List.filter (fun nm => negb (fst nm =? node)) l
  = List.filter (fun n => negb (n =? node)) (fst <$> l).
Proof. symmetry. apply (filter_map_swap (fun n => negb (n =? node)) fst). Qed.

(** What every step keeps: the toasts on the page are those with a pending
    timer, in the same order; no node has two timers; every timer is of
    3000 ms; and the nodes still to be created are not on the page. *)
Lemma timed_step b b' :
  step b b' ->
  toast_node <$> toasts b = fst <$> timeouts b
  /\ NoDup (fst <$> timeouts b)
  /\ Forall (fun nm => snd nm = 3000%N) (timeouts b)
  /\ Forall (fun n => n < created b) (fst <$> timeouts b) ->
  toast_node <$> toasts b' = fst <$> timeouts b'
  /\ NoDup (fst <$> timeouts b')
  /\ Forall (fun nm => snd nm = 3000%N) (timeouts b')
  /\ Forall (fun n => n < created b') (fst <$> timeouts b').
Proof.
  intros Hstep (Hsame & Hnd & Hms & Hlt). destruct Hstep as [message type b|node ms b Hin].
  - unfold showToast. cbn [toasts timeouts created toast_node].
    rewrite !fmap_app, Hsame. cbn [fmap list_fmap fst]. split_and!.
    + reflexivity.
    + apply NoDup_app. split_and!; [assumption| |apply NoDup_singleton].
      intros n Hn ->%list_elem_of_singleton.
      rewrite Forall_forall in Hlt. specialize (Hlt _ Hn). lia.
    + apply Forall_app. split; [assumption|]. repeat constructor.
    + apply Forall_app. split; [|repeat constructor].
      eapply Forall_impl; [exact Hlt|]. simpl. lia.
  - unfold timeout_fires. cbn [toasts timeouts created].
    rewrite remove_nodes, timeouts_nodes, Hsame. split_and!.
    + reflexivity.
    + now apply NoDup_List_filter.
    + apply Forall_forall. intros t Ht%list_elem_of_In. apply filter_In in Ht as [Ht _].
      rewrite Forall_forall in Hms. apply Hms. now apply list_elem_of_In.
    + apply Forall_forall. intros n Hn%list_elem_of_In. apply filter_In in Hn as [Hn _].
      rewrite Forall_forall in Hlt. apply Hlt. now apply list_elem_of_In.
Qed.

Lemma timed_runs b :
  runs no_toasts b ->
  toast_node <$> toasts b = fst <$> timeouts b
  /\ NoDup (fst <$> timeouts b)
  /\ Forall (fun nm => snd nm = 3000%N) (timeouts b)
  /\ Forall (fun n => n < created b) (fst <$> timeouts b).
Proof.
  induction 1 as [|b1 b2 _ IH Hstep].
  - simpl. split_and!; constructor.
  - exact (timed_step b1 b2 Hstep IH).
Qed.

(** X8. However toasts are shown and their timers fire, starting with no
    toast: the toasts on the page are exactly the elements whose removal
    is pending, in the order they were shown; no toast has two timers; and
    every timer is of 3000 ms.  So no toast stays without a timer to
    remove it, and once no timer is pending no toast is left. *)
Theorem toasts_are_those_with_a_pending_timer b :
  runs no_toasts b ->
  toast_node <$> toasts b = fst <$> timeouts b
  /\ NoDup (toast_node <$> toasts b)
  /\ Forall (fun nm => snd nm = 3000%N) (timeouts b)
  /\ (timeouts b = [] -> toasts b = []).
Proof.
  intros (Hsame & Hnd & Hms & _)%timed_runs. split_and!; try assumption.
  - now rewrite Hsame.
  - intros Hnone. rewrite Hnone in Hsame. now apply fmap_nil_inv in Hsame.
Qed.

(** X9. When the timer of a toast on the page fires, this toast leaves
    and every other toast stays, in order. *)
Theorem timer_removes_its_toast_only b t :
  runs no_toasts b ->
  t ∈ toasts b ->
  exists before after,
    toasts b = before ++ t :: after
    /\ toasts (timeout_fires (toast_node t) b) = before ++ after
    /\ step b (timeout_fires (toast_node t) b).
Proof.
  intros (Hsame & Hnd & Hms & _)%timed_runs Hin.
  destruct (list_elem_of_split _ _ Hin) as (before & after & Heq).
  exists before, after. split_and!; [assumption| |].
  - rewrite <- Hsame, Heq in Hnd. rewrite fmap_app, fmap_cons in Hnd.
    apply NoDup_app in Hnd as (_ & Hbefore & Hafter%NoDup_cons).
    destruct Hafter as [Hafter _].
    cbn [timeout_fires toasts]. rewrite Heq. unfold remove.
    rewrite List.filter_app. cbn [List.filter]. rewrite Nat.eqb_refl. cbn [negb].
    rewrite !filter_all; [reflexivity| |].
    + apply Forall_forall. intros t' Ht'. apply negb_true_iff, Nat.eqb_neq. intros He.
      apply Hafter. rewrite <- He. now apply list_elem_of_fmap_2.
    + apply Forall_forall. intros t' Ht'. apply negb_true_iff, Nat.eqb_neq. intros He.
      apply (Hbefore (toast_node t')); [now apply list_elem_of_fmap_2|].
      rewrite He. constructor.
  - assert (toast_node t ∈ fst <$> timeouts b) as Hnode.
    { rewrite <- Hsame. now apply list_elem_of_fmap_2. }
    apply list_elem_of_fmap in Hnode as ([node ms] & Hnode & Ht). simpl in Hnode. subst node.
    exact (step_fire _ ms b Ht).
Qed.

(** A trace replayed on the page shows its toasts one after the other. *)
Lemma replay_toasts (tr : list Utils.Event) b :
  replay tr b = fold_left (fun b mt => showToast (fst mt) (snd mt) b) (Utils.toasts tr) b.
Proof.
  revert b. induction tr as [|ev tr IH]; intros b; [reflexivity|].
  unfold replay, Utils.toasts in *. destruct ev; simpl; apply IH.
Qed.

End ToastFacts.

Section ToastWitnesses.
Import Toasts.

Lemma two_toasts_run :
  runs no_toasts (showSuccessToast "saved" (showErrorToast "failed" no_toasts)).
Proof. eapply runs_step; [eapply runs_step; [apply runs_refl|]|]; apply step_show. Defined.

Lemma toasts_are_those_with_a_pending_timer_witness :
  toast_node <$> toasts (showSuccessToast "saved" (showErrorToast "failed" no_toasts)) = [0; 1].
Proof.
  destruct (toasts_are_those_with_a_pending_timer _ two_toasts_run) as (Hsame & _).
  rewrite Hsame. reflexivity.
Defined.

Lemma timer_removes_its_toast_only_witness :
  exists before after,
    toasts (showSuccessToast "saved" (showErrorToast "failed" no_toasts))
    = before ++ {| toast_node := 0; className := "toast error"; toast_text := "failed" |}
                :: after
    /\ toasts (timeout_fires 0 (showSuccessToast "saved" (showErrorToast "failed" no_toasts)))
       = before ++ after.
Proof.
  destruct (timer_removes_its_toast_only
              (showSuccessToast "saved" (showErrorToast "failed" no_toasts))
              {| toast_node := 0; className := "toast error"; toast_text := "failed" |}
              two_toasts_run)
    as (before & after & Hb & Ha & _).
  - vm_compute. constructor.
  - exists before, after. split; assumption.
Defined.

End ToastWitnesses.

(** ** The retrying fetch, whatever the network does *)

Section FetchOutcome.
Import Utils.
Context {Payload : Type}.
Implicit Types (w : World Payload) (url : string) (tr : list Event).

(** X10. With at least one attempt allowed, the call ends in one of two
    ways, whatever the network does: it returns a payload, having shown
    and logged nothing; or it is rejected after [maxRetries] fetches,
    having shown exactly one error toast that is then alone on a page that
    had none, with its timer of 3000 ms pending.  It never returns
    [undefined]: the end of the loop is not reached. *)
Theorem fetch_returns_or_rejects_with_one_toast (maxRetries : nat) (retryDelay : N) w url :
  1 <= maxRetries ->
  let run := Utils.fetch_with maxRetries retryDelay w url in
  (exists payload,
     fst run = Fulfilled (Some payload)
     /\ toasts (snd run) = [] /\ console_errors (snd run) = []
     /\ Toasts.replay (snd run) Toasts.no_toasts = Toasts.no_toasts)
  \/ (exists e,
        fst run = RejectedWith e
        /\ length (fetch_calls (snd run)) = maxRetries
        /\ console_errors (snd run) = [e]
        /\ Toasts.replay (snd run) Toasts.no_toasts
           = {| Toasts.toasts :=
                  [{| Toasts.toast_node := 0; Toasts.className := "toast error";
                      Toasts.toast_text := fst (notification (classify w e)) |}];
                Toasts.created := 1;
                Toasts.timeouts := [(0, 3000%N)] |}).
Proof.
  intros Hpos. cbv zeta. unfold fetch_with.
  destruct (retry_loop_run maxRetries retryDelay w url maxRetries 1)
    as (k & Hk & _ & Hcalls & _ & _ & Hend); [lia|lia|].
  destruct (retry_loop maxRetries retryDelay w url maxRetries 1) as [r tr].
  cbn [fst snd] in *.
  destruct Hend as [(payload & _ & -> & Ht & Hc & _)|(-> & e & _ & -> & Ht & Hc)].
  - left. exists payload. rewrite replay_toasts, Ht. split_and!; auto.
  - right. exists e. rewrite replay_toasts, Ht, Hcalls, length_seq.
    split_and!; [reflexivity|lia|assumption|].
    unfold classify, notification. destruct (bool_decide _); [|destruct (onLine w)]; reflexivity.
Qed.

End FetchOutcome.

Section FetchOutcomeWitnesses.
Import Utils.

Lemma fetch_returns_or_rejects_witness :
  fst (fetchWithErrorHandling flaky_world "/api") = Fulfilled (Some 7)
  /\ fst (fetchWithErrorHandling unreachable_world "/api") = RejectedWith abort_error.
Proof.
  split.
  - destruct (fetch_returns_or_rejects_with_one_toast 3 1000%N flaky_world "/api")
      as [(payload & Hr & _)|(e & Hr & _)]; [lia| |]; vm_compute in Hr |- *; congruence.
  - destruct (fetch_returns_or_rejects_with_one_toast 3 1000%N unreachable_world "/api")
      as [(payload & Hr & _)|(e & Hr & _)]; [lia| |]; vm_compute in Hr |- *; congruence.
Defined.

End FetchOutcomeWitnesses.

(** ** The download module *)

Section DownloadFacts.
Import Utils Stats Download.
Context `{Numbers}.
Implicit Types (w : World) (s : System) (info : ClientInfo) (new : list Effect).

Lemma getClientInfo_cached w s info :
  clientInfo s = Some info -> getClientInfo w s = (Fulfilled info, s).
Proof.
  intros Hc.
  unfold getClientInfo, try_catch, mbind, M_bind, bind, read, mret, M_ret, ret.
  now rewrite Hc.
Qed.

Lemma getClientInfo_empty w s :
  clientInfo s = None ->
  getClientInfo w s
  = let s1 := emit (GetDoc "clientVersions" "latest")
                {| clientInfo := None; reads := S (reads s);
                   localStorage := localStorage s; effects := effects s |} in
    match getDoc w (reads s) with
    | Fulfilled (Some data) =>
        (Fulfilled (info_of_data data), set_clientInfo (Some (info_of_data data)) s1)
    | Fulfilled None =>
        (Fulfilled fallback_info,
         set_clientInfo (Some fallback_info)
           (emit (ConsoleWarn
              "Документ clientVersions/latest не найден, используем fallback данные" None)
              s1))
    | RejectedWith e =>
        (Fulfilled fallback_info,
         emit (ConsoleError "Ошибка при получении информации о клиенте:" e) s1)
    end.
Proof.
  intros Hc.
  unfold getClientInfo, try_catch, read_latest, mbind, M_bind, bind, read, mret, M_ret, ret,
    update.
  rewrite Hc. destruct (getDoc w (reads s)) as [[data|]|e]; cbn; rewrite ?Hc; reflexivity.
Qed.

Lemma document_reads_app new1 new2 :
  document_reads (new1 ++ new2) = document_reads new1 + document_reads new2.
Proof. unfold document_reads. now rewrite List.filter_app, length_app. Qed.

Lemma opened_app new1 new2 : opened (new1 ++ new2) = opened new1 ++ opened new2.
Proof. apply omap_app. Qed.

Lemma shown_app new1 new2 : shown (new1 ++ new2) = shown new1 ++ shown new2.
Proof. apply omap_app. Qed.

Lemma quiet_app new1 new2 : quiet new1 -> quiet new2 -> quiet (new1 ++ new2).
Proof.
  unfold quiet. intros [Ho1 Hs1] [Ho2 Hs2]. now rewrite opened_app, shown_app, Ho1, Ho2, Hs1, Hs2.
Qed.

Lemma follows_refl s : follows s s [].
Proof. split; [now rewrite app_nil_r|reflexivity]. Qed.

Lemma follows_trans s1 s2 s3 new1 new2 :
  follows s1 s2 new1 -> follows s2 s3 new2 -> follows s1 s3 (new1 ++ new2).
Proof.
  intros [He1 Hs1] [He2 Hs2]. split.
  - now rewrite He2, He1, app_assoc.
  - intros k Hk. now rewrite Hs2, Hs1.
Qed.

(** What a call of [getClientInfo] comes to. *)
Lemma getClientInfo_spec w s :
  exists info s1 new,
    getClientInfo w s = (Fulfilled info, s1)
    /\ follows s s1 new /\ quiet new /\ document_reads new <= 1
    /\ localStorage s1 = localStorage s
    /\ (is_Some (clientInfo s) -> s1 = s)
    /\ ((clientInfo s1 = Some info)
        \/ (clientInfo s1 = None /\ info = fallback_info /\ clientInfo s = None
            /\ exists e, getDoc w (reads s) = RejectedWith e)).
Proof.
  destruct (clientInfo s) as [info|] eqn:Hc.
  - exists info, s, []. rewrite (getClientInfo_cached w s info Hc).
    split_and!; [reflexivity|apply follows_refl|split; reflexivity|cbv; lia|reflexivity
                |reflexivity|left; assumption].
  - rewrite (getClientInfo_empty w s Hc). cbv zeta.
    destruct (getDoc w (reads s)) as [[data|]|e].
    + eexists (info_of_data data), _, [GetDoc "clientVersions" "latest"].
      split_and!; [reflexivity|split; reflexivity|split; reflexivity|cbv; lia|reflexivity
                  |intros [? [=]]|left; reflexivity].
    + eexists fallback_info, _,
        [GetDoc "clientVersions" "latest";
         ConsoleWarn "Документ clientVersions/latest не найден, используем fallback данные"
           None].
      split_and!; [reflexivity| |split; reflexivity|cbv; lia|reflexivity
                  |intros [? [=]]|left; reflexivity].
      split; [cbn; now rewrite <- app_assoc|reflexivity].
    + eexists fallback_info, _,
        [GetDoc "clientVersions" "latest";
         ConsoleError "Ошибка при получении информации о клиенте:" e].
      split_and!; [reflexivity| |split; reflexivity|cbv; lia|reflexivity
                  |intros [? [=]]|right; eauto].
      split; [cbn; now rewrite <- app_assoc|reflexivity].
Qed.

Lemma checkAvailability_after w s info s1 :
  getClientInfo w s = (Fulfilled info, s1) ->
  checkAvailability w s
  = if no_url info then (Fulfilled false, s1)
    else if negb (isAvailable info) then (Fulfilled false, s1)
    else
      match fetch_head w (downloadUrl info) with
      | Fulfilled _ => (Fulfilled true, emit (HeadFetch (downloadUrl info)) s1)
      | RejectedWith e =>
          (Fulfilled true,
           emit (ConsoleWarn "Не удалось проверить доступность файла:" (Some e))
             (emit (HeadFetch (downloadUrl info)) s1))
      end.
Proof.
  intros Hg. unfold checkAvailability, try_catch, mbind, M_bind, bind. rewrite Hg.
  destruct (no_url info); [reflexivity|]. destruct (negb (isAvailable info)); [reflexivity|].
  unfold update, await, mret, M_ret, ret.
  destruct (fetch_head w (downloadUrl info)) as [[]|e]; reflexivity.
Qed.

(** [logDownload] returns, quietly, and keeps the module. *)
Lemma logDownload_spec w (v : Json) s :
  exists s1 new,
    logDownload w v s = (Fulfilled tt, s1)
    /\ follows s s1 new /\ quiet new /\ document_reads new = 0
    /\ clientInfo s1 = clientInfo s.
Proof.
  unfold logDownload, try_catch, mbind, M_bind, bind, update, read, await, throw, setItem.
  set (text := match localStorage (emit _ s) !! "downloads" with
               | Some t => if bool_decide (t = "") then "[]" else t
               | None => "[]"
               end).
  cbv zeta.
  destruct (JSON_parse w text) as [[|b|n|t|items|members]|e];
    try (eexists _, [_; _]; split_and!;
         [reflexivity|split; [cbn; now rewrite <- app_assoc|reflexivity]
         |split; reflexivity|reflexivity|reflexivity]).
  destruct (setItem_error w _ _) as [e|].
  - eexists _, [_; _]. split_and!;
      [reflexivity|split; [cbn; now rewrite <- app_assoc|reflexivity]
      |split; reflexivity|reflexivity|reflexivity].
  - eexists _, [ConsoleLog "Загрузка клиента версии:" v].
    split_and!; [reflexivity| |split; reflexivity|reflexivity|reflexivity].
    split; [reflexivity|]. intros k Hk. cbn. now rewrite lookup_insert_ne.
Qed.

Lemma getClientInfo_world w w' s :
  (forall n, getDoc w n = getDoc w' n) -> getClientInfo w s = getClientInfo w' s.
Proof.
  intros Hdoc. destruct (clientInfo s) as [info|] eqn:Hc.
  - now rewrite !(getClientInfo_cached _ s info Hc).
  - now rewrite !(getClientInfo_empty _ s Hc), Hdoc.
Qed.

(** X11. [getClientInfo] never throws.  Unless the read of the document
    failed, the module then holds the answer, and every later call returns
    this very answer with no effect at all, whatever Firestore holds by
    then.  After a failed read the answer is the fallback and nothing is
    kept: the next call reads the document again. *)
Theorem getClientInfo_reads_until_answered w w' s :
  exists info s1,
    getClientInfo w s = (Fulfilled info, s1)
    /\ ((clientInfo s1 = Some info /\ getClientInfo w' s1 = (Fulfilled info, s1))
        \/ (exists e,
              clientInfo s = None /\ getDoc w (reads s) = RejectedWith e
              /\ info = fallback_info /\ clientInfo s1 = None
              /\ document_reads (effects (snd (getClientInfo w' s1)))
                 = document_reads (effects s) + 2)).
Proof.
  destruct (clientInfo s) as [info|] eqn:Hc.
  - exists info, s. rewrite (getClientInfo_cached w s info Hc). split; [reflexivity|].
    left. split; [assumption|]. now apply getClientInfo_cached.
  - rewrite (getClientInfo_empty w s Hc). cbv zeta.
    destruct (getDoc w (reads s)) as [[data|]|e] eqn:Hd.
    + eexists _, _. split; [reflexivity|]. left. split; [reflexivity|].
      now apply getClientInfo_cached.
    + eexists _, _. split; [reflexivity|]. left. split; [reflexivity|].
      now apply getClientInfo_cached.
    + eexists _, _. split; [reflexivity|]. right. exists e.
      split_and!; try reflexivity.
      rewrite getClientInfo_empty by reflexivity. cbv zeta.
      destruct (getDoc w' _) as [[data|]|e']; cbn [snd effects emit set_clientInfo];
        rewrite !document_reads_app; cbn; lia.
Qed.

(** X12. [checkAvailability] never throws, and its answer does not depend
    on the [HEAD] request: two worlds in which Firestore answers the same
    give the same answer and leave the same client information, whatever
    the network does.  The answer is [true] exactly when the information
    has a usable URL and is not marked unavailable. *)
Theorem checkAvailability_ignores_the_head_request w w' s :
  (forall n, getDoc w n = getDoc w' n) ->
  exists info available,
    fst (getClientInfo w s) = Fulfilled info
    /\ fst (checkAvailability w s) = Fulfilled available
    /\ fst (checkAvailability w' s) = Fulfilled available
    /\ available = negb (no_url info) && isAvailable info
    /\ clientInfo (snd (checkAvailability w s)) = clientInfo (snd (checkAvailability w' s)).
Proof.
  intros Hdoc. destruct (getClientInfo_spec w s) as (info & s1 & new & Hg & _).
  pose proof Hg as Hg'. rewrite (getClientInfo_world w w' s Hdoc) in Hg'.
  exists info, (negb (no_url info) && isAvailable info).
  rewrite (checkAvailability_after w s info s1 Hg), (checkAvailability_after w' s info s1 Hg'), Hg.
  destruct (no_url info); [split_and!; reflexivity|].
  destruct (isAvailable info); cbn [negb andb]; [|split_and!; reflexivity].
  destruct (fetch_head w _) as [[]|e], (fetch_head w' _) as [[]|e']; split_and!; reflexivity.
Qed.

(** X13. A call of [downloadClient] never throws and gives exactly one
    answer to the user: either it opens one window, on the URL of the
    client information the module holds, which is usable and not marked
    unavailable, and shows no toast; or it opens no window and shows one
    toast, the info toast that the file is unavailable, or the error toast
    when [window.open] threw.  It reads the document at most once and
    writes the storage under [downloads] only. *)
Theorem downloadClient_gives_one_answer w s :
  exists s' new,
    downloadClient w s = (Fulfilled tt, s')
    /\ follows s s' new
    /\ document_reads new <= 1
    /\ ((exists info,
           clientInfo s' = Some info /\ isAvailable info = true /\ no_url info = false
           /\ opened new = [downloadUrl info] /\ shown new = [])
        \/ (opened new = [] /\ shown new = [(unavailable_message, "info")])
        \/ (opened new = [] /\ shown new = [(failed_message, "error")]
            /\ exists info e,
                 clientInfo s' = Some info
                 /\ window_open w (downloadUrl info) = RejectedWith e)).
Proof.
  destruct (getClientInfo_spec w s) as (info & s1 & new1 & Hg & Hf1 & Hq1 & Hr1 & _ & _ & Hinfo).
  unfold downloadClient, try_catch, mbind, M_bind, bind. rewrite Hg.
  destruct (isAvailable info) eqn:Ha; cbn [negb].
  2:{ eexists _, (new1 ++ [Shown (Toast unavailable_message "info")]).
      split_and!; [reflexivity| | |right; left].
      - eapply follows_trans; [exact Hf1|]. split; reflexivity.
      - rewrite document_reads_app. cbn. lia.
      - destruct Hq1 as [Ho Hs]. now rewrite opened_app, shown_app, Ho, Hs. }
  destruct Hinfo as [Hinfo|(_ & -> & _)]; [|discriminate].
  rewrite (checkAvailability_after w s1 info s1 (getClientInfo_cached w s1 info Hinfo)), Ha.
  cbn [negb]. destruct (no_url info) eqn:Hu.
  { eexists _, (new1 ++ [Shown (Toast unavailable_message "info")]).
    split_and!; [reflexivity| | |right; left].
    - eapply follows_trans; [exact Hf1|]. split; reflexivity.
    - rewrite document_reads_app. cbn. lia.
    - destruct Hq1 as [Ho Hs]. now rewrite opened_app, shown_app, Ho, Hs. }
  set (s2 := match fetch_head w (downloadUrl info) with
             | Fulfilled _ => emit (HeadFetch (downloadUrl info)) s1
             | RejectedWith e =>
                 emit (ConsoleWarn "Не удалось проверить доступность файла:" (Some e))
                   (emit (HeadFetch (downloadUrl info)) s1)
             end).
  assert (exists new2, follows s1 s2 new2 /\ quiet new2 /\ document_reads new2 = 0
                       /\ clientInfo s2 = clientInfo s1) as (new2 & Hf2 & Hq2 & Hr2 & Hc2).
  { unfold s2. destruct (fetch_head w (downloadUrl info)) as [[]|e].
    - exists [HeadFetch (downloadUrl info)]. split_and!; try reflexivity; split; reflexivity.
    - exists [HeadFetch (downloadUrl info);
              ConsoleWarn "Не удалось проверить доступность файла:" (Some e)].
      split_and!; try reflexivity; [|split; reflexivity].
      split; [cbn; now rewrite <- app_assoc|reflexivity]. }
  assert (match fetch_head w (downloadUrl info) with
          | Fulfilled _ => (Fulfilled true, emit (HeadFetch (downloadUrl info)) s1)
          | RejectedWith e =>
              (Fulfilled true,
               emit (ConsoleWarn "Не удалось проверить доступность файла:" (Some e))
                 (emit (HeadFetch (downloadUrl info)) s1))
          end = (Fulfilled true, s2)) as ->.
  { unfold s2. now destruct (fetch_head w (downloadUrl info)) as [[]|e]. }
  cbn [negb]. unfold update, open_window.
  destruct (window_open w (downloadUrl info)) as [[]|e] eqn:Hopen.
  - destruct (logDownload_spec w (version info)
                (emit (WindowOpen (downloadUrl info) "_blank")
                   (emit (ConsoleLog "Начало загрузки клиента:" (downloadUrl info)) s2)))
      as (s3 & new3 & -> & Hf3 & Hq3 & Hr3 & Hc3).
    exists s3, (new1 ++ new2
                ++ [ConsoleLog "Начало загрузки клиента:" (downloadUrl info);
                    WindowOpen (downloadUrl info) "_blank"] ++ new3).
    split_and!; [reflexivity| | |left].
    + eapply follows_trans; [exact Hf1|]. eapply follows_trans; [exact Hf2|].
      eapply follows_trans; [|exact Hf3].
      split; [cbn; now rewrite <- app_assoc|reflexivity].
    + rewrite !document_reads_app, Hr2, Hr3. cbn. lia.
    + exists info. destruct Hq1 as [Ho1 Hs1], Hq2 as [Ho2 Hs2], Hq3 as [Ho3 Hs3].
      rewrite !opened_app, !shown_app, Ho1, Ho2, Ho3, Hs1, Hs2, Hs3.
      split_and!; try reflexivity; try assumption.
      rewrite Hc3. cbn. now rewrite Hc2.
  - cbn.
    exists (emit_all (Shown <$> Utils.showErrorToast failed_message)
              (emit (ConsoleError "Ошибка при загрузке клиента:" e)
                 (emit (ConsoleLog "Начало загрузки клиента:" (downloadUrl info)) s2))),
           (new1 ++ new2
            ++ [ConsoleLog "Начало загрузки клиента:" (downloadUrl info);
                ConsoleError "Ошибка при загрузке клиента:" e;
                Shown (Toast failed_message "error")]).
    split_and!; [reflexivity| | |right; right].
    + eapply follows_trans; [exact Hf1|]. eapply follows_trans; [exact Hf2|].
      split; [cbn; now rewrite <- !app_assoc|reflexivity].
    + rewrite !document_reads_app, Hr2. cbn. lia.
    + destruct Hq1 as [Ho1 Hs1], Hq2 as [Ho2 Hs2].
      rewrite !opened_app, !shown_app, Ho1, Ho2, Hs1, Hs2.
      split_and!; try reflexivity. exists info, e. split; [|assumption].
      cbn. now rewrite Hc2.
Qed.

End DownloadFacts.

Section DownloadWitnesses.
Import Utils Stats Download.
#[local] Existing Instance integer_numbers.

Lemma checkAvailability_ignores_the_head_request_witness :
  fst (checkAvailability offering_world constructor) = Fulfilled true
  /\ fst (checkAvailability head_failing_world constructor) = Fulfilled true.
Proof.
  destruct (checkAvailability_ignores_the_head_request offering_world head_failing_world
              constructor)
    as (info & available & Hi & Ha & Ha' & Hv & _).
  - reflexivity.
  - rewrite Ha, Ha', Hv. vm_compute in Hi. injection Hi as <-. split; reflexivity.
Defined.

(** A click with the document offered, then a click with Firestore out of
    reach on a fresh module. *)
Example downloadClient_example :
  opened (effects (snd (downloadClient offering_world constructor)))
  = [JString "https://example.org/client.jar"]
  /\ shown (effects (snd (downloadClient offering_world constructor))) = []
  /\ localStorage (snd (downloadClient offering_world constructor)) !! "downloads"
     = Some "[{}]"
  /\ opened (effects (snd (downloadClient offline_world constructor))) = []
  /\ shown (effects (snd (downloadClient offline_world constructor)))
     = [(unavailable_message, "info")].
Proof. vm_compute. split_and!; reflexivity. Qed.

End DownloadWitnesses.

(** ** The page after [displayErrors] *)

Section DisplayFacts.
Import FormValidator LiveValidation.
Implicit Types (p q : Element -> bool) (doc : Document) (n : Node).

(** A replacement that changes the element in place, keeping what [q]
    reads, keeps whether some element satisfies [q]. *)
Section InPlace.
Variables (p q : Element -> bool) (h : Element -> Element).
Hypothesis q_kept : forall e, q (h e) = q e.
Local Abbreviation g := (fun (e : Element) (cs : list Node) => [ElementNode (h e) cs]).
Local Abbreviation none l := (Forall (fun ec : Element * list Node => q (fst ec) = false) l).

Lemma replace_in_place_list (l l' : list Node) :
  Forall (fun n => forall r, replace_first_in p g n = Some r ->
                             (none (elements r) <-> none (elements_of n))) l ->
  replace_first p g l = Some l' -> (none (elements l') <-> none (elements l)).
Proof.
  intros Hall. revert l'. induction Hall as [|c l Hc _ IH]; intros l'; simpl; [discriminate|].
  change (flat_map elements_of l) with (elements l).
  destruct (replace_first_in p g c) as [r|] eqn:Hr.
  - intros [= <-]. rewrite elements_app, !Forall_app, (Hc r eq_refl). reflexivity.
  - destruct (replace_first p g l) as [l1|]; [|discriminate]. intros [= <-].
    rewrite elements_cons, !Forall_app, (IH l1 eq_refl). reflexivity.
Qed.

Lemma replace_in_place_node n r :
  replace_first_in p g n = Some r -> (none (elements r) <-> none (elements_of n)).
Proof.
  revert r. induction n as [data|e childNodes IH] using Node_children_ind; intros r;
    [discriminate|].
  rewrite replace_first_in_element. destruct (p e).
  - intros [= <-]. unfold elements. simpl. rewrite app_nil_r, !Forall_cons. simpl.
    now rewrite q_kept.
  - destruct (replace_first p g childNodes) as [cs'|] eqn:Hcs; [|discriminate].
    intros [= <-]. unfold elements at 1. simpl. rewrite app_nil_r, !Forall_cons. simpl.
    change (flat_map elements_of cs') with (elements cs').
    change (flat_map elements_of childNodes) with (elements childNodes).
    now rewrite (replace_in_place_list _ _ IH Hcs).
Qed.

Lemma replace_in_place (l l' : list Node) :
  replace_first p g l = Some l' -> (none (elements l') <-> none (elements l)).
Proof.
  apply replace_in_place_list. apply Forall_forall. intros n _. apply replace_in_place_node.
Qed.

End InPlace.

(** A replacement that puts a new node right after the element makes the
    new element the first to satisfy [q] when no element did. *)
Section Inserted.
Variables (p q : Element -> bool) (x : Element) (shown : list Node).
Hypothesis q_new : q x = true.
Local Abbreviation g := (fun (e : Element) (cs : list Node) =>
                           [ElementNode e cs; ElementNode x shown]).
Local Abbreviation none l := (Forall (fun ec : Element * list Node => q (fst ec) = false) l).

Lemma replace_inserts_list (l l' : list Node) :
  Forall (fun n => forall r, replace_first_in p g n = Some r -> none (elements_of n) ->
                             first_of q (elements r) = Some (x, shown)) l ->
  replace_first p g l = Some l' -> none (elements l) ->
  first_of q (elements l') = Some (x, shown).
Proof.
  intros Hall. revert l'. induction Hall as [|c l Hc _ IH]; intros l'; simpl; [discriminate|].
  change (flat_map elements_of l) with (elements l). rewrite Forall_app.
  destruct (replace_first_in p g c) as [r|] eqn:Hr.
  - intros [= <-] [Hn _]. now rewrite elements_app, first_of_app, (Hc r eq_refl Hn).
  - destruct (replace_first p g l) as [l1|]; [|discriminate]. intros [= <-] [Hn Hl].
    now rewrite elements_cons, first_of_app, (first_of_none q _ Hn), (IH l1 eq_refl Hl).
Qed.

Lemma replace_inserts_node n r :
  replace_first_in p g n = Some r -> none (elements_of n) ->
  first_of q (elements r) = Some (x, shown).
Proof.
  revert r. induction n as [data|e childNodes IH] using Node_children_ind; intros r;
    [discriminate|].
  rewrite replace_first_in_element, elements_of_element, Forall_cons. simpl.
  destruct (p e).
  - intros [= <-] [He Hcs].
    change (elements [ElementNode e childNodes; ElementNode x shown])
      with ((e, childNodes) :: elements childNodes ++ (x, shown) :: elements shown ++ []).
    change ((e, childNodes) :: elements childNodes ++ (x, shown) :: elements shown ++ [])
      with ([(e, childNodes)] ++ elements childNodes ++ [(x, shown)] ++ elements shown ++ []).
    rewrite !first_of_app, (first_of_none q (elements childNodes) Hcs).
    unfold first_of. simpl. now rewrite He, q_new.
  - destruct (replace_first p g childNodes) as [cs'|] eqn:Hcs; [|discriminate].
    intros [= <-] [He Hn].
    change (elements [ElementNode e cs']) with ([(e, cs')] ++ elements cs' ++ []).
    rewrite app_nil_r, first_of_app, (replace_inserts_list _ _ IH Hcs Hn).
    unfold first_of. simpl. now rewrite He.
Qed.

Lemma replace_inserts (l l' : list Node) :
  replace_first p g l = Some l' -> none (elements l) ->
  first_of q (elements l') = Some (x, shown).
Proof.
  apply replace_inserts_list. apply Forall_forall. intros n _. apply replace_inserts_node.
Qed.

End Inserted.

Lemma first_of_None p (l : list (Element * list Node)) :
  first_of p l = None <-> Forall (fun ec => p (fst ec) = false) l.
Proof.
  unfold first_of. induction l as [|ec l IH]; simpl.
  - split; [constructor|reflexivity].
  - rewrite Forall_cons. destruct (p (fst ec)); simpl.
    + split; [discriminate|intros [[=] _]].
    + rewrite IH. tauto.
Qed.

(** What the callback of [displayErrors] does for one key. *)
Lemma display_error_shows doc fieldName errorMessage :
  match first_of (named fieldName) (elements doc) with
  | None => display_error doc (fieldName, errorMessage) = doc
  | Some _ =>
      exists e,
        getElementById (fieldName +:+ "-error") (display_error doc (fieldName, errorMessage))
        = Some (e, text_children errorMessage)
        /\ style_display e = "block"
  end.
Proof.
  unfold display_error.
  destruct (first_of (named fieldName) (elements doc)) as [found|] eqn:Hfound.
  2:{ apply first_of_None in Hfound.
      now rewrite (proj2 (replace_first_None (named fieldName) _ doc) Hfound). }
  destruct (replace_first (named fieldName)
              (fun e cs => [ElementNode (classList_add "error" e) cs]) doc)
    as [doc1|] eqn:Hmark.
  2:{ apply replace_first_None in Hmark. apply first_of_None in Hmark. congruence. }
  destruct (replace_first (with_id (fieldName +:+ "-error")) _ doc1) as [doc2|] eqn:Hshow.
  - apply (replace_first_shows (with_id (fieldName +:+ "-error")) (set_display "block")
             (text_children errorMessage)) in Hshow; [|intros e He; exact He].
    destruct Hshow as (e & cs & _ & Hafter). exists (set_display "block" e). split; [|reflexivity].
    exact Hafter.
  - apply replace_first_None in Hshow.
    destruct (replace_first (named fieldName) _ doc1) as [doc3|] eqn:Hinsert.
    + exists (set_display "block" (new_error_element fieldName)). split; [|reflexivity].
      simpl. unfold getElementById.
      apply (replace_inserts (named fieldName) (with_id (fieldName +:+ "-error"))
               (set_display "block" (new_error_element fieldName))
               (text_children errorMessage)) with (l := doc1);
        [|exact Hinsert|exact Hshow].
      unfold with_id. simpl. now apply bool_decide_eq_true.
    + exfalso. apply replace_first_None in Hinsert.
      apply (replace_in_place (named fieldName) (named fieldName) (classList_add "error"))
        in Hmark; [|reflexivity].
      apply Hmark in Hinsert. apply first_of_None in Hinsert. congruence.
Qed.

(** X14. [displayErrors] handles the keys one after the other on the page
    that [clearErrors] and the keys before have left.  For the key handled
    last: when this page has no element of that name the key changes
    nothing; when it has one, the first element of id [<name>-error] then
    holds exactly the message of the key as its text and is displayed as a
    block, whether it was on the page or had to be created. *)
Theorem displayErrors_shows_the_message (errors : Errors) (fieldName errorMessage : string)
    (doc : Document) :
  let before := displayErrors errors doc in
  let after := displayErrors (errors ++ [(fieldName, errorMessage)]) doc in
  match first_of (named fieldName) (elements before) with
  | None => after = before
  | Some _ =>
      exists e,
        getElementById (fieldName +:+ "-error") after = Some (e, text_children errorMessage)
        /\ textContent (ElementNode e (text_children errorMessage)) = errorMessage
        /\ style_display e = "block"
  end.
Proof.
  cbv zeta. unfold displayErrors. rewrite fold_left_app. cbn [fold_left].
  pose proof (display_error_shows (fold_left display_error errors (clearErrors doc))
                fieldName errorMessage) as Hshows.
  destruct (first_of (named fieldName) (elements (fold_left display_error errors (clearErrors doc))));
    [|exact Hshows].
  destruct Hshows as (e & Hget & Hdisplay). exists e.
  split_and!; [exact Hget|apply textContent_text_children|exact Hdisplay].
Qed.

Example displayErrors_creates_the_message_element :
  getElementById "email-error" (displayErrors [("email", "bad")] example_page)
  = Some ({| localName := "span"; id := Some "email-error"; name_attribute := None;
             classList := ["error-message"]; style_display := "block" |},
          [TextNode "bad"]).
Proof. reflexivity. Qed.

End DisplayFacts.

(** ** The session of [auth.js] *)

Section AuthFacts.
Import Utils Auth.
Implicit Types (s : System) (now : N).

Lemma digit_value_pretty_N_char (d : N) :
  (d < 10)%N -> JS.digit_value (pretty_N_char d) = Some d.
Proof.
  intros Hd.
  assert (d = 0 \/ d = 1 \/ d = 2 \/ d = 3 \/ d = 4 \/ d = 5 \/ d = 6 \/ d = 7 \/ d = 8
          \/ d = 9)%N as Hcases by lia.
  repeat (destruct Hcases as [->|Hcases]; [reflexivity|]). now subst.
Qed.

(** Reading the digits that [pretty] writes for [x] before [s]. *)
Lemma digits_prefix_pretty_N_go (x : N) (s : string) :
  (0 < x)%N ->
  JS.digits_prefix 10 (JS.chars (pretty_N_go x s)) None
  = JS.digits_prefix 10 (JS.chars s) (Some x).
Proof.
  revert s. induction x as [x IH] using (well_founded_induction N.lt_wf_0). intros s Hx.
  rewrite pretty_N_go_step by assumption.
  assert (x `mod` 10 < 10)%N as Hr by (apply N.mod_lt; lia).
  destruct (N.eq_dec (x `div` 10)%N 0%N) as [Hq|Hq].
  - rewrite Hq, pretty_N_go_0. cbn [JS.chars list_ascii_of_string JS.digits_prefix].
    rewrite (digit_value_pretty_N_char _ Hr).
    destruct (N.ltb_spec (x `mod` 10) 10) as [_|?]; [|lia].
    cbn [from_option]. do 2 f_equal.
    pose proof (N.div_mod x 10%N). lia.
  - assert (x `div` 10 < x)%N as Hlt by (apply N.div_lt; lia).
    assert (0 < x `div` 10)%N as Hqpos by (apply N.neq_0_lt_0; exact Hq).
    rewrite (IH _ Hlt _ Hqpos).
    cbn [JS.chars list_ascii_of_string JS.digits_prefix].
    rewrite (digit_value_pretty_N_char _ Hr).
    destruct (N.ltb_spec (x `mod` 10) 10) as [_|?]; [|lia].
    cbn [from_option]. do 2 f_equal.
    pose proof (N.div_mod x 10%N). unfold id. lia.
Qed.

Lemma pretty_N_go_head (x : N) (s : string) :
  (0 < x)%N ->
  exists d rest, (d < 10)%N /\ JS.chars (pretty_N_go x s) = pretty_N_char d :: rest.
Proof.
  revert s. induction x as [x IH] using (well_founded_induction N.lt_wf_0). intros s Hx.
  rewrite pretty_N_go_step by assumption.
  assert (x `mod` 10 < 10)%N as Hr by (apply N.mod_lt; lia).
  destruct (N.eq_dec (x `div` 10)%N 0%N) as [Hq|Hq].
  - rewrite Hq, pretty_N_go_0. exists (x `mod` 10)%N, (JS.chars s). split; [assumption|reflexivity].
  - apply IH; [apply N.div_lt; lia|apply N.neq_0_lt_0; exact Hq].
Qed.

(** [parseInt(n.toString(), 10)] is [n]. *)
Lemma parseInt10_pretty (n : N) : parseInt10 (pretty n) = Some (Z.of_N n).
Proof.
  unfold pretty, pretty_N. destruct (decide (n = 0%N)) as [->|Hn]; [reflexivity|].
  assert (0 < n)%N as Hpos by lia.
  pose proof (digits_prefix_pretty_N_go n "" Hpos) as Hdigits.
  destruct (pretty_N_go_head n "" Hpos) as (d & rest & Hd & Hhead).
  unfold parseInt10. rewrite Hhead in *. change (JS.chars "") with (@nil ascii) in Hdigits.
  cbn [JS.digits_prefix] in Hdigits.
  assert (forall c : ascii,
            JS.is_whitespace c = false -> c <> "-"%char -> c <> "+"%char ->
            JS.digits_prefix 10 (c :: rest) None = Some n ->
            (let '(negative, l) :=
               match JS.drop_whitespace (c :: rest) with
               | "-"%char :: l' => (true, l')
               | "+"%char :: l' => (false, l')
               | _ => (false, JS.drop_whitespace (c :: rest))
               end in
             match JS.digits_prefix 10 l None with
             | Some n0 => Some (if negative then - Z.of_N n0 else Z.of_N n0)%Z
             | None => None
             end) = Some (Z.of_N n)) as Hread.
  { intros c Hw Hminus Hplus Hc. cbn [JS.drop_whitespace]. rewrite Hw.
    destruct (ascii_dec c "-") as [->|_]; [contradiction|].
    destruct (ascii_dec c "+") as [->|_]; [contradiction|].
    destruct c as [[] [] [] [] [] [] [] []]; try contradiction; cbv beta iota zeta;
      rewrite Hc; reflexivity. }
  assert (d = 0 \/ d = 1 \/ d = 2 \/ d = 3 \/ d = 4 \/ d = 5 \/ d = 6 \/ d = 7 \/ d = 8
          \/ d = 9)%N as Hcases by lia.
  repeat (destruct Hcases as [->|Hcases];
          [apply Hread; [reflexivity|discriminate|discriminate|exact Hdigits]|]).
  subst d. apply Hread; [reflexivity|discriminate|discriminate|exact Hdigits].
Qed.

Lemma item_clear_session s k :
  k = "authToken" \/ k = "sessionExpiry" -> item (clear_session s) k = None.
Proof.
  intros Hk. unfold item, clear_session, with_storage. cbn [localStorage].
  destruct Hk as [->| ->].
  - rewrite lookup_delete_ne, lookup_delete_ne, lookup_delete_eq by discriminate. reflexivity.
  - rewrite lookup_delete_eq. reflexivity.
Qed.

(** X15. A session that [isSessionValid] has found invalid stays invalid
    at any later call, whatever the clock says then; after a [logout] that
    succeeded every call answers false; and a [logout] that failed leaves
    the answer as it was. *)
Theorem invalid_session_stays_invalid :
  (forall now now' s,
     fst (Auth.isSessionValid now s) = false ->
     fst (Auth.isSessionValid now' (snd (Auth.isSessionValid now s))) = false)
  /\ (forall now s, fst (Auth.isSessionValid now (snd (Auth.logout (Fulfilled tt) s))) = false)
  /\ (forall now e s,
        fst (Auth.isSessionValid now (snd (Auth.logout (RejectedWith e) s)))
        = fst (Auth.isSessionValid now s)).
Proof.
  split_and!.
  - intros now now' s. unfold isSessionValid at 1 3.
    destruct (item s "authToken") as [token|] eqn:Ht; cbn [fst snd]; [|intros _].
    2:{ unfold isSessionValid. now rewrite Ht. }
    destruct (item s "sessionExpiry") as [expiry|] eqn:He; cbn [fst snd]; [|intros _].
    2:{ unfold isSessionValid. now rewrite Ht, He. }
    destruct (match parseInt10 expiry with Some e => _ | None => false end);
      cbn [fst snd]; [intros _|discriminate].
    unfold isSessionValid. rewrite item_clear_session by now left. reflexivity.
  - intros now s. unfold logout. cbn [snd]. unfold isSessionValid.
    change (item _ "authToken") with (item (clear_session
      {| currentUser := None; saving := saving s; localStorage := localStorage s;
         location := location s; console := console s |}) "authToken").
    rewrite item_clear_session by now left. reflexivity.
  - intros now e s. unfold isSessionValid, item, logout.
    cbn [snd console_error localStorage].
    destruct (localStorage s !! "authToken") as [token|]; [|reflexivity].
    destruct (bool_decide (token = "")); [reflexivity|].
    destruct (localStorage s !! "sessionExpiry") as [expiry|]; [|reflexivity].
    destruct (bool_decide (expiry = "")); [reflexivity|].
    destruct (match parseInt10 expiry with Some e' => _ | None => false end); reflexivity.
Qed.

Lemma setItem_room (setItem_error : string -> string -> option Error) k v s :
  (forall k v, setItem_error k v = None) ->
  setItem setItem_error k v s = (Fulfilled tt, with_storage (insert k v) s).
Proof. intros Hroom. unfold setItem. now rewrite Hroom. Qed.

(** X16. When the token of a pending [saveSession] arrives at the time
    [t0], is not empty, and the storage takes the three writes,
    [isSessionValid] answers true at every time before [t0] plus one hour
    and false from then on, whatever the storage held before and whatever
    happened to the module since [saveSession] was called. *)
Theorem saved_session_lasts_one_hour (setItem_error : string -> string -> option Error)
    (t0 now : N) s u rest token :
  (forall k v, setItem_error k v = None) ->
  saving s = u :: rest ->
  getIdToken u = Fulfilled token ->
  token <> "" ->
  let s1 := Auth.token_settles setItem_error t0 s in
  localStorage s1 !! "authToken" = Some token
  /\ (fst (Auth.isSessionValid now s1) = true <-> (now < t0 + 3600000)%N).
Proof.
  intros Hroom Hsaving Htoken Hne. cbv zeta.
  unfold token_settles. rewrite Hsaving, Htoken. cbv beta iota zeta.
  rewrite (setItem_room _ _ _ _ Hroom). cbv beta iota zeta.
  rewrite (setItem_room _ _ _ _ Hroom). cbv beta iota zeta.
  rewrite (setItem_room _ _ _ _ Hroom). cbv beta iota zeta.
  unfold with_storage. cbn [localStorage].
  split.
  { rewrite lookup_insert_ne, lookup_insert_ne, lookup_insert_eq by discriminate. reflexivity. }
  unfold isSessionValid, item. cbn [localStorage].
  rewrite lookup_insert_ne, lookup_insert_ne, lookup_insert_eq by discriminate.
  rewrite bool_decide_eq_false_2 by assumption.
  rewrite lookup_insert_eq.
  change (60 * 60 * 1000)%N with 3600000%N.
  assert (pretty (t0 + 3600000)%N <> "") as Hpretty.
  { intros Hp. pose proof (parseInt10_pretty (t0 + 3600000)) as Hparse.
    rewrite Hp in Hparse. discriminate. }
  rewrite bool_decide_eq_false_2 by assumption.
  rewrite parseInt10_pretty.
  destruct (Z.leb_spec (Z.of_N (t0 + 3600000)) (Z.of_N now)); cbn [fst]; split;
    try discriminate; try reflexivity; lia.
Qed.

End AuthFacts.

Section AuthWitnesses.
Import Utils Auth.

Lemma saved_session_lasts_one_hour_witness :
  fst (isSessionValid 1700003599999
         (token_settles roomy 1700000000000
            (saveSession (Some example_user) (constructor ∅)))) = true.
Proof.
  apply (saved_session_lasts_one_hour roomy 1700000000000 1700003599999
           (saveSession (Some example_user) (constructor ∅)) example_user [] "eyJhbGciOi").
  - reflexivity.
  - reflexivity.
  - reflexivity.
  - discriminate.
  - reflexivity.
Defined.

(** A logout between the login and the arrival of the token does not stop
    the session from being saved; and a [sessionExpiry] that does not
    begin with a number never expires. *)
Example session_saved_after_logout :
  let s := snd (login (Fulfilled example_user) (constructor ∅)) in
  let s := snd (logout (Fulfilled tt) s) in
  fst (isSessionValid 1700000000001 (token_settles roomy 1700000000000 s)) = true.
Proof. vm_compute. reflexivity. Qed.

Example unreadable_expiry_never_expires :
  forall now,
    fst (isSessionValid now
           (constructor (<["authToken" := "t"]> (<["sessionExpiry" := "soon"]> ∅)))) = true.
Proof. intros now. reflexivity. Qed.

End AuthWitnesses.

(** ** The registration module *)

Section UsernameFacts.
Import Regex Register.

Lemma lang_cat_inv r1 r2 s :
  lang (Cat r1 r2) s <-> exists s1 s2, s = s1 ++ s2 /\ lang r1 s1 /\ lang r2 s2.
Proof.
  split.
  - inversion 1; subst. eauto.
  - intros (s1 & s2 & -> & H1 & H2). now constructor.
Qed.

Lemma lang_class_inv p s : lang (Class p) s <-> exists c, s = [c] /\ p c = true.
Proof.
  split.
  - inversion 1; subst. eauto.
  - intros (c & -> & Hc). now constructor.
Qed.

Lemma lang_eps_inv s : lang Eps s <-> s = [].
Proof. split; [now inversion 1|intros ->; constructor]. Qed.

Lemma lang_alt_inv r1 r2 s : lang (Alt r1 r2) s <-> lang r1 s \/ lang r2 s.
Proof.
  split.
  - inversion 1; subst; auto.
  - intros [?|?]; [now apply lang_alt_l|now apply lang_alt_r].
Qed.

(** [[p]{n}] and [[p]{0,n}] *)
Lemma lang_exactly_class n p s :
  lang (exactly n (Class p)) s <-> length s = n /\ Forall (fun c => p c = true) s.
Proof.
  revert s. induction n as [|n IH]; intros s; simpl.
  - rewrite lang_eps_inv. split; [intros ->; split; [reflexivity|constructor]|].
    intros [Hl _]. now destruct s.
  - rewrite lang_cat_inv. split.
    + intros (s1 & s2 & -> & (c & -> & Hc)%lang_class_inv & [Hl Hall]%IH).
      simpl. split; [now rewrite Hl|now constructor].
    + intros [Hl Hall]. destruct s as [|c s]; [discriminate|].
      apply Forall_cons in Hall as [Hc Hall]. exists [c], s.
      split_and!; [reflexivity|now constructor|]. apply IH. split; [now injection Hl|assumption].
Qed.

Lemma lang_at_most_class n p s :
  lang (at_most n (Class p)) s <-> length s <= n /\ Forall (fun c => p c = true) s.
Proof.
  revert s. induction n as [|n IH]; intros s; simpl.
  - rewrite lang_eps_inv. split; [intros ->; split; [reflexivity|constructor]|].
    intros [Hl _]. destruct s; [reflexivity|simpl in Hl; lia].
  - rewrite lang_alt_inv, lang_eps_inv, lang_cat_inv. split.
    + intros [->|(s1 & s2 & -> & (c & -> & Hc)%lang_class_inv & [Hl Hall]%IH)].
      * split; [simpl; lia|constructor].
      * simpl. split; [lia|now constructor].
    + intros [Hl Hall]. destruct s as [|c s]; [now left|right].
      apply Forall_cons in Hall as [Hc Hall]. exists [c], s.
      split_and!; [reflexivity|now constructor|]. apply IH. simpl in Hl. split; [lia|assumption].
Qed.

Lemma length_chars s : length (JS.chars s) = String.length s.
Proof. unfold JS.chars. induction s as [|c s IH]; simpl; congruence. Qed.

(** X17. [validateUsername] accepts exactly the strings of 3 to 20
    characters that are all letters of the basic Latin alphabet, digits or
    underscores; it rejects every value that is not a string. *)
Theorem validateUsername_decides_the_shape (username : option string) :
  Register.validateUsername username = true
  <-> exists s,
        username = Some s
        /\ 3 <= String.length s <= 20
        /\ Forall (fun c => word_char c = true) (JS.chars s).
Proof.
  unfold validateUsername, text_of. split.
  - destruct username as [s|]; [|discriminate].
    case_bool_decide as Hs; [discriminate|].
    rewrite matches_lang. unfold usernameRegex.
    intros (s1 & s2 & Heq & [Hl1 Ha1]%lang_exactly_class & [Hl2 Ha2]%lang_at_most_class)%lang_cat_inv.
    exists s. rewrite <- length_chars, Heq, length_app, Forall_app.
    split_and!; [reflexivity|lia|lia|assumption|assumption].
  - intros (s & -> & Hlen & Hall).
    rewrite bool_decide_eq_false_2 by (intros ->; simpl in Hlen; lia).
    rewrite matches_lang. unfold usernameRegex. apply lang_cat_inv.
    exists (take 3 (JS.chars s)), (drop 3 (JS.chars s)).
    rewrite <- length_chars in Hlen.
    split_and!; [now rewrite take_drop| |].
    + apply lang_exactly_class. split; [rewrite length_take; lia|now apply Forall_take].
    + apply lang_at_most_class. split; [rewrite length_drop; lia|now apply Forall_drop].
Qed.

Example validateUsername_example :
  validateUsername (Some "Steve_01") = true
  /\ validateUsername (Some "ab") = false
  /\ validateUsername (Some "no spaces") = false
  /\ validateUsername (Some "abcdefghijklmnopqrstu") = false
  /\ validateUsername None = false.
Proof. vm_compute. split_and!; reflexivity. Qed.

End UsernameFacts.

Section RegisterFacts.
Import Register.
Implicit Types (w : World) (username email password : option string).

(** X18. [register] sends nothing to Firebase before its three checks
    have passed.  Once they have, it asks for the accounts of that name,
    and it goes on to create the account unless the answer is that the
    name is taken: also when the question itself failed.  It resolves
    exactly when the account was created and its profile written; when
    the profile could not be written it is rejected although the account
    exists, and it sends nothing more. *)
Theorem register_requests (w : World) username email password :
  let checks := validateEmail email && valid (validatePassword password)
                && validateUsername username in
  let u := default "" username in
  let e := default "" email in
  let p := default "" password in
  let run := Register.register w username email password in
  (checks = false -> snd run = [] /\ exists m, fst run = Rejected (new_Error m))
  /\ (checks = true ->
      (CreateUser e p ∈ snd run <-> getDocs w u <> Resolved false)
      /\ (forall uid,
            fst run = Resolved uid
            <-> getDocs w u <> Resolved false
                /\ createUserWithEmailAndPassword w e p = Resolved uid
                /\ setDoc w uid = Resolved tt)
      /\ (forall uid error,
            getDocs w u <> Resolved false ->
            createUserWithEmailAndPassword w e p = Resolved uid ->
            setDoc w uid = Rejected error ->
            fst run = Rejected error
            /\ exists checked,
                 snd run = checked ++ [CreateUser e p; SetProfile uid u e;
                                       ConsoleError "Ошибка при регистрации:" error]
                 /\ Forall (fun ev => match ev with
                                      | QueryUsers _ | ConsoleError _ _ => True
                                      | _ => False
                                      end) checked)).
Proof.
  cbv zeta. unfold register.
  destruct (validateEmail email); cbn [negb andb].
  2:{ split; [intros _; split; eauto|discriminate]. }
  destruct (valid (validatePassword password)); cbn [negb andb].
  2:{ split; [intros _; split; eauto|discriminate]. }
  destruct (validateUsername username); cbn [negb andb].
  2:{ split; [intros _; split; eauto|discriminate]. }
  split; [discriminate|intros _].
  set (u := default "" username). set (e := default "" email). set (p := default "" password).
  unfold checkUsernameAvailability.
  destruct (getDocs w u) as [[]|qe] eqn:Hq; cbn [negb].
  - destruct (createUserWithEmailAndPassword w e p) as [uid|ce] eqn:Hc.
    + destruct (setDoc w uid) as [[]|se] eqn:Hs; cbn [fst snd].
      * split_and!.
        -- split; [discriminate|intros _]. apply elem_of_app. right. constructor.
        -- intros uid'. split.
           ++ intros [= <-]. split_and!; [discriminate|reflexivity|assumption].
           ++ intros (_ & [= <-] & _). reflexivity.
        -- intros uid' error _ [= <-] Herr. congruence.
      * split_and!.
        -- split; [discriminate|intros _]. apply elem_of_app. right. constructor.
        -- intros uid'. split; [discriminate|]. intros (_ & [= <-] & Herr). congruence.
        -- intros uid' error _ [= <-] Herr. assert (error = se) as -> by congruence.
           split; [reflexivity|]. exists [QueryUsers u]. split; [reflexivity|].
           repeat constructor.
    + cbn [fst snd]. split_and!.
      * split; [discriminate|intros _]. apply elem_of_app. right. constructor.
      * intros uid'. split; [discriminate|]. intros (_ & [=] & _).
      * intros uid' error _ [=].
  - cbn [fst snd]. split_and!.
    + split; [|intros Hne; now contradiction Hne].
      intros Hin%list_elem_of_singleton. discriminate.
    + intros uid'. split; [discriminate|]. intros (Hne & _). now contradiction Hne.
    + intros uid' error Hne. now contradiction Hne.
  - destruct (createUserWithEmailAndPassword w e p) as [uid|ce] eqn:Hc.
    + destruct (setDoc w uid) as [[]|se] eqn:Hs; cbn [fst snd].
      * split_and!.
        -- split; [discriminate|intros _]. apply elem_of_app. right. constructor.
        -- intros uid'. split.
           ++ intros [= <-]. split_and!; [discriminate|reflexivity|assumption].
           ++ intros (_ & [= <-] & _). reflexivity.
        -- intros uid' error _ [= <-] Herr. congruence.
      * split_and!.
        -- split; [discriminate|intros _]. apply elem_of_app. right. constructor.
        -- intros uid'. split; [discriminate|]. intros (_ & [= <-] & Herr). congruence.
        -- intros uid' error _ [= <-] Herr. assert (error = se) as -> by congruence.
           split; [reflexivity|].
           exists [QueryUsers u; ConsoleError "Ошибка при проверке доступности имени:" qe].
           split; [reflexivity|]. repeat constructor.
    + cbn [fst snd]. split_and!.
      * split; [discriminate|intros _]. apply elem_of_app. right. constructor.
      * intros uid'. split; [discriminate|]. intros (_ & [=] & _).
      * intros uid' error _ [=].
Qed.

(** X19. The error that [register] throws for a user name of the wrong
    shape has no lower-case [имя пользователя] in its message, so
    [handleRegisterError] writes it into the element [email-error], not
    into [username-error]; the error for a name that is taken goes to
    [username-error]. *)
Theorem username_format_error_is_shown_under_email (w : World) username email password :
  validateEmail email = true ->
  valid (validatePassword password) = true ->
  validateUsername username = false ->
  Register.register w username email password
  = (Rejected (new_Error username_format_message), [])
  /\ error_slot (new_Error username_format_message) = "email-error"
  /\ error_slot (new_Error username_taken_message) = "username-error"
  /\ forall doc,
       Register.handleRegisterError (new_Error username_format_message) doc
       = match LiveValidation.getElementById "email-error" doc with
         | None => None
         | Some _ =>
             Some (LiveValidation.show_in_error_element "email-error"
                     username_format_message "block" doc,
                   [ConsoleError "Ошибка регистрации:" (new_Error username_format_message)])
         end.
Proof.
  intros He Hp Hu. unfold register. rewrite He, Hp, Hu. cbn [negb].
  split_and!; [reflexivity|vm_compute; reflexivity|vm_compute; reflexivity|].
  intros doc. unfold handleRegisterError.
  change (error_slot (new_Error username_format_message)) with "email-error".
  reflexivity.
Qed.

End RegisterFacts.

Section RegisterWitnesses.
Import Register.

Lemma username_format_error_witness :
  fst (register welcoming_world (Some "x") (Some "steve@example.org") (Some "longenough"))
  = Rejected (new_Error username_format_message).
Proof.
  destruct (username_format_error_is_shown_under_email welcoming_world
              (Some "x") (Some "steve@example.org") (Some "longenough")) as [Hrun _].
  - vm_compute. reflexivity.
  - reflexivity.
  - vm_compute. reflexivity.
  - now rewrite Hrun.
Defined.

(** The account is created and the registration rejected when the profile
    cannot be written. *)
Example register_example :
  register profile_failing_world (Some "Steve_01") (Some "steve@example.org")
    (Some "longenough")
  = (Rejected {| code := Some "permission-denied";
                 message := "Missing or insufficient permissions." |},
     [QueryUsers "Steve_01"; CreateUser "steve@example.org" "longenough";
      SetProfile "uid-1" "Steve_01" "steve@example.org";
      ConsoleError "Ошибка при регистрации:"
        {| code := Some "permission-denied";
           message := "Missing or insufficient permissions." |}]).
Proof. vm_compute. reflexivity. Qed.

End RegisterWitnesses.

(** ** The timestamp of the counter *)

Section TimestampFacts.
Import Utils Stats ClassList Rendering.
Context `{NumberText}.

Local Abbreviation StatsPage := (StatsPage (H := H)).
Local Abbreviation System := (System (Page := StatsPage)).
Local Abbreviation resume := (updateStats_resume render_stats render_unavailable).
Implicit Types (s : System) (p : StatsPage) (fetched : Settled (option Json)).

Lemma displayStatsUnavailable_on_timestamp last p :
  stats_timestamp (displayStatsUnavailable_on last p) = stats_timestamp p
  /\ timeString (displayStatsUnavailable_on last p) = timeString p.
Proof.
  unfold displayStatsUnavailable_on. destruct (player_stats p); split; reflexivity.
Qed.

Lemma displayStats_on_timestamp last c p el old :
  player_stats p = Some el -> stats_timestamp p = Some old ->
  stats_timestamp (displayStats_on last c p)
  = if number_isNaN c then Some old else Some ("Обновлено: " +:+ timeString p).
Proof.
  intros Hel Hold. unfold displayStats_on. rewrite Hel.
  destruct (number_isNaN c).
  - destruct (displayStatsUnavailable_on_timestamp last (warn c p)) as [-> _]. exact Hold.
  - unfold updateTimestamp.
    destruct (match last with Some l => negb (number_equal l c) | None => false end);
      cbn [stats_timestamp with_counter set_animation_timer timeString]; now rewrite Hold.
Qed.

(** X20. On a page with the counter and the timestamp element, an update
    cycle writes [Обновлено: <time>] with the time of the moment whenever
    it displays a count, and leaves the timestamp as it was when it shows
    that the count is unavailable.  So after a failed fetch with a last
    known count the old count is shown with a new timestamp. *)
Theorem timestamp_follows_the_displayed_count fetched s el old :
  player_stats (page s) = Some el ->
  stats_timestamp (page s) = Some old ->
  let after := page (snd (Stats.updateStats_resume render_stats render_unavailable fetched s)) in
  (forall c,
     cycle_count fetched (lastKnownCount (this s)) = Some c -> number_isNaN c = false ->
     stats_timestamp after = Some ("Обновлено: " +:+ timeString (page s)))
  /\ (cycle_count fetched (lastKnownCount (this s)) = None -> stats_timestamp after = Some old)
  /\ (forall e n,
        fetched = RejectedWith e -> lastKnownCount (this s) = Some n ->
        number_isNaN n = false ->
        stats_timestamp after = Some ("Обновлено: " +:+ timeString (page s))
        /\ exists el', player_stats after = Some el' /\ counter_text el' = number_to_string n).
Proof.
  intros Hel Hold. cbv zeta. rewrite resume_page. cbn [snd].
  assert (forall c, cycle_count fetched (lastKnownCount (this s)) = Some c ->
                    number_isNaN c = false ->
                    stats_timestamp
                      (page
                         (with_this
                            (set_isUpdating false
                               (this (snd (Stats.getOnlinePlayersCount fetched s))))
                            (with_page
                               match cycle_count fetched (lastKnownCount (this s)) with
                               | Some c =>
                                   displayStats_on
                                     (lastKnownCount
                                        (this (snd (Stats.getOnlinePlayersCount fetched s))))
                                     c (page s)
                               | None => displayStatsUnavailable_on None (page s)
                               end
                               (snd (Stats.getOnlinePlayersCount fetched s)))))
                    = Some ("Обновлено: " +:+ timeString (page s))) as Hshown.
  { intros c Hc Hnan. rewrite Hc. cbn [page with_this with_page].
    rewrite (displayStats_on_timestamp _ c (page s) el old Hel Hold). now rewrite Hnan. }
  split_and!.
  - exact Hshown.
  - intros Hc. rewrite Hc. cbn [page with_this with_page].
    destruct (displayStatsUnavailable_on_timestamp None (page s)) as [-> _]. exact Hold.
  - intros e n -> Hlast Hnan. split.
    + apply (Hshown n); [cbn [cycle_count]; exact Hlast|exact Hnan].
    + pose proof (resume_shows (RejectedWith e) s el Hel) as Hs.
      cbn [cycle_count] in Hs. rewrite Hlast in Hs. specialize (Hs Hnan).
      rewrite resume_page in Hs. cbn [snd] in Hs.
      destruct Hs as (el' & Hel' & Htext & _). exists el'. split; assumption.
Qed.

End TimestampFacts.

Section TimestampWitnesses.
Import Utils Stats Rendering.
#[local] Existing Instance integer_numbers.
#[local] Existing Instance integer_text.

Lemma timestamp_follows_witness :
  stats_timestamp
    (page (snd (updateStats_resume (H := integer_numbers)
                  (render_stats (H0 := integer_text)) (render_unavailable (H0 := integer_text))
                  (RejectedWith network_error)
                  (with_this (set_lastKnownCount (H := integer_numbers) (Some 42%Z)
                                (this (initial default_endpoint example_stats_page)))
                     (initial default_endpoint example_stats_page)))))
  = Some "Обновлено: 12:15".
Proof.
  destruct (timestamp_follows_the_displayed_count (H0 := integer_text)
              (RejectedWith network_error)
              (with_this (set_lastKnownCount (H := integer_numbers) (Some 42%Z)
                            (this (initial default_endpoint example_stats_page)))
                 (initial default_endpoint example_stats_page))
              {| counter_text := ""; counter_classes := [] |} "")
    as (_ & _ & Hstale).
  - reflexivity.
  - reflexivity.
  - destruct (Hstale network_error 42%Z) as [Ht _]; [reflexivity|reflexivity|reflexivity|].
    exact Ht.
Defined.

End TimestampWitnesses.

(** ** The download button and the click *)

Section DownloadPageFacts.
Import Utils Stats Download DownloadPage ClassList.
Context `{Numbers}.
Variable other_text : Json -> string.
Implicit Types (w : World) (s : System) (info : ClientInfo) (page : Page).

(** A click when the module holds information that is marked available
    and has no usable URL. *)
Lemma downloadClient_without_url w s info :
  clientInfo s = Some info -> isAvailable info = true -> no_url info = true ->
  downloadClient w s
  = (Fulfilled tt, emit_all (Shown <$> showToast unavailable_message "info") s).
Proof.
  intros Hc Ha Hu. unfold downloadClient, try_catch, mbind, M_bind, bind.
  rewrite (getClientInfo_cached w s info Hc), Ha. cbn [negb].
  rewrite (checkAvailability_after w s info s (getClientInfo_cached w s info Hc)), Hu.
  reflexivity.
Qed.

(** X21. [displayClientInfo] enables the button exactly when the client
    information is not marked unavailable, with the class [disabled] on
    it exactly when it is disabled; the URL plays no part.  So when the
    information has no usable URL the button is enabled all the same, and
    the click on it opens nothing and shows the toast that the file is
    unavailable. *)
Theorem enabled_button_may_not_download w s page btn :
  download_btn page = Some btn ->
  let shown := DownloadPage.displayClientInfo other_text w s page in
  exists info btn',
    fst (getClientInfo w s) = Fulfilled info
    /\ download_btn (snd shown) = Some btn'
    /\ disabled btn' = negb (isAvailable info)
    /\ button_text btn' = (if isAvailable info then "Скачать" else "Временно недоступно")
    /\ (("disabled" ∈ button_classes btn') <-> disabled btn' = true)
    /\ (disabled btn' = false -> no_url info = true ->
        forall w',
          downloadClient w' (fst shown)
          = (Fulfilled tt,
             emit_all (Shown <$> showToast unavailable_message "info") (fst shown))).
Proof.
  intros Hbtn. cbv zeta. unfold displayClientInfo.
  destruct (getClientInfo_spec w s) as (info & s1 & new & Hg & _ & _ & _ & _ & _ & Hinfo).
  rewrite Hg. cbn [fst snd]. unfold show_info. rewrite Hbtn. cbn [download_btn].
  destruct (isAvailable info) eqn:Ha; cbn [negb].
  - eexists info, _. rewrite Ha. split_and!; try reflexivity.
    + cbn [button_classes disabled]. rewrite elem_of_class_remove. split; [|discriminate].
      intros [Hne _]. now destruct Hne.
    + intros _ Hu w'. destruct Hinfo as [Hinfo|(_ & -> & _)]; [|discriminate].
      now apply (downloadClient_without_url w' s1 info).
  - eexists info, _. rewrite Ha. split_and!; try reflexivity.
    + cbn [button_classes disabled]. rewrite elem_of_class_add. split; [reflexivity|].
      intros _. now left.
    + discriminate.
Qed.

End DownloadPageFacts.

Section DownloadPageWitnesses.
Import Utils Stats Download DownloadPage.
#[local] Existing Instance integer_numbers.

Lemma enabled_button_may_not_download_witness :
  (disabled <$> download_btn
     (snd (displayClientInfo (fun _ => "") urlless_world constructor example_download_page)))
  = Some false
  /\ shown (effects (snd (downloadClient urlless_world
                            (fst (displayClientInfo (fun _ => "") urlless_world constructor
                                    example_download_page)))))
     = [(unavailable_message, "info")].
Proof.
  destruct (enabled_button_may_not_download (fun _ => "") urlless_world constructor
              example_download_page
              {| disabled := false; button_text := ""; button_classes := ["btn"] |})
    as (info & btn' & Hinfo & Hbtn & Hdisabled & _ & _ & Hclick).
  - reflexivity.
  - vm_compute in Hinfo. injection Hinfo as <-. split.
    + rewrite Hbtn. cbn [fmap option_fmap option_map]. now rewrite Hdisabled.
    + rewrite Hclick; [reflexivity|now rewrite Hdisabled|reflexivity].
Defined.

End DownloadPageWitnesses.
